(** * webdavfs, mount.tproj: the network subsystem and the mount options

    A shallow embedding of [webdav_network.c] and [getmntopts.c].  Of the
    first: the HTTP header lexers, the status-to-errno table, the DAV header
    parser, the SSL trust negotiator, the stream slots, the three
    transaction variants with their retry loop, the URL builder, and the
    operations built on them: OPTIONS and PROPFIND at mount time, DELETE,
    MOVE, LOCK and UNLOCK, the ranged GET, and the background download.  Of
    the second: the parser of the [-o] option string.

    C strings are lists of characters; a pointer into a C string is the
    suffix it points at, and reading through a pointer that has reached the
    end of the list yields the terminating NUL.  Integers are [Z].  Code that
    changes globals, the node or the cache file passes a [World] along. *)

From Stdlib Require Import ZArith Ascii String List Lia Bool.
From stdpp Require Import base option list gmap strings pretty.
From Equations Require Import Equations.
From Equations.Prop Require Import Logic.

Open Scope Z_scope.

(** ** errno values (Darwin [<sys/errno.h>]) *)

Definition EPERM : Z := 1.
Definition ENOENT : Z := 2.
Definition EIO : Z := 5.
Definition ENXIO : Z := 6.
Definition EBUSY : Z := 16.
Definition EINVAL : Z := 22.
Definition ENOSPC : Z := 28.
Definition EPIPE : Z := 32.
Definition EAGAIN : Z := 35.
Definition ENAMETOOLONG : Z := 63.
Definition EAUTH : Z := 80.
Definition ECANCELED : Z := 89.

(** ** C strings *)

Definition cstring : Type := list ascii.

(** A string literal as a C string. *)
Definition cstr (s : string) : cstring := list_ascii_of_string s.

Definition NUL : ascii := "000"%char.
Definition HT : ascii := "009"%char.
Definition LF : ascii := "010"%char.
Definition CR : ascii := "013"%char.
Definition SP : ascii := " "%char.
Definition DEL : ascii := "127"%char.
Definition DQUOTE : ascii := "034"%char.

(** [*bytes]: the character under the pointer; the end of the list is the
    terminating NUL. *)
Definition deref (bytes : cstring) : ascii :=
  match bytes with
  | [] => NUL
  | c :: _ => c
  end.

Definition ceq (a b : ascii) : bool := Ascii.eqb a b.

(** [(unsigned char) c] *)
Definition uchar (c : ascii) : Z := Z.of_nat (nat_of_ascii c).

(** ** The lexers (RFC 2616 section 2.2, RFC 2518 section 9.4) *)

(** [SkipCodedURL] advances while the character under the pointer is neither
    NUL nor the closing angle bracket. *)
Fixpoint SkipCodedURL (bytes : cstring) : cstring :=
  match bytes with
  | [] => bytes
  | c :: rest =>
      if negb (ceq c NUL) && negb (ceq c ">")
      then SkipCodedURL rest
      else bytes
  end.

(** The [switch] of [SkipToken]: the case labels that jump to [Done]. *)
Definition SkipToken_case (c : ascii) : bool :=
  ceq c DEL
  || ceq c "(" || ceq c ")" || ceq c "<" || ceq c ">" || ceq c "@"
  || ceq c "," || ceq c ";" || ceq c ":" || ceq c "\" || ceq c DQUOTE
  || ceq c "/" || ceq c "[" || ceq c "]" || ceq c "?" || ceq c "="
  || ceq c "{" || ceq c "}" || ceq c SP || ceq c HT.

Fixpoint SkipToken (bytes : cstring) : cstring :=
  match bytes with
  | [] => bytes
  | c :: rest =>
      if ceq c NUL then bytes                 (* the loop condition *)
      else if uchar c <=? 31 then bytes       (* CTL: goto Done *)
      else if SkipToken_case c then bytes     (* DEL or separator: goto Done *)
      else SkipToken rest                     (* default: ++bytes *)
  end.

Fixpoint SkipLWS (bytes : cstring) : cstring :=
  match bytes with
  | [] => bytes
  | c :: rest =>
      if ceq c NUL then bytes
      else if ceq c SP || ceq c HT then SkipLWS rest
      else if ceq c CR then
        match rest with
        | c1 :: c2 :: rest3 =>
            if ceq c1 LF && (ceq c2 SP || ceq c2 HT)
            then SkipLWS rest3                (* bytes += 3 *)
            else bytes
        | _ => bytes
        end
      else bytes
  end.

(** ** Status code to errno *)

(** [translate_status_to_error].  In the inner [switch], [case 414] assigns
    [ENAMETOOLONG] and has no [break]: control falls into the labels 423 and
    424, which assign [EBUSY]. *)
Definition translate_status_to_error (statusCode : Z) : Z :=
  let range := statusCode / 100 in
  if range =? 1 then ENOENT
  else if range =? 2 then 0
  else if range =? 3 then ENOENT
  else if range =? 4 then
    if (statusCode =? 401) || (statusCode =? 407) then EAUTH
    else if (statusCode =? 402) || (statusCode =? 403) then EPERM
    else if (statusCode =? 404) || (statusCode =? 409) || (statusCode =? 410)
    then ENOENT
    else if statusCode =? 414 then
      let result := ENAMETOOLONG in
      (* falls through *)
      let result := EBUSY in
      result
    else if (statusCode =? 423) || (statusCode =? 424) then EBUSY
    else EINVAL
  else if range =? 5 then
    if statusCode =? 507 then ENOSPC else ENOENT
  else EIO.

(** ** The DAV header parser *)

(** The inner loop [while ( *field_value == ',' ) ++field_value;]. *)
Fixpoint skip_commas (field_value : cstring) : cstring :=
  match field_value with
  | [] => field_value
  | c :: rest => if ceq c "," then skip_commas rest else field_value
  end.

(** How one pass through the body of the main [while] loop of
    [ParseDAVLevel] ends: at a [break], or at the end of the body. *)
Inductive iteration : Type :=
| Break (dav_level : Z)
| Continue (field_value : cstring) (dav_level : Z).

(** [field_value - token], a difference of pointers into the same string. *)
Definition ptrdiff (p q : cstring) : Z := Z.of_nat (length q) - Z.of_nat (length p).

Definition ParseDAVLevel_body (field_value : cstring) (dav_level : Z) : iteration :=
  (* find first non-LWS character *)
  let field_value := SkipLWS field_value in
  if ceq (deref field_value) NUL then Break dav_level
  else
    let '(field_value, dav_level) :=
      if ceq (deref field_value) "<" then
        (* a Coded-URL: skip the opening bracket, the URL, the closing bracket *)
        let field_value := drop 1 field_value in
        let field_value := SkipCodedURL field_value in
        (if negb (ceq (deref field_value) NUL) then drop 1 field_value
         else field_value, dav_level)
      else
        (* a token *)
        let token := field_value in
        let field_value := SkipToken field_value in
        (field_value,
         if ptrdiff field_value token =? 1 then
           if ceq (deref token) "1" && (dav_level <? 1) then 1
           else if ceq (deref token) "2" && (dav_level <? 2) then 2
           else dav_level
         else dav_level) in
    (* skip over LWS (if any) *)
    let field_value := SkipLWS field_value in
    if negb (ceq (deref field_value) NUL) then
      if negb (ceq (deref field_value) ",") then Break dav_level
      else Continue (skip_commas field_value) dav_level
    else Continue field_value dav_level.

Lemma SkipLWS_suffix bytes : SkipLWS bytes `suffix_of` bytes.
Proof.
  induction bytes as [bytes IH] using (induction_ltof1 _ (@length ascii)).
  unfold ltof in IH.
  destruct bytes as [|c rest]; simpl; [done|].
  destruct (ceq c NUL); [done|].
  destruct (ceq c SP || ceq c HT).
  { apply suffix_cons_r, IH. simpl. lia. }
  destruct (ceq c CR); [|done].
  destruct rest as [|c1 [|c2 rest3]]; [done..|].
  destruct (ceq c1 LF && (ceq c2 SP || ceq c2 HT)); [|done].
  do 3 apply suffix_cons_r. apply IH. simpl. lia.
Qed.

Lemma SkipToken_suffix bytes : SkipToken bytes `suffix_of` bytes.
Proof.
  induction bytes as [|c rest IH]; simpl; [done|].
  destruct (ceq c NUL); [done|].
  destruct (uchar c <=? 31); [done|].
  destruct (SkipToken_case c); [done|].
  by apply suffix_cons_r.
Qed.

Lemma SkipCodedURL_suffix bytes : SkipCodedURL bytes `suffix_of` bytes.
Proof.
  induction bytes as [|c rest IH]; simpl; [done|].
  destruct (negb (ceq c NUL) && negb (ceq c ">")); [|done].
  by apply suffix_cons_r.
Qed.

Lemma skip_commas_suffix field_value : skip_commas field_value `suffix_of` field_value.
Proof.
  induction field_value as [|c rest IH]; simpl; [done|].
  destruct (ceq c ","); [|done].
  by apply suffix_cons_r.
Qed.

Lemma drop1_suffix (bytes : cstring) : drop 1 bytes `suffix_of` bytes.
Proof. apply suffix_drop. Qed.

Lemma suffix_deref_lt (p q : cstring) :
  p `suffix_of` q -> deref p <> deref q -> (length p < length q)%nat.
Proof.
  intros [k ->] Hne. destruct k as [|c k]; [done|].
  rewrite length_app. simpl. lia.
Qed.

Lemma ParseDAVLevel_body_decreases field_value dav_level field_value' dav_level' :
  ceq (deref field_value) NUL = false ->
  ParseDAVLevel_body field_value dav_level = Continue field_value' dav_level' ->
  (length field_value' < length field_value)%nat.
Proof.
  intros Hnz. unfold ParseDAVLevel_body.
  pose proof (SkipLWS_suffix field_value) as H1.
  set (fv1 := SkipLWS field_value) in *.
  destruct (ceq (deref fv1) NUL) eqn:Hfv1; [done|].
  set (elem := if ceq (deref fv1) "<" then _ else _).
  assert (Helem : elem.1 `suffix_of` fv1).
  { subst elem. destruct (ceq (deref fv1) "<"); simpl.
    - destruct (negb _); simpl.
      + etrans; [apply drop1_suffix|]. etrans; [apply SkipCodedURL_suffix|].
        apply drop1_suffix.
      + etrans; [apply SkipCodedURL_suffix|]. apply drop1_suffix.
    - apply SkipToken_suffix. }
  destruct elem as [fv2 lvl]. simpl in Helem.
  pose proof (SkipLWS_suffix fv2) as H3.
  set (fv3 := SkipLWS fv2) in *.
  assert (H13 : fv3 `suffix_of` fv1) by (by etrans).
  destruct (negb (ceq (deref fv3) NUL)) eqn:Hfv3.
  - destruct (negb (ceq (deref fv3) ",")) eqn:Hc; [done|].
    intros [= <- <-].
    apply suffix_length in H1, H13.
    destruct fv3 as [|c r]; [done|]. simpl in Hc |- *.
    destruct (ceq c ","); [|done].
    pose proof (suffix_length _ _ (skip_commas_suffix r)). simpl in H13. lia.
  - intros [= <- <-].
    apply negb_false_iff in Hfv3.
    assert (length fv3 < length fv1)%nat.
    { apply suffix_deref_lt; [done|].
      intros Heq. rewrite <-Heq, Hfv3 in Hfv1. done. }
    apply suffix_length in H1. lia.
Qed.

(** The main loop [while ( *field_value != '\0' ) { ... }]. *)
Equations? ParseDAVLevel_loop (field_value : cstring) (dav_level : Z) : Z
  by wf (length field_value) lt :=
ParseDAVLevel_loop field_value dav_level
    with inspect (ceq (deref field_value) NUL) := {
  | exist _ true _ => dav_level
  | exist _ false Hnz
      with inspect (ParseDAVLevel_body field_value dav_level) := {
    | exist _ (Break level) _ => level
    | exist _ (Continue field_value' level) Hbody =>
        ParseDAVLevel_loop field_value' level } }.
Proof. eapply ParseDAVLevel_body_decreases; eauto. Qed.

(** ** CoreFoundation strings and HTTP messages *)

(** A [CFStringRef]: its UTF-8 bytes, and whether CoreFoundation can hand out
    a pointer to them without copying ([CFStringGetCStringPtr] may return
    NULL for any string). *)
Record CFString : Type := {
  characters : cstring;
  hasCStringPtr : bool
}.

Definition CFSTR (s : string) : CFString :=
  {| characters := cstr s; hasCStringPtr := true |}.

Definition CFStringGetCStringPtr (s : CFString) : option cstring :=
  if hasCStringPtr s then Some (characters s) else None.

(** [CFStringGetCString] copies the bytes and a terminating NUL into a buffer
    of [bufferSize] bytes, and fails when they do not fit. *)
Definition CFStringGetCString (s : CFString) (bufferSize : Z) : option cstring :=
  if Z.of_nat (length (characters s)) <? bufferSize
  then Some (characters s) else None.

(** A [CFURLRef]: the string it was made from and, for a relative URL, the
    string of its base. *)
Record CFURL : Type := {
  urlString : cstring;
  baseURL : option cstring
}.

(** A [CFHTTPMessageRef], request or response.  [credentials] is the uid
    whose credentials the authentication cache has put on a request. *)
Record CFHTTPMessage : Type := {
  requestMethod : string;
  requestURL : option CFURL;
  messageBody : option (list ascii);
  headerFields : gmap string CFString;
  statusCode : Z;
  credentials : option Z
}.

Definition CFHTTPMessageCopyHeaderFieldValue (m : CFHTTPMessage) (field : string)
  : option CFString := headerFields m !! field.

Definition CFHTTPMessageSetHeaderFieldValue
    (m : CFHTTPMessage) (field : string) (value : CFString) : CFHTTPMessage :=
  {| requestMethod := requestMethod m; requestURL := requestURL m;
     messageBody := messageBody m;
     headerFields := <[field := value]> (headerFields m);
     statusCode := statusCode m; credentials := credentials m |}.

Definition CFHTTPMessageGetResponseStatusCode (m : CFHTTPMessage) : Z :=
  statusCode m.

(** [ParseDAVLevel]: [dav_level] starts at 0 and is only raised by the loop;
    the loop runs when the response has a DAV header and its bytes could be
    got, directly or through the 4096 byte buffer. *)
Definition ParseDAVLevel (responsePropertyRef : CFHTTPMessage) : Z :=
  let dav_level := 0 in
  match CFHTTPMessageCopyHeaderFieldValue responsePropertyRef "DAV" with
  | Some davHeaderRef =>
      let field_value :=
        match CFStringGetCStringPtr davHeaderRef with
        | Some p => Some p
        | None => CFStringGetCString davHeaderRef 4096
        end in
      match field_value with
      | Some field_value => ParseDAVLevel_loop field_value dav_level
      | None => dav_level
      end
  | None => dav_level
  end.

(** An OPTIONS response as the tests build it: only the DAV header, if any. *)
Definition options_response (dav : option CFString) : CFHTTPMessage :=
  {| requestMethod := ""; requestURL := None; messageBody := None;
     headerFields := match dav with
                     | Some v => {["DAV" := v]}
                     | None => ∅
                     end;
     statusCode := 200; credentials := None |}.

(** ** Streams

    CFNetwork is outside the program.  A read stream is modelled by the
    script of what it will answer, in the way of a scripted test transport,
    together with the state the program can change: its properties and its
    last error. *)

Record CFStreamError : Type := { domain : Z; error : Z }.

(** [CFStream.h]: the error domains the code tests for. *)
Definition kCFStreamErrorDomainPOSIX : Z := 1.
Definition kCFStreamErrorDomainSSL : Z := 3.

(** What one further [CFReadStreamRead] finds: bytes of the response body,
    or a failure.  An exhausted list is the end of the body. *)
Inductive ReadEvent : Type :=
| RData (bytes : list ascii)
| RFail (err : CFStreamError).

Inductive CFValue : Type :=
| kCFBooleanTrue
| kCFBooleanFalse
| kCFStreamSocketSecurityLevelSSLv3.

Inductive Property : Type :=
| PValue (v : CFValue)
| PString (s : string)
| PProxy (proxy : option (gmap string CFString))
| PSSLSettings (settings : gmap string CFValue).

Record CFReadStream : Type := {
  (* the script *)
  openError : option CFStreamError;   (* [CFReadStreamOpen] fails with it *)
  events : list ReadEvent;
  knowsEnd : bool;                    (* status is AtEnd once [events] is empty *)
  responseHeader : option CFHTTPMessage;
  refusedProperties : list string;    (* [CFReadStreamSetProperty] returns FALSE *)
  (* the state *)
  streamRequest : option CFHTTPMessage;
  streamedBody : option Z;            (* the fd a streamed request reads from *)
  properties : gmap string Property;
  streamError : CFStreamError
}.

Definition with_events (s : CFReadStream) (evs : list ReadEvent) : CFReadStream :=
  {| openError := openError s; events := evs; knowsEnd := knowsEnd s;
     responseHeader := responseHeader s;
     refusedProperties := refusedProperties s;
     streamRequest := streamRequest s; streamedBody := streamedBody s;
     properties := properties s; streamError := streamError s |}.

Definition with_streamError (s : CFReadStream) (e : CFStreamError) : CFReadStream :=
  {| openError := openError s; events := events s; knowsEnd := knowsEnd s;
     responseHeader := responseHeader s;
     refusedProperties := refusedProperties s;
     streamRequest := streamRequest s; streamedBody := streamedBody s;
     properties := properties s; streamError := e |}.

Definition with_properties (s : CFReadStream) (ps : gmap string Property)
  : CFReadStream :=
  {| openError := openError s; events := events s; knowsEnd := knowsEnd s;
     responseHeader := responseHeader s;
     refusedProperties := refusedProperties s;
     streamRequest := streamRequest s; streamedBody := streamedBody s;
     properties := ps; streamError := streamError s |}.

Definition with_request (s : CFReadStream) (request : CFHTTPMessage)
    (fdStream : option Z) : CFReadStream :=
  {| openError := openError s; events := events s; knowsEnd := knowsEnd s;
     responseHeader := responseHeader s;
     refusedProperties := refusedProperties s;
     streamRequest := Some request; streamedBody := fdStream;
     properties := properties s; streamError := streamError s |}.

Definition CFReadStreamGetError (s : CFReadStream) : CFStreamError := streamError s.

Definition CFReadStreamSetProperty (s : CFReadStream) (name : string) (v : Property)
  : bool * CFReadStream :=
  if bool_decide (name ∈ refusedProperties s) then (false, s)
  else (true, with_properties s (<[name := v]> (properties s))).

Definition CFReadStreamOpen (s : CFReadStream) : bool * CFReadStream :=
  match openError s with
  | Some e => (false, with_streamError s e)
  | None => (true, s)
  end.

(** [CFReadStreamRead (stream, buffer, bufferLength)]: the number of bytes read
    (0 at the end of the body, -1 on a failure), the bytes, and the stream
    afterwards.  A chunk longer than the buffer is delivered in parts. *)
Definition CFReadStreamRead (s : CFReadStream) (bufferLength : Z)
  : Z * list ascii * CFReadStream :=
  match events s with
  | [] => (0, [], s)
  | RFail e :: rest => (-1, [], with_streamError (with_events s rest) e)
  | RData bytes :: rest =>
      let n := Z.to_nat bufferLength in
      if (length bytes <=? n)%nat
      then (Z.of_nat (length bytes), bytes, with_events s rest)
      else (Z.of_nat n, take n bytes, with_events s (RData (drop n bytes) :: rest))
  end.

(** [CFReadStreamGetStatus (stream) == kCFStreamStatusAtEnd] *)
Definition atEnd (s : CFReadStream) : bool :=
  match events s with
  | [] => knowsEnd s
  | _ => false
  end.

Definition CFReadStreamCopyProperty_ResponseHeader (s : CFReadStream)
  : option CFHTTPMessage := responseHeader s.

(** The measure by which the read loops end: every read that returns bytes
    makes it smaller. *)
Definition event_weight (e : ReadEvent) : nat :=
  match e with
  | RData bytes => S (length bytes)
  | RFail _ => 1
  end.

Definition stream_weight (s : CFReadStream) : nat :=
  foldr (fun e n => (event_weight e + n)%nat) 0%nat (events s).

Lemma CFReadStreamRead_weight s bufferLength bytesRead bytes s' :
  CFReadStreamRead s bufferLength = (bytesRead, bytes, s') ->
  0 < bytesRead ->
  (stream_weight s' < stream_weight s)%nat.
Proof.
  unfold CFReadStreamRead, stream_weight.
  destruct (events s) as [|[chunk|e] rest] eqn:Hev.
  - intros [= <- <- <-]. lia.
  - destruct (length chunk <=? Z.to_nat bufferLength)%nat eqn:Hle.
    + intros [= <- <- <-] _. simpl. lia.
    + intros [= <- <- <-] Hpos. simpl.
      apply Nat.leb_gt in Hle. rewrite length_drop. lia.
  - intros [= <- <- <-]. lia.
Qed.

(** ** The world the network code runs in *)

(** Declared in [webdavd.h], which is not among the sources; only the names
    are used here. *)
Inductive connection_state : Type :=
| WEBDAV_CONNECTION_UP
| WEBDAV_CONNECTION_DOWN.

(** The values a statement [node->file_status = ...] of this file stores.
    Declared in [webdavd.h]; the TERMINATED bit, which only
    [network_finish_download] reads, is left out. *)
Inductive download_status : Type :=
| WEBDAV_DOWNLOAD_NEVER
| WEBDAV_DOWNLOAD_IN_PROGRESS
| WEBDAV_DOWNLOAD_FINISHED
| WEBDAV_DOWNLOAD_ABORTED.

(** The fields of [struct node_entry] that the modelled functions use. *)
Record node_entry : Type := {
  fileid : Z;
  file_fd : Z;
  file_status : download_status;
  file_locktoken : option cstring;
  file_locktoken_uid : Z
}.

Definition with_file_status (node : node_entry) (st : download_status) : node_entry :=
  {| fileid := fileid node; file_fd := file_fd node; file_status := st;
     file_locktoken := file_locktoken node;
     file_locktoken_uid := file_locktoken_uid node |}.

(** A slot of [gReadStreams]. *)
Record ReadStreamRec : Type := {
  inUse : bool;
  readStreamRef : option CFReadStream;
  uniqueValue : string;
  connectionClose : bool
}.

Definition with_inUse (r : ReadStreamRec) (b : bool) : ReadStreamRec :=
  {| inUse := b; readStreamRef := readStreamRef r;
     uniqueValue := uniqueValue r; connectionClose := connectionClose r |}.

Definition with_readStreamRef (r : ReadStreamRec) (s : option CFReadStream)
  : ReadStreamRec :=
  {| inUse := inUse r; readStreamRef := s;
     uniqueValue := uniqueValue r; connectionClose := connectionClose r |}.

Definition with_connectionClose (r : ReadStreamRec) (b : bool) : ReadStreamRec :=
  {| inUse := inUse r; readStreamRef := readStreamRef r;
     uniqueValue := uniqueValue r; connectionClose := b |}.

(** The cache file behind a descriptor. *)
Record CacheFile : Type := {
  data : list ascii;
  position : Z;
  flags : Z
}.

(** [<sys/stat.h>], [<unistd.h>] *)
Definition UF_NODUMP : Z := 1.
Definition SEEK_SET : Z := 0.
Definition SEEK_END : Z := 2.

(** Which calls into the system, the C library and CoreFoundation fail.  The
    plan does not change while a transaction runs. *)
Record SysPlan : Type := {
  fchflags_fails : Z -> bool;          (* by the flags asked for *)
  ftruncate_fails : bool;
  lseek_fails : Z -> bool;             (* by whence *)
  write_count : Z -> Z;                (* the result of writing nbyte bytes *)
  malloc_fails : bool;
  realloc_fails : bool;
  dictionary_create_fails : bool;
  message_create_fails : bool;
  string_create_fails : bool;
  fd_stream_fails : bool;
  enqueue_download_result : Z          (* of requestqueue_enqueue_download *)
}.

(** What is set up before any transaction and not changed by one. *)
Record Config : Type := {
  first_read_len : Z;
  gSuppressAllUI : bool;
  gProxyDict : option (gmap string CFString);
  userAgentHeaderValue : CFString;
  X_Source_Id_HeaderValue : option CFString;
  gBaseURL : CFURL;
  plan : SysPlan
}.

(** What the code does to the components outside this file. *)
Inductive Event : Type :=
| ConfirmCertificateCalled (error : Z)
| StreamCreated (request : CFHTTPMessage)
| StreamClosed
| DownloadEnqueued (fileid : Z) (slot : nat)
| AuthcacheApply (uid : Z) (statusCode : Z)
| AuthcacheValid (uid : Z).

Record World : Type := {
  config : Config;
  gSSLPropertiesDict : option (gmap string CFValue);
  gReadStreams : list ReadStreamRec;
  connectionstate : connection_state;
  files : gmap Z CacheFile;
  (* the scripted outside *)
  incoming : list (option CFReadStream);  (* the streams CFNetwork will create *)
  ui_answers : list bool;                 (* the answers of the certificate UI *)
  auth_results : list Z;                  (* the results of authcache_apply *)
  (* the trace *)
  log : list Event
}.

Definition with_dict (w : World) (d : option (gmap string CFValue)) : World :=
  {| config := config w; gSSLPropertiesDict := d;
     gReadStreams := gReadStreams w; connectionstate := connectionstate w;
     files := files w; incoming := incoming w; ui_answers := ui_answers w;
     auth_results := auth_results w; log := log w |}.

Definition with_slots (w : World) (slots : list ReadStreamRec) : World :=
  {| config := config w; gSSLPropertiesDict := gSSLPropertiesDict w;
     gReadStreams := slots; connectionstate := connectionstate w;
     files := files w; incoming := incoming w; ui_answers := ui_answers w;
     auth_results := auth_results w; log := log w |}.

Definition set_connectionstate (st : connection_state) (w : World) : World :=
  {| config := config w; gSSLPropertiesDict := gSSLPropertiesDict w;
     gReadStreams := gReadStreams w; connectionstate := st;
     files := files w; incoming := incoming w; ui_answers := ui_answers w;
     auth_results := auth_results w; log := log w |}.

Definition get_connectionstate (w : World) : connection_state := connectionstate w.

Definition with_files (w : World) (fs : gmap Z CacheFile) : World :=
  {| config := config w; gSSLPropertiesDict := gSSLPropertiesDict w;
     gReadStreams := gReadStreams w; connectionstate := connectionstate w;
     files := fs; incoming := incoming w; ui_answers := ui_answers w;
     auth_results := auth_results w; log := log w |}.

Definition with_incoming (w : World) (ss : list (option CFReadStream)) : World :=
  {| config := config w; gSSLPropertiesDict := gSSLPropertiesDict w;
     gReadStreams := gReadStreams w; connectionstate := connectionstate w;
     files := files w; incoming := ss; ui_answers := ui_answers w;
     auth_results := auth_results w; log := log w |}.

Definition with_ui_answers (w : World) (answers : list bool) : World :=
  {| config := config w; gSSLPropertiesDict := gSSLPropertiesDict w;
     gReadStreams := gReadStreams w; connectionstate := connectionstate w;
     files := files w; incoming := incoming w; ui_answers := answers;
     auth_results := auth_results w; log := log w |}.

Definition with_auth_results (w : World) (rs : list Z) : World :=
  {| config := config w; gSSLPropertiesDict := gSSLPropertiesDict w;
     gReadStreams := gReadStreams w; connectionstate := connectionstate w;
     files := files w; incoming := incoming w; ui_answers := ui_answers w;
     auth_results := rs; log := log w |}.

Definition record (e : Event) (w : World) : World :=
  {| config := config w; gSSLPropertiesDict := gSSLPropertiesDict w;
     gReadStreams := gReadStreams w; connectionstate := connectionstate w;
     files := files w; incoming := incoming w; ui_answers := ui_answers w;
     auth_results := auth_results w; log := log w ++ [e] |}.

Definition is_up (st : connection_state) : bool :=
  match st with
  | WEBDAV_CONNECTION_UP => true
  | WEBDAV_CONNECTION_DOWN => false
  end.

(** *** The cache file *)

Definition fchflags (fd fl : Z) (w : World) : Z * World :=
  match files w !! fd with
  | Some f =>
      if fchflags_fails (plan (config w)) fl then (-1, w)
      else (0, with_files w (<[fd := {| data := data f; position := position f;
                                       flags := fl |}]> (files w)))
  | None => (-1, w)
  end.

Definition ftruncate (fd len : Z) (w : World) : Z * World :=
  match files w !! fd with
  | Some f =>
      if ftruncate_fails (plan (config w)) then (-1, w)
      else
        let n := Z.to_nat len in
        (0, with_files w
              (<[fd := {| data := take n (data f) ++ replicate (n - length (data f)) NUL;
                          position := position f; flags := flags f |}]> (files w)))
  | None => (-1, w)
  end.

Definition lseek (fd offset whence : Z) (w : World) : Z * World :=
  match files w !! fd with
  | Some f =>
      if lseek_fails (plan (config w)) whence then (-1, w)
      else
        let pos := if whence =? SEEK_END then Z.of_nat (length (data f)) + offset
                   else offset in
        if pos <? 0 then (-1, w)
        else (pos, with_files w (<[fd := {| data := data f; position := pos;
                                           flags := flags f |}]> (files w)))
  | None => (-1, w)
  end.

(** The file after [bytes] have been written at its position. *)
Definition write_at (f : CacheFile) (bytes : list ascii) : CacheFile :=
  let pos := Z.to_nat (position f) in
  {| data := take pos (data f) ++ replicate (pos - length (data f)) NUL
             ++ bytes ++ drop (pos + length bytes) (data f);
     position := position f + Z.of_nat (length bytes);
     flags := flags f |}.

Definition write (fd : Z) (buffer : list ascii) (nbyte : Z) (w : World) : Z * World :=
  match files w !! fd with
  | Some f =>
      let n := write_count (plan (config w)) nbyte in
      if n <? 0 then (-1, w)
      else
        let written := take (Z.to_nat n) (take (Z.to_nat nbyte) buffer) in
        (Z.of_nat (length written),
         with_files w (<[fd := write_at f written]> (files w)))
  | None => (-1, w)
  end.

(** *** The stream slots *)

(** The [for] loop of [get_ReadStreamRec]: the first free slot whose stream
    still looks open ends the loop; otherwise the first free slot is kept. *)
Fixpoint get_ReadStreamRec_scan (slots : list ReadStreamRec) (index : nat)
    (result : option nat) : option nat :=
  match slots with
  | [] => result
  | r :: rest =>
      if negb (inUse r) then
        match readStreamRef r with
        | Some _ => Some index
        | None =>
            get_ReadStreamRec_scan rest (S index)
              (match result with
               | None => Some index
               | Some _ => result
               end)
        end
      else get_ReadStreamRec_scan rest (S index) result
  end.

(** A pointer to a slot is its index in [gReadStreams].  Taking the lock
    cannot fail here: a failure ends the daemon. *)
Definition get_ReadStreamRec (w : World) : option nat * World :=
  match get_ReadStreamRec_scan (gReadStreams w) 0 None with
  | Some i => (Some i, with_slots w (alter (fun r => with_inUse r true) i (gReadStreams w)))
  | None => (None, w)
  end.

Definition release_ReadStreamRec (theReadStreamRec : nat) (w : World) : World :=
  with_slots w (alter (fun r => with_inUse r false) theReadStreamRec (gReadStreams w)).

Definition slot_stream (w : World) (slot : nat) : option CFReadStream :=
  r ← gReadStreams w !! slot; readStreamRef r.

Definition set_slot_stream (slot : nat) (s : option CFReadStream) (w : World) : World :=
  with_slots w (alter (fun r => with_readStreamRef r s) slot (gReadStreams w)).

Definition set_slot_connectionClose (slot : nat) (b : bool) (w : World) : World :=
  with_slots w (alter (fun r => with_connectionClose r b) slot (gReadStreams w)).

Definition slot_connectionClose (w : World) (slot : nat) : bool :=
  match gReadStreams w !! slot with
  | Some r => connectionClose r
  | None => false
  end.

(** [CFReadStreamClose] followed by [CFRelease]. *)
Definition close_stream (w : World) : World := record StreamClosed w.

(** ** The SSL trust negotiator *)

(** The keys of the SSL settings dictionary ([CFSocketStream.h]). *)
Definition kCFStreamSSLLevel : string := "kCFStreamSSLLevel".
Definition kCFStreamSSLAllowsExpiredCertificates : string :=
  "kCFStreamSSLAllowsExpiredCertificates".
Definition kCFStreamSSLAllowsExpiredRoots : string := "kCFStreamSSLAllowsExpiredRoots".
Definition kCFStreamSSLAllowsAnyRoot : string := "kCFStreamSSLAllowsAnyRoot".
Definition kCFStreamSSLValidatesCertificateChain : string :=
  "kCFStreamSSLValidatesCertificateChain".

(** The result codes of [<Security/SecureTransport.h>] that [HandleSSLErrors]
    names.  The header is not part of the program: the codes are a parameter
    of the model. *)
Class SecureTransport : Type := {
  errSSLProtocol : Z;
  errSSLXCertChainInvalid : Z;
  errSSLBadCert : Z;
  errSSLCrypto : Z;
  errSSLUnknownRootCert : Z;
  errSSLNoRootCert : Z;
  errSSLCertExpired : Z;
  errSSLCertNotYetValid : Z;
  errSSLClosedNoNotify : Z;
  errSSLPeerBadCert : Z;
  errSSLIllegalParam : Z;
  errSSLPeerAccessDenied : Z;
  errSSLHostNameMismatch : Z;
  errSSLLast : Z
}.

(** The values the header gives them. *)
Definition SecureTransport_h : SecureTransport := {|
  errSSLProtocol := -9800;
  errSSLXCertChainInvalid := -9807;
  errSSLBadCert := -9808;
  errSSLCrypto := -9809;
  errSSLUnknownRootCert := -9812;
  errSSLNoRootCert := -9813;
  errSSLCertExpired := -9814;
  errSSLCertNotYetValid := -9815;
  errSSLClosedNoNotify := -9816;
  errSSLPeerBadCert := -9825;
  errSSLIllegalParam := -9830;
  errSSLPeerAccessDenied := -9832;
  errSSLHostNameMismatch := -9843;
  errSSLLast := -9849
|}.

(** [ConfirmCertificate] hands the certificate chain to the UI helper and
    waits for it.  The helper is outside: its answers are scripted, and a
    call that could not reach the helper answers FALSE like a refusal. *)
Definition ConfirmCertificate (readStreamRef : CFReadStream) (error : Z) (w : World)
  : bool * World :=
  let w := record (ConfirmCertificateCalled error) w in
  match ui_answers w with
  | [] => (false, w)
  | answer :: rest => (answer, with_ui_answers w rest)
  end.

(** [CFDictionaryGetValue (gSSLPropertiesDict, key) == NULL] *)
Definition value_is_NULL (dict : gmap string CFValue) (key : string) : bool :=
  match dict !! key with
  | None => true
  | Some _ => false
  end.

Section SSL.
Context {codes : SecureTransport}.

(** The condition under which [HandleSSLErrors] falls back from TLS to SSL,
    apart from the test of the dictionary. *)
Definition fallback_might_work (error : Z) : bool :=
  ((error <=? errSSLProtocol) && (errSSLXCertChainInvalid <? error))
  || ((error <=? errSSLCrypto) && (errSSLUnknownRootCert <? error))
  || ((error <=? errSSLClosedNoNotify) && (errSSLPeerBadCert <? error))
  || (error =? errSSLIllegalParam)
  || ((error <=? errSSLPeerAccessDenied) && (errSSLLast <? error)).

Definition HandleSSLErrors (readStreamRef : CFReadStream) (w : World) : Z * World :=
  let result := EIO in
  let streamError := CFReadStreamGetError readStreamRef in
  if domain streamError =? kCFStreamErrorDomainSSL then
    let error := error streamError in
    let created :=
      match gSSLPropertiesDict w with
      | None =>
          if dictionary_create_fails (plan (config w)) then None else Some ∅
      | Some dict => Some dict
      end in
    match created with
    | None => (result, w)
    | Some dict =>
        let w := with_dict w (Some dict) in
        if value_is_NULL dict kCFStreamSSLLevel && fallback_might_work error then
          (* retry with fall back from TLS to SSL *)
          (EAGAIN,
           with_dict w (Some (<[kCFStreamSSLLevel := kCFStreamSocketSecurityLevelSSLv3]> dict)))
        else if (error =? errSSLCertExpired) || (error =? errSSLCertNotYetValid) then
          (* the certificate has expired or is not yet valid *)
          if value_is_NULL dict kCFStreamSSLAllowsExpiredCertificates then
            let '(confirmed, w) := ConfirmCertificate readStreamRef error w in
            if confirmed then
              (EAGAIN,
               with_dict w
                 (Some (<[kCFStreamSSLAllowsExpiredRoots := kCFBooleanTrue]>
                          (<[kCFStreamSSLAllowsExpiredCertificates := kCFBooleanTrue]>
                             dict))))
            else (ECANCELED, w)
          else (result, w)
        else if (error =? errSSLBadCert) || (error =? errSSLXCertChainInvalid)
                || (error =? errSSLHostNameMismatch) then
          (* the certificate is invalid *)
          if value_is_NULL dict kCFStreamSSLValidatesCertificateChain then
            let '(confirmed, w) := ConfirmCertificate readStreamRef error w in
            if confirmed then
              (EAGAIN,
               with_dict w
                 (Some (<[kCFStreamSSLValidatesCertificateChain := kCFBooleanFalse]>
                          dict)))
            else (ECANCELED, w)
          else (result, w)
        else if (error =? errSSLUnknownRootCert) || (error =? errSSLNoRootCert) then
          (* signed by an unknown certifying authority *)
          if value_is_NULL dict kCFStreamSSLAllowsAnyRoot then
            let '(confirmed, w) := ConfirmCertificate readStreamRef error w in
            if confirmed then
              (EAGAIN,
               with_dict w (Some (<[kCFStreamSSLAllowsAnyRoot := kCFBooleanTrue]> dict)))
            else (ECANCELED, w)
          else (result, w)
        else (EIO, w)
    end
  else (result, w).

End SSL.

(** ** Opening the stream of a transaction *)

Definition kCFStreamPropertyHTTPAttemptPersistentConnection : string :=
  "kCFStreamPropertyHTTPAttemptPersistentConnection".
Definition kCFStreamPropertyHTTPShouldAutoredirect : string :=
  "kCFStreamPropertyHTTPShouldAutoredirect".
Definition kCFStreamPropertyHTTPProxy : string := "kCFStreamPropertyHTTPProxy".
Definition kCFStreamPropertySSLSettings : string := "kCFStreamPropertySSLSettings".

(** [CFReadStreamCreateForHTTPRequest] and
    [CFReadStreamCreateForStreamedHTTPRequest]: the next stream of the script,
    NULL when the script says so or has run out. *)
Definition CFReadStreamCreate (request : CFHTTPMessage) (fdStream : option Z)
    (w : World) : option CFReadStream * World :=
  match incoming w with
  | [] => (None, w)
  | None :: rest => (None, with_incoming w rest)
  | Some s :: rest =>
      (Some (with_request s request fdStream),
       record (StreamCreated request) (with_incoming w rest))
  end.

(** The lock around the proxy dictionary cannot fail here: a failure ends
    the daemon. *)
Definition set_global_stream_properties (readStreamRef : CFReadStream) (w : World)
  : Z * CFReadStream :=
  let '(ok, readStreamRef) :=
    CFReadStreamSetProperty readStreamRef kCFStreamPropertyHTTPProxy
      (PProxy (gProxyDict (config w))) in
  (if ok then 0 else 1, readStreamRef).

Definition ApplySSLProperties (readStreamRef : CFReadStream) (w : World)
  : bool * CFReadStream :=
  match gSSLPropertiesDict w with
  | Some dict =>
      CFReadStreamSetProperty readStreamRef kCFStreamPropertySSLSettings
        (PSSLSettings dict)
  | None => (true, readStreamRef)
  end.

(** The end of every function of the engine that leaves with an error:
    [if ( result == 0 ) result = EIO;]. *)
Definition error_exit (result : Z) : Z := if result =? 0 then EIO else result.

(** What the engine does with a stream error that is not answered by an SSL
    retry: one retry of the transaction for EPIPE, and otherwise the
    connection is marked down and the transaction fails with ENXIO.  The
    same statements stand in [open_stream_for_transaction] and in the read
    loops of the three variants. *)
Definition stream_error_result (retryTransaction : bool) (streamError : CFStreamError)
    (w : World) : Z * bool * World :=
  if retryTransaction
     && (domain streamError =? kCFStreamErrorDomainPOSIX)
     && (error streamError =? EPIPE)
  then (EAGAIN, false, w)
  else (ENXIO, retryTransaction, set_connectionstate WEBDAV_CONNECTION_DOWN w).

(** How the functions of the engine return: with 0 and their outputs, or with
    an error, in which case every output is NULL.  [Failure] carries the
    error, which [error_exit] has made different from 0. *)
Inductive outcome (A : Type) : Type :=
| Success (outputs : A)
| Failure (result : Z).
Arguments Success {A} outputs.
Arguments Failure {A} result.

(** The [int] the C function returns. *)
Definition returned {A : Type} (o : outcome A) : Z :=
  match o with
  | Success _ => 0
  | Failure result => result
  end.

Section Engine.
Context {codes : SecureTransport}.

Definition open_stream_for_transaction (request : CFHTTPMessage)
    (fdStream : option Z) (auto_redirect : bool) (retryTransaction : bool)
    (w : World) : outcome (nat * CFReadStream) * bool * World :=
  let result := 0 in
  (* create the HTTP read stream *)
  match CFReadStreamCreate request fdStream w with
  | (None, w) => (Failure (error_exit result), retryTransaction, w)
  | (Some newReadStreamRef, w) =>
      (* add persistent property *)
      let '(_, newReadStreamRef) :=
        CFReadStreamSetProperty newReadStreamRef
          kCFStreamPropertyHTTPAttemptPersistentConnection (PValue kCFBooleanTrue) in
      (* turn on automatic redirection *)
      let '(redirect_set, newReadStreamRef) :=
        if auto_redirect
        then CFReadStreamSetProperty newReadStreamRef
               kCFStreamPropertyHTTPShouldAutoredirect (PValue kCFBooleanTrue)
        else (true, newReadStreamRef) in
      if negb redirect_set then (Failure (error_exit result), retryTransaction, w)
      else
        (* add proxies (if any) *)
        let '(proxy_error, newReadStreamRef) :=
          set_global_stream_properties newReadStreamRef w in
        if negb (proxy_error =? 0)
        then (Failure (error_exit result), retryTransaction, w)
        else
          (* apply any SSL properties already negotiated with the server *)
          let '(_, newReadStreamRef) := ApplySSLProperties newReadStreamRef w in
          (* get a ReadStreamRec that was not in use *)
          match get_ReadStreamRec w with
          | (None, w) => (Failure (error_exit result), retryTransaction, w)
          | (Some theReadStreamRec, w) =>
              let unique :=
                match gReadStreams w !! theReadStreamRec with
                | Some r => uniqueValue r
                | None => ""%string
                end in
              let '(tagged, newReadStreamRef) :=
                CFReadStreamSetProperty newReadStreamRef "WebdavConnectionNumber"
                  (PString unique) in
              if negb tagged then
                (Failure (error_exit result), retryTransaction,
                 release_ReadStreamRec theReadStreamRec w)
              else
                (* open the read stream and handle SSL errors *)
                let '(is_open, newReadStreamRef) := CFReadStreamOpen newReadStreamRef in
                if negb is_open then
                  let '(result, w) := HandleSSLErrors newReadStreamRef w in
                  let '(result, retryTransaction, w) :=
                    if negb (result =? EAGAIN) then
                      stream_error_result retryTransaction
                        (CFReadStreamGetError newReadStreamRef) w
                    else (result, retryTransaction, w) in
                  (Failure (error_exit result), retryTransaction,
                   release_ReadStreamRec theReadStreamRec w)
                else
                  (* close and release old read stream *)
                  let w :=
                    match slot_stream w theReadStreamRec with
                    | Some _ => close_stream w
                    | None => w
                    end in
                  (* save new read stream *)
                  let w := set_slot_stream theReadStreamRec (Some newReadStreamRef) w in
                  (Success (theReadStreamRec, newReadStreamRef), retryTransaction, w)
          end
  end.

End Engine.

(** ** The read loops of the three variants *)

Definition BODY_BUFFER_SIZE : Z := 65536.

(** The loop of [stream_get_transaction]: up to [first_read_len] bytes. *)
Inductive first_read : Type :=
| FirstRead (buffer : list ascii) (totalRead : Z) (background_load : bool)
    (readStreamRef : CFReadStream)
| FirstReadFailed (readStreamRef : CFReadStream).

Equations? read_first (len : Z) (s : CFReadStream) (buffer : list ascii)
    (totalRead : Z) : first_read by wf (stream_weight s) lt :=
read_first len s buffer totalRead
    with inspect (CFReadStreamRead s (len - totalRead)) := {
  | exist _ (bytesRead, bytes, s') Hread with inspect (0 <? bytesRead) := {
    | exist _ true Hpos =>
        let totalRead := totalRead + bytesRead in
        if len <=? totalRead then
          (* is there more data to read? *)
          FirstRead (buffer ++ bytes) totalRead (negb (atEnd s')) s'
        else read_first len s' (buffer ++ bytes) totalRead
    | exist _ false _ =>
        if bytesRead =? 0 then FirstRead buffer totalRead false s'
        else FirstReadFailed s' } }.
Proof. eapply CFReadStreamRead_weight; [done|]. by apply Z.ltb_lt. Qed.

(** The loop of [stream_transaction]: the whole body, into a buffer that
    grows by [BODY_BUFFER_SIZE] when less than half of that is free. *)
Inductive body_read : Type :=
| BodyRead (buffer : list ascii) (totalRead : Z) (readStreamRef : CFReadStream)
| BodyReallocFailed (readStreamRef : CFReadStream)
| BodyReadFailed (readStreamRef : CFReadStream).

Equations? read_body (realloc_fails : bool) (s : CFReadStream)
    (currentbuffer : list ascii) (bufferSize totalRead : Z)
  : body_read by wf (stream_weight s) lt :=
read_body realloc_fails s currentbuffer bufferSize totalRead
    with inspect (CFReadStreamRead s (bufferSize - totalRead)) := {
  | exist _ (bytesRead, bytes, s') Hread with inspect (0 <? bytesRead) := {
    | exist _ true Hpos =>
        let bytesToRead := bufferSize - totalRead in
        let totalRead := totalRead + bytesRead in
        (* is currentbuffer getting close to full? *)
        if bytesToRead - bytesRead <? BODY_BUFFER_SIZE / 2 then
          if realloc_fails then BodyReallocFailed s'
          else read_body realloc_fails s' (currentbuffer ++ bytes)
                 (bufferSize + BODY_BUFFER_SIZE) totalRead
        else read_body realloc_fails s' (currentbuffer ++ bytes) bufferSize totalRead
    | exist _ false _ =>
        if bytesRead =? 0 then BodyRead currentbuffer totalRead s'
        else BodyReadFailed s' } }.
Proof.
  all: eapply CFReadStreamRead_weight; [done|]; by apply Z.ltb_lt.
Qed.

(** The loop of [stream_transaction_from_file]: the body is read and dropped. *)
Inductive body_eaten : Type :=
| BodyEaten (readStreamRef : CFReadStream)
| BodyEatFailed (readStreamRef : CFReadStream).

Equations? eat_body (s : CFReadStream) : body_eaten by wf (stream_weight s) lt :=
eat_body s with inspect (CFReadStreamRead s BODY_BUFFER_SIZE) := {
  | exist _ (bytesRead, bytes, s') Hread with inspect (0 <? bytesRead) := {
    | exist _ true Hpos => eat_body s'
    | exist _ false _ =>
        if bytesRead =? 0 then BodyEaten s' else BodyEatFailed s' } }.
Proof. eapply CFReadStreamRead_weight; [done|]. by apply Z.ltb_lt. Qed.

(** ** The three transaction variants *)

(** ASCII lower case, for [kCFCompareCaseInsensitive]. *)
Definition to_lower (c : ascii) : ascii :=
  let n := nat_of_ascii c in
  if (65 <=? n)%nat && (n <=? 90)%nat then ascii_of_nat (n + 32) else c.

(** [CFStringCompare (a, b, kCFCompareCaseInsensitive) == kCFCompareEqualTo] *)
Definition CFStringCompare_caseInsensitive (a b : CFString) : bool :=
  bool_decide (to_lower <$> characters a = to_lower <$> characters b).

(** Is the connection-token of the response "close"? *)
Definition connection_token_is_close (responseMessage : CFHTTPMessage) : bool :=
  match CFHTTPMessageCopyHeaderFieldValue responseMessage "Connection" with
  | Some connectionHeaderRef =>
      CFStringCompare_caseInsensitive connectionHeaderRef (CFSTR "close")
  | None => false
  end.

(** The statements under the error labels once a stream is open: close and
    release the read stream, and make the slot available again. *)
Definition close_and_release (readStreamRecPtr : nat) (w : World) : World :=
  release_ReadStreamRec readStreamRecPtr
    (set_slot_stream readStreamRecPtr None (close_stream w)).

(** [requestqueue_enqueue_download] belongs to the request queue; here it
    only records that it was called, and answers as the plan says. *)
Definition requestqueue_enqueue_download (node : node_entry)
    (readStreamRecPtr : nat) (w : World) : Z * World :=
  (enqueue_download_result (plan (config w)),
   record (DownloadEnqueued (fileid node) readStreamRecPtr) w).

(** The [switch] of [stream_get_transaction] on the status code: whether all
    of its [require]s held, [background_load], and the world. *)
Definition write_first_bytes (code : Z) (node : node_entry) (buffer : list ascii)
    (totalRead : Z) (background_load : bool) (w : World) : bool * bool * World :=
  if code =? 200 then
    (* OK - download whole file from beginning *)
    let '(r, w) := fchflags (file_fd node) 0 w in
    if negb (r =? 0) then (false, background_load, w)
    else
      let '(r, w) := ftruncate (file_fd node) 0 w in
      if r =? -1 then (false, background_load, w)
      else
        let '(r, w) := lseek (file_fd node) 0 SEEK_SET w in
        if r <? 0 then (false, background_load, w)
        else
          let '(r, w) := write (file_fd node) buffer totalRead w in
          if negb (r =? totalRead) then (false, background_load, w)
          else (true, background_load, w)
  else if code =? 206 then
    (* Partial Content - download from EOF *)
    let '(r, w) := fchflags (file_fd node) 0 w in
    if negb (r =? 0) then (false, background_load, w)
    else
      let '(r, w) := lseek (file_fd node) 0 SEEK_END w in
      if r <? 0 then (false, background_load, w)
      else
        let '(r, w) := write (file_fd node) buffer totalRead w in
        if r <? 0 then (false, background_load, w)
        else (true, background_load, w)
  else if code =? 304 then
    (* Not Modified - the cache file is still good *)
    (true, false, w)
  else (true, false, w).

(** The Content-Length header of [stream_transaction_from_file]: left out
    when the string for it cannot be created. *)
Definition set_content_length (request : CFHTTPMessage) (contentLength : Z)
    (w : World) : CFHTTPMessage :=
  if string_create_fails (plan (config w)) then request
  else CFHTTPMessageSetHeaderFieldValue request "Content-Length"
         (CFSTR (pretty contentLength)).

Section Variants.
Context {codes : SecureTransport}.

(** What is returned with [*response], [*retryTransaction], the node and the
    world. *)
Definition stream_get_transaction (request : CFHTTPMessage) (retryTransaction : bool)
    (node : node_entry) (w : World)
  : outcome CFHTTPMessage * bool * node_entry * World :=
  let result := 0 in
  if gSuppressAllUI (config w) && negb (is_up (get_connectionstate w)) then
    (Failure (error_exit result), retryTransaction, node, w)
  else
    match open_stream_for_transaction request None true retryTransaction w with
    | (Failure result, retryTransaction, w) =>
        (Failure (error_exit result), retryTransaction, node, w)
    | (Success (readStreamRecPtr, readStreamRef), retryTransaction, w) =>
        (* malloc a buffer big enough for first read *)
        if malloc_fails (plan (config w)) then
          (Failure (error_exit result), retryTransaction, node,
           close_and_release readStreamRecPtr w)
        else
          (* Send the message and get up to first_read_len bytes of response *)
          match read_first (first_read_len (config w)) readStreamRef [] 0 with
          | FirstReadFailed readStreamRef =>
              let '(result, retryTransaction, w) :=
                stream_error_result retryTransaction
                  (CFReadStreamGetError readStreamRef) w in
              (Failure (error_exit result), retryTransaction, node,
               close_and_release readStreamRecPtr w)
          | FirstRead buffer totalRead background_load readStreamRef =>
              let w := set_slot_stream readStreamRecPtr (Some readStreamRef) w in
              (* get the response header *)
              match CFReadStreamCopyProperty_ResponseHeader readStreamRef with
              | None =>
                  (Failure (error_exit result), retryTransaction, node,
                   close_and_release readStreamRecPtr w)
              | Some responseMessage =>
                  (* get the status code *)
                  let '(ok, background_load, w) :=
                    write_first_bytes
                      (CFHTTPMessageGetResponseStatusCode responseMessage)
                      node buffer totalRead background_load w in
                  if negb ok then
                    (Failure (error_exit result), retryTransaction, node,
                     close_and_release readStreamRecPtr w)
                  else
                    let w := set_connectionstate WEBDAV_CONNECTION_UP w in
                    (* Get the Connection header (if any) *)
                    let w :=
                      set_slot_connectionClose readStreamRecPtr
                        (connection_token_is_close responseMessage) w in
                    if background_load then
                      (* set the NODUMP bit: the file is being filled up *)
                      let '(r, w) := fchflags (file_fd node) UF_NODUMP w in
                      if negb (r =? 0) then
                        (Failure (error_exit result), retryTransaction, node,
                         close_and_release readStreamRecPtr w)
                      else
                        let node := with_file_status node WEBDAV_DOWNLOAD_IN_PROGRESS in
                        (* pass the node and the stream off to another thread *)
                        let '(error, w) :=
                          requestqueue_enqueue_download node readStreamRecPtr w in
                        if negb (error =? 0) then
                          (Failure (error_exit result), retryTransaction, node,
                           close_and_release readStreamRecPtr w)
                        else (Success responseMessage, retryTransaction, node, w)
                    else
                      let node := with_file_status node WEBDAV_DOWNLOAD_FINISHED in
                      let w :=
                        if slot_connectionClose w readStreamRecPtr
                        then set_slot_stream readStreamRecPtr None (close_stream w)
                        else w in
                      (* make this ReadStreamRec available again *)
                      let w := release_ReadStreamRec readStreamRecPtr w in
                      (Success responseMessage, retryTransaction, node, w)
              end
          end
    end.

(** What is returned with [*response], [*retryTransaction] and the world. *)
Definition stream_transaction_from_file (request : CFHTTPMessage) (file_fd : Z)
    (retryTransaction : bool) (w : World)
  : outcome CFHTTPMessage * bool * World :=
  let result := 0 in
  if gSuppressAllUI (config w) && negb (is_up (get_connectionstate w)) then
    (Failure (error_exit result), retryTransaction, w)
  else
    (* get the file length *)
    let '(contentLength, w) := lseek file_fd 0 SEEK_END w in
    if contentLength =? -1 then (Failure (error_exit result), retryTransaction, w)
    else
      let request := set_content_length request contentLength w in
      (* set the file position to 0 *)
      let '(_, w) := lseek file_fd 0 SEEK_SET w in
      (* create a stream from the file *)
      if fd_stream_fails (plan (config w)) then
        (Failure (error_exit result), retryTransaction, w)
      else
        match open_stream_for_transaction request (Some file_fd) false
                retryTransaction w with
        | (Failure result, retryTransaction, w) =>
            (Failure (error_exit result), retryTransaction, w)
        | (Success (readStreamRecPtr, readStreamRef), retryTransaction, w) =>
            if malloc_fails (plan (config w)) then
              (Failure (error_exit result), retryTransaction,
               close_and_release readStreamRecPtr w)
            else
              (* Send the message and eat the response *)
              match eat_body readStreamRef with
              | BodyEatFailed readStreamRef =>
                  let '(result, retryTransaction, w) :=
                    stream_error_result retryTransaction
                      (CFReadStreamGetError readStreamRef) w in
                  (Failure (error_exit result), retryTransaction,
                   close_and_release readStreamRecPtr w)
              | BodyEaten readStreamRef =>
                  let w := set_slot_stream readStreamRecPtr (Some readStreamRef) w in
                  match CFReadStreamCopyProperty_ResponseHeader readStreamRef with
                  | None =>
                      (Failure (error_exit result), retryTransaction,
                       close_and_release readStreamRecPtr w)
                  | Some responseMessage =>
                      let w := set_connectionstate WEBDAV_CONNECTION_UP w in
                      let w :=
                        if connection_token_is_close responseMessage
                        then set_slot_stream readStreamRecPtr None (close_stream w)
                        else w in
                      let w := release_ReadStreamRec readStreamRecPtr w in
                      (Success responseMessage, retryTransaction, w)
                  end
              end
        end.

(** What is returned with [*buffer], [*count] and [*response],
    [*retryTransaction] and the world. *)
Definition stream_transaction (request : CFHTTPMessage) (auto_redirect : bool)
    (retryTransaction : bool) (w : World)
  : outcome (list ascii * Z * CFHTTPMessage) * bool * World :=
  let result := 0 in
  if gSuppressAllUI (config w) && negb (is_up (get_connectionstate w)) then
    (Failure (error_exit result), retryTransaction, w)
  else
    (* get an open ReadStreamRec *)
    match open_stream_for_transaction request None auto_redirect
            retryTransaction w with
    | (Failure result, retryTransaction, w) =>
        (Failure (error_exit result), retryTransaction, w)
    | (Success (readStreamRecPtr, readStreamRef), retryTransaction, w) =>
        (* malloc a buffer big enough for most responses *)
        if malloc_fails (plan (config w)) then
          (Failure (error_exit result), retryTransaction,
           close_and_release readStreamRecPtr w)
        else
          (* Send the message and get the response *)
          match read_body (realloc_fails (plan (config w))) readStreamRef []
                  BODY_BUFFER_SIZE 0 with
          | BodyReallocFailed readStreamRef =>
              (Failure (error_exit result), retryTransaction,
               close_and_release readStreamRecPtr w)
          | BodyReadFailed readStreamRef =>
              let '(result, w) := HandleSSLErrors readStreamRef w in
              let '(result, retryTransaction, w) :=
                if negb (result =? EAGAIN) then
                  if negb (result =? ECANCELED) then
                    stream_error_result retryTransaction
                      (CFReadStreamGetError readStreamRef) w
                  else (result, retryTransaction, w)
                else (result, retryTransaction, w) in
              (Failure (error_exit result), retryTransaction,
               close_and_release readStreamRecPtr w)
          | BodyRead currentbuffer totalRead readStreamRef =>
              let w := set_slot_stream readStreamRecPtr (Some readStreamRef) w in
              (* get the response header *)
              match CFReadStreamCopyProperty_ResponseHeader readStreamRef with
              | None =>
                  (Failure (error_exit result), retryTransaction,
                   close_and_release readStreamRecPtr w)
              | Some responseMessage =>
                  let w := set_connectionstate WEBDAV_CONNECTION_UP w in
                  let w :=
                    if connection_token_is_close responseMessage
                    then set_slot_stream readStreamRecPtr None (close_stream w)
                    else w in
                  (* make this ReadStreamRec available again *)
                  let w := release_ReadStreamRec readStreamRecPtr w in
                  (Success (currentbuffer, totalRead, responseMessage),
                   retryTransaction, w)
              end
          end
    end.

End Variants.

(** ** The transaction and authentication loop *)

Definition with_credentials (m : CFHTTPMessage) (uid : Z) : CFHTTPMessage :=
  {| requestMethod := requestMethod m; requestURL := requestURL m;
     messageBody := messageBody m; headerFields := headerFields m;
     statusCode := statusCode m; credentials := Some uid |}.

(** [authcache_apply] belongs to the authentication cache: its results are
    scripted, 0 once the script has run out.  When it returns 0 the request
    carries the credentials of [uid].  The generation number it hands out is
    opaque to this file and left out. *)
Definition authcache_apply (uid : Z) (message : CFHTTPMessage) (status : Z)
    (responseRef : option CFHTTPMessage) (w : World) : Z * CFHTTPMessage * World :=
  let w := record (AuthcacheApply uid status) w in
  match auth_results w with
  | [] => (0, with_credentials message uid, w)
  | e :: rest =>
      (e, if e =? 0 then with_credentials message uid else message,
       with_auth_results w rest)
  end.

Definition authcache_valid (uid : Z) (message : CFHTTPMessage) (w : World) : World :=
  record (AuthcacheValid uid) w.

Definition CFHTTPMessageCreateRequest (method : string) (url : CFURL)
    (w : World) : option CFHTTPMessage :=
  if message_create_fails (plan (config w)) then None
  else Some {| requestMethod := method; requestURL := Some url;
               messageBody := None; headerFields := ∅; statusCode := 0;
               credentials := None |}.

Definition CFHTTPMessageSetBody (m : CFHTTPMessage) (bodyData : list ascii)
  : CFHTTPMessage :=
  {| requestMethod := requestMethod m; requestURL := requestURL m;
     messageBody := Some bodyData; headerFields := headerFields m;
     statusCode := statusCode m; credentials := credentials m |}.

(** The locals of [send_transaction] that live across its loop. *)
Record locals : Type := {
  l_error : Z;
  l_message : option CFHTTPMessage;
  l_responseRef : option CFHTTPMessage;
  l_statusCode : Z;
  l_responseBuffer : option (list ascii);
  l_responseBufferLength : Z;
  l_retryTransaction : bool;
  l_world : World
}.

Section Loop.
Context {codes : SecureTransport}.
Variables (uid : Z) (url : CFURL) (requestMethod : string)
  (bodyData : option (list ascii)) (headerCount : Z)
  (headers : list (string * CFString)) (auto_redirect : bool).

(** One pass through the body of the [do ... while] loop: the locals
    afterwards, and whether the loop goes round again. *)
Definition send_transaction_body (l : locals) : bool * locals :=
  let w := l_world l in
  (* create a CFHTTP message object *)
  match CFHTTPMessageCreateRequest requestMethod url w with
  | None =>
      (false,
       {| l_error := EIO; l_message := None; l_responseRef := l_responseRef l;
          l_statusCode := l_statusCode l;
          l_responseBuffer := l_responseBuffer l;
          l_responseBufferLength := l_responseBufferLength l;
          l_retryTransaction := l_retryTransaction l; l_world := w |})
  | Some message =>
      (* set the message body (if any) *)
      let message :=
        match bodyData with
        | Some b => CFHTTPMessageSetBody message b
        | None => message
        end in
      (* change the User-Agent header *)
      let message :=
        CFHTTPMessageSetHeaderFieldValue message "User-Agent"
          (userAgentHeaderValue (config w)) in
      (* add the X-Source-Id header if needed *)
      let message :=
        match X_Source_Id_HeaderValue (config w) with
        | Some v => CFHTTPMessageSetHeaderFieldValue message "X-Source-Id" v
        | None => message
        end in
      (* add other HTTP headers (if any) *)
      let message :=
        foldl (fun m h => CFHTTPMessageSetHeaderFieldValue m h.1 h.2) message
          (take (Z.to_nat headerCount) headers) in
      (* apply credentials (if any) *)
      let '(error, message, w) :=
        authcache_apply uid message (l_statusCode l) (l_responseRef l) w in
      if negb (error =? 0) then
        (false,
         {| l_error := error; l_message := Some message;
            l_responseRef := l_responseRef l; l_statusCode := l_statusCode l;
            l_responseBuffer := l_responseBuffer l;
            l_responseBufferLength := l_responseBufferLength l;
            l_retryTransaction := l_retryTransaction l; l_world := w |})
      else
        (* now that everything's ready to send, send it *)
        match stream_transaction message auto_redirect (l_retryTransaction l) w with
        | (Failure error, retryTransaction, w) =>
            if error =? EAGAIN then
              (true,
               {| l_error := error; l_message := Some message;
                  l_responseRef := None; l_statusCode := 0;
                  l_responseBuffer := None; l_responseBufferLength := 0;
                  l_retryTransaction := retryTransaction; l_world := w |})
            else
              (false,
               {| l_error := error; l_message := Some message;
                  l_responseRef := None; l_statusCode := l_statusCode l;
                  l_responseBuffer := None; l_responseBufferLength := 0;
                  l_retryTransaction := retryTransaction; l_world := w |})
        | (Success (buffer, count, responseRef), retryTransaction, w) =>
            (* get the status code *)
            let status := CFHTTPMessageGetResponseStatusCode responseRef in
            ((status =? 401) || (status =? 407),
             {| l_error := 0; l_message := Some message;
                l_responseRef := Some responseRef; l_statusCode := status;
                l_responseBuffer := Some buffer; l_responseBufferLength := count;
                l_retryTransaction := retryTransaction; l_world := w |})
        end
  end.

End Loop.

(** *** Every transaction takes a stream from the script *)

Section Consumption.
Context {codes : SecureTransport}.

Lemma HandleSSLErrors_incoming s w :
  incoming (HandleSSLErrors s w).2 = incoming w.
Proof.
  unfold HandleSSLErrors, ConfirmCertificate.
  repeat case_match; simplify_eq/=; reflexivity.
Qed.

Lemma stream_error_result_incoming retry e w :
  incoming (stream_error_result retry e w).2 = incoming w.
Proof. unfold stream_error_result. by case_match. Qed.

Lemma open_stream_for_transaction_incoming request fd redirect retry w o retry' w' :
  open_stream_for_transaction request fd redirect retry w = (o, retry', w') ->
  incoming w' = drop 1 (incoming w)
  /\ (incoming w = [] -> o = Failure EIO).
Proof.
  unfold open_stream_for_transaction, CFReadStreamCreate, get_ReadStreamRec.
  intros H.
  repeat (case_match; simplify_eq/=); try done.
  all: repeat match goal with
    | H : HandleSSLErrors ?s ?w = (_, ?w1) |- _ =>
        let E := fresh in
        pose proof (HandleSSLErrors_incoming s w) as E; rewrite H in E; simpl in E;
        clear H
    | H : stream_error_result ?r ?e ?w = (_, _, ?w1) |- _ =>
        let E := fresh in
        pose proof (stream_error_result_incoming r e w) as E; rewrite H in E;
        simpl in E; clear H
    end; simpl in *; rewrite ?drop_0; (split; [congruence | done]).
Qed.

Lemma stream_transaction_incoming request redirect retry w o retry' w' :
  stream_transaction request redirect retry w = (o, retry', w') ->
  returned o = 0 \/ returned o = EAGAIN ->
  (length (incoming w') < length (incoming w))%nat.
Proof.
  unfold stream_transaction. intros H Hret.
  case_match; [by simplify_eq/=; destruct Hret|].
  destruct (open_stream_for_transaction _ _ _ _ _) as [[op retry1] w1] eqn:Hopen.
  apply open_stream_for_transaction_incoming in Hopen as [Hdrop Hempty].
  assert (Hlen : incoming w <> [] ->
                 (length (incoming w1) < length (incoming w))%nat).
  { rewrite Hdrop. destruct (incoming w); [done|]. simpl. rewrite drop_0. lia. }
  destruct (incoming w) as [|s0 rest] eqn:Hin.
  { rewrite Hempty in H by done. simplify_eq/=. by destruct Hret. }
  specialize (Hlen ltac:(done)). clear Hempty Hdrop.
  destruct op as [[slot s]|r]; [|by simplify_eq/=].
  repeat (case_match; simplify_eq/=); try done.
  all: repeat match goal with
    | H : HandleSSLErrors ?s ?w = (_, ?w1) |- _ =>
        let E := fresh in
        pose proof (HandleSSLErrors_incoming s w) as E; rewrite H in E; simpl in E;
        clear H
    | H : stream_error_result ?r ?e ?w = (_, _, ?w1) |- _ =>
        let E := fresh in
        pose proof (stream_error_result_incoming r e w) as E; rewrite H in E;
        simpl in E; clear H
    end; simpl in *; try congruence; try lia.
Qed.

End Consumption.

Section Send.
Context {codes : SecureTransport}.

Lemma send_transaction_body_incoming uid url method bodyData headerCount headers
    auto_redirect l l' :
  send_transaction_body uid url method bodyData headerCount headers auto_redirect l
    = (true, l') ->
  (length (incoming (l_world l')) < length (incoming (l_world l)))%nat.
Proof.
  unfold send_transaction_body, authcache_apply. intros H.
  repeat (case_match; simplify_eq/=).
  all: match goal with
       | H : stream_transaction _ _ _ _ = _ |- _ =>
           apply stream_transaction_incoming in H; simpl in *; [done|auto]
       end.
  all: right; by apply Z.eqb_eq.
Qed.

(** The [do ... while ( error == EAGAIN || statusCode == 401 ||
    statusCode == 407 )] loop. *)
Equations? send_transaction_loop (uid : Z) (url : CFURL) (requestMethod : string)
    (bodyData : option (list ascii)) (headerCount : Z)
    (headers : list (string * CFString)) (auto_redirect : bool) (l : locals)
  : locals by wf (length (incoming (l_world l))) lt :=
send_transaction_loop uid url requestMethod bodyData headerCount headers
    auto_redirect l
    with inspect (send_transaction_body uid url requestMethod bodyData headerCount
                    headers auto_redirect l) := {
  | exist _ (true, l') Hbody =>
      send_transaction_loop uid url requestMethod bodyData headerCount headers
        auto_redirect l'
  | exist _ (false, l') _ => l' }.
Proof. by eapply send_transaction_body_incoming. Qed.

(** What is returned with [*buffer], [*count] and [*response], and the world.
    A caller that passes NULL for an output has it released instead. *)
Definition send_transaction (uid : Z) (url : CFURL) (requestMethod : string)
    (bodyData : option (list ascii)) (headerCount : Z)
    (headers : list (string * CFString)) (auto_redirect : bool) (w : World)
  : Z * option (list ascii) * Z * option CFHTTPMessage * World :=
  let l :=
    send_transaction_loop uid url requestMethod bodyData headerCount headers
      auto_redirect
      {| l_error := 0; l_message := None; l_responseRef := None;
         l_statusCode := 0; l_responseBuffer := None;
         l_responseBufferLength := 0; l_retryTransaction := true;
         l_world := w |} in
  let w := l_world l in
  let '(error, responseBuffer, w) :=
    if l_error l =? 0 then
      let error := translate_status_to_error (l_statusCode l) in
      if error =? 0 then
        (error, l_responseBuffer l,
         match l_message l with
         | Some message => authcache_valid uid message w
         | None => w
         end)
      else (error, None, w)
    else (l_error l, l_responseBuffer l, w) in
  (error, responseBuffer, l_responseBufferLength l, l_responseRef l, w).

End Send.

(** ** The URL builder *)

(** The characters of a C string up to its NUL. *)
Fixpoint c_chars (bytes : cstring) : list ascii :=
  match bytes with
  | [] => []
  | c :: rest => if ceq c NUL then [] else c :: c_chars rest
  end.

(** [strncat (s1, s2, n)]: at most [n] characters of [s2] after those of [s1]. *)
Definition strncat (s1 s2 : cstring) (n : Z) : cstring :=
  c_chars s1 ++ c_chars (take (Z.to_nat n) s2).

(** The node cache and the CoreFoundation calls behind the URL builder.
    None of them is part of this file; the model takes them as they come.
    A result of [None] is NULL. *)
Class URLServices : Type := {
  (* the error, and the path from the root to the node *)
  nodecache_get_path_from_node : node_entry -> Z * cstring;
  (* fails on bytes that are not legal UTF-8 *)
  CFStringCreateWithCString : cstring -> option CFString;
  (* the string, the characters to leave unescaped, the legal characters to
     escape nevertheless *)
  CFURLCreateStringByAddingPercentEscapes :
    CFString -> option CFString -> option CFString -> option CFString;
  (* the string and the base URL *)
  CFURLCreateWithString : CFString -> CFURL -> option CFURL;
  CFURLCopyAbsoluteURL : CFURL -> option CFURL
}.

Section URLBuilder.
Context {services : URLServices}.

Definition create_cfurl_from_node (node : node_entry) (name : option cstring)
    (name_length : Z) (w : World) : option CFURL :=
  (* get the UTF-8 path from the root to the node *)
  let '(error, node_path) := nodecache_get_path_from_node node in
  if negb (error =? 0) then None
  else
    (* append the name (if any) *)
    let node_path :=
      match name with
      | Some name =>
          if negb (name_length =? 0) then strncat node_path name name_length
          else node_path
      | None => node_path
      end in
    (* is there any relative path? *)
    if negb (ceq (deref node_path) NUL) then
      (* convert the relative path to a CFString *)
      match CFStringCreateWithCString (c_chars node_path) with
      | None => None
      | Some stringRef =>
          (* percent escape what CoreFoundation takes for illegal in a URL,
             and ':', ';' and '?' *)
          match CFURLCreateStringByAddingPercentEscapes stringRef None
                  (Some (CFSTR ":;?")) with
          | None => None
          | Some escapedPathRef =>
              (* create the relative URL *)
              match CFURLCreateWithString escapedPathRef (gBaseURL (config w)) with
              | None => None
              | Some tempUrlRef =>
                  (* and then make an absolute copy of it *)
                  CFURLCopyAbsoluteURL tempUrlRef
              end
          end
      end
    else
      (* no relative path -- use the base URL *)
      Some (gBaseURL (config w)).

End URLBuilder.

(** ** UNLOCK *)

Definition with_locktoken (node : node_entry) (token : option cstring) (uid : Z)
  : node_entry :=
  {| fileid := fileid node; file_fd := file_fd node;
     file_status := file_status node;
     file_locktoken := token; file_locktoken_uid := uid |}.

(** [CFStringCreateWithFormat (..., CFSTR("<%s>"), node->file_locktoken)] *)
Definition format_locktoken (token : option cstring) (w : World) : option CFString :=
  if string_create_fails (plan (config w)) then None
  else
    Some {| characters :=
              "<"%char :: c_chars (default (cstr "(null)") token) ++ [">"%char];
            hasCStringPtr := false |}.

Section Unlock.
Context {codes : SecureTransport} {services : URLServices}.

(** The error, the node and the world when [network_unlock] returns. *)
Definition network_unlock (node : node_entry) (w : World) : Z * node_entry * World :=
  let '(error, w) :=
    (* create a CFURL to the node *)
    match create_cfurl_from_node node None 0 w with
    | None => (EIO, w)
    | Some urlRef =>
        match format_locktoken (file_locktoken node) w with
        | None => (EIO, w)
        | Some lockTokenRef =>
            let headers :=
              [("Accept"%string, CFSTR "*/*"); ("Lock-Token"%string, lockTokenRef)] in
            (* send under the credentials of the user that obtained the LOCK *)
            let '(error, _, _, _, w) :=
              send_transaction (file_locktoken_uid node) urlRef "UNLOCK" None 2
                headers false w in
            (error, w)
        end
    end in
  (* free the token *)
  (error, with_locktoken node None 0, w).

End Unlock.

(** * mount.tproj/getmntopts.c: the mount options *)

Definition ENOMEM : Z := 12.

(** [struct mntopt], of which [getmntopts] reads four members.  The table a
    caller passes ends at the entry whose [m_option] is NULL; the list holds
    the entries before that one. *)
Record mntopt : Type := {
  m_option : cstring;
  m_inverse : Z;
  m_flag : Z;
  m_altloc : Z
}.

(** What [getmntopts] writes to the system log, with the bytes that [%s]
    prints. *)
Inductive syslog_line : Type :=
| option_not_supported (opt : cstring)    (* "-o %s: option not supported" *)
| option_ignored (opt : cstring).         (* "-o %s: option ignored" *)

(** [tolower] in the C locale. *)
Definition tolower (c : ascii) : ascii := to_lower c.

(** [strcasecmp]: the difference of the first two characters that differ
    once both are put in lower case, 0 when the strings end together. *)
Fixpoint strcasecmp (s1 s2 : cstring) : Z :=
  let c1 := deref s1 in
  let c2 := deref s2 in
  if uchar (tolower c1) =? uchar (tolower c2) then
    if ceq c1 NUL then 0
    else
      match s1 with
      | _ :: rest1 => strcasecmp rest1 (drop 1 s2)
      | [] => 0
      end
  else uchar (tolower c1) - uchar (tolower c2).

(** [strchr (s, c)] for a [c] other than NUL: the pointer to the first [c],
    NULL when the string ends before one. *)
Fixpoint strchr (s : cstring) (c : ascii) : option cstring :=
  match s with
  | [] => None
  | x :: rest =>
      if ceq x c then Some s
      else if ceq x NUL then None
      else strchr rest c
  end.

(** The two scans of [strtok]: over the delimiters before a token, and over
    the token to the delimiter or NUL that ends it. *)
Fixpoint skip_delimiters (delim : cstring) (s : cstring) : cstring :=
  match s with
  | [] => s
  | c :: rest =>
      if negb (ceq c NUL) && bool_decide (c ∈ delim) then skip_delimiters delim rest
      else s
  end.

Fixpoint token_end (delim : cstring) (s : cstring) : cstring :=
  match s with
  | [] => s
  | c :: rest =>
      if ceq c NUL || bool_decide (c ∈ delim) then s
      else token_end delim rest
  end.

(** [strtok]: the next token, cut out of the string by a NUL written over the
    delimiter that ends it, and the pointer kept for the next call (which is
    made with NULL as the string); [None] is the NULL returned when no token
    is left. *)
Definition strtok (s : cstring) (delim : cstring) : option (cstring * cstring) :=
  let start := skip_delimiters delim s in
  if ceq (deref start) NUL then None
  else
    let finish := token_end delim start in
    let token := take (Z.to_nat (ptrdiff finish start)) start in
    Some (token, if ceq (deref finish) NUL then finish else drop 1 finish).

(** The scan of the option table: the first entry whose name is [opt]
    whatever the case of the letters. *)
Fixpoint scan_table (m : list mntopt) (opt : cstring) : option mntopt :=
  match m with
  | [] => None
  | entry :: rest =>
      if strcasecmp opt (m_option entry) =? 0 then Some entry
      else scan_table rest opt
  end.

(** How one pass through the body of the [for] loop over the tokens ends. *)
Inductive option_result : Type :=
| option_done (flag altflag : Z) (lines : list syslog_line)
| option_failed (result : Z) (lines : list syslog_line).

(** The body of the loop, for the token [opt]; [flag] and [altflag] are the
    two integers the caller's pointers point at.  When the option is not
    recognised and [getmnt_silent] is zero, [optbuf] is freed before the
    line is logged, and [opt] points into it: what [%s] prints then is not
    the option but [freed], the bytes that the freed memory holds at [opt]
    when [syslog] reads them. *)
Definition getmntopts_option (freed : cstring) (getmnt_silent : Z)
    (m0 : list mntopt) (opt : cstring) (flag altflag : Z) : option_result :=
  (* check for "no" prefix *)
  let '(negative, opt) :=
    if ceq (deref opt) "n" && ceq (deref (drop 1 opt)) "o"
    then (1, drop 2 opt) else (0, opt) in
  (* an assignment is handled elsewhere: cut it off *)
  let opt :=
    match strchr opt "=" with
    | Some p => take (Z.to_nat (ptrdiff p opt)) opt
    | None => opt
    end in
  (* scan option table *)
  match scan_table m0 opt with
  | Some m =>
      (* save flag *)
      let update (thisflag : Z) : Z :=
        if negative =? m_inverse m then Z.lor thisflag (m_flag m)
        else Z.land thisflag (Z.lnot (m_flag m)) in
      if negb (m_altloc m =? 0) then option_done flag (update altflag) []
      else option_done (update flag) altflag []
  | None =>
      if getmnt_silent =? 0 then
        (* free(optbuf); syslog(..., opt); return (EINVAL); *)
        option_failed EINVAL [option_not_supported freed]
      else option_done flag altflag [option_ignored opt]
  end.

Lemma skip_delimiters_suffix delim s : skip_delimiters delim s `suffix_of` s.
Proof.
  induction s as [|c rest IH]; simpl; [done|].
  destruct (negb (ceq c NUL) && bool_decide (c ∈ delim)); [|done].
  by apply suffix_cons_r.
Qed.

Lemma token_end_suffix delim s : token_end delim s `suffix_of` s.
Proof.
  induction s as [|c rest IH]; simpl; [done|].
  destruct (ceq c NUL || bool_decide (c ∈ delim)); [done|].
  by apply suffix_cons_r.
Qed.

Lemma strtok_shorter s delim token rest :
  strtok s delim = Some (token, rest) -> (length rest < length s)%nat.
Proof.
  unfold strtok.
  pose proof (skip_delimiters_suffix delim s) as H1.
  set (start := skip_delimiters delim s) in *.
  destruct (ceq (deref start) NUL) eqn:Hstart; [done|].
  pose proof (token_end_suffix delim start) as H2.
  set (finish := token_end delim start) in *.
  intros [= _ <-].
  apply suffix_length in H1.
  destruct (ceq (deref finish) NUL) eqn:Hfinish.
  - assert (length finish < length start)%nat; [|lia].
    apply suffix_deref_lt; [done|]. intros Heq. by rewrite Heq, Hstart in Hfinish.
  - apply suffix_length in H2. destruct finish; [done|].
    simpl in *. rewrite drop_0. lia.
Qed.

(** The loop [for (opt = optbuf; (opt = strtok(opt, ",")) != NULL; opt = NULL)];
    [opt] is where [strtok] goes on. *)
Equations? getmntopts_loop (freed : cstring) (getmnt_silent : Z)
    (m0 : list mntopt) (opt : cstring) (flag altflag : Z)
    (lines : list syslog_line)
  : Z * Z * Z * list syslog_line by wf (length opt) lt :=
getmntopts_loop freed getmnt_silent m0 opt flag altflag lines
    with inspect (strtok opt (cstr ",")) := {
  | exist _ None _ => (0, flag, altflag, lines)
  | exist _ (Some (token, rest)) Htoken
      with getmntopts_option freed getmnt_silent m0 token flag altflag := {
    | option_failed result more => (result, flag, altflag, lines ++ more)
    | option_done flag' altflag' more =>
        getmntopts_loop freed getmnt_silent m0 rest flag' altflag'
          (lines ++ more) } }.
Proof. by eapply strtok_shorter. Qed.

(** The result, [*flagp], [*altflagp] and the lines logged.  [flagp] and
    [altflagp] are taken to point at two different integers; [freed] is
    what the memory of [optbuf] holds at [opt] once it has been freed (see
    [getmntopts_option]). *)
Definition getmntopts (malloc_fails : bool) (freed : cstring) (getmnt_silent : Z)
    (options : cstring) (m0 : list mntopt) (flag altflag : Z)
  : Z * Z * Z * list syslog_line :=
  (* copy option string, since it is about to be torn asunder *)
  if malloc_fails then (ENOMEM, flag, altflag, [])
  else
    let optbuf := c_chars options in
    getmntopts_loop freed getmnt_silent m0 optbuf flag altflag [].

(** * The operations on the server

    The functions [network_...] that the file system calls.  Each builds a
    URL and hands a request to [send_transaction]. *)

Definition EACCES : Z := 13.
Definition ENODEV : Z := 19.
Definition ENOTEMPTY : Z := 66.

(** [<sys/mount.h>] and [<sys/stat.h>] *)
Definition MNT_RDONLY : Z := 1.
Definition S_IFMT : Z := 61440.     (* 0170000 *)
Definition S_IFDIR : Z := 16384.    (* 0040000 *)
Definition S_ISDIR (m : Z) : bool := Z.land m S_IFMT =? S_IFDIR.

(** The members of [struct stat] that this file reads or writes. *)
Record stat : Type := {
  st_mode : Z;
  st_ino : Z
}.

(** [node->node_type], which only [network_rename] reads: it is passed
    beside the node. *)
Inductive webdav_filetype : Type :=
| WEBDAV_FILE_TYPE
| WEBDAV_DIR_TYPE.

(** What the operations call outside this file: the XML parsers of
    [webdav_parse.c], CoreFoundation, and a global of the daemon.  A parser
    returns its error and what it has stored through its last argument. *)
Class Outside : Type := {
  (* the buffer, the count and the [struct stat] as it was *)
  parse_stat : list ascii -> Z -> stat -> Z * stat;
  parse_file_count : list ascii -> Z -> Z * Z;
  parse_lock : list ascii -> Z -> Z * option cstring;
  (* the date of a header as a [time_t], -1 if it cannot be parsed *)
  DateStringToTime : CFString -> Z;
  CFURLGetString : CFURL -> option CFString;
  CFDataCreateWithBytesNoCopy : list ascii -> option (list ascii);
  gtimeout_string : cstring
}.

(** The XML of the request bodies. *)
Definition xml_declaration : list ascii :=
  cstr "<?xml version=" ++ [DQUOTE] ++ cstr "1.0" ++ [DQUOTE]
  ++ cstr " encoding=" ++ [DQUOTE] ++ cstr "utf-8" ++ [DQUOTE] ++ cstr "?>" ++ [LF].

Definition xml_DAV_element (name : string) : list ascii :=
  cstr "<D:" ++ cstr name ++ cstr " xmlns:D=" ++ [DQUOTE] ++ cstr "DAV:"
  ++ [DQUOTE] ++ cstr ">" ++ [LF].

Definition xml_lines (lines : list string) : list ascii :=
  concat ((fun line => cstr line ++ [LF]) <$> lines).

(** The body of a PROPFIND for the properties [props]. *)
Definition propfind_xml (props : list string) : list ascii :=
  xml_declaration ++ xml_DAV_element "propfind"
  ++ xml_lines (("<D:prop>"%string :: props)
                ++ ["</D:prop>"%string; "</D:propfind>"%string]).

Definition lockinfo_xml : list ascii :=
  xml_declaration ++ xml_DAV_element "lockinfo"
  ++ xml_lines ["<D:lockscope><D:exclusive/></D:lockscope>";
                "<D:locktype><D:write/></D:locktype>";
                "<D:owner>";
                "<D:href>http://www.apple.com/webdav_fs/</D:href>";
                "</D:owner>";
                "</D:lockinfo>"]%string.

Definition Accept_all : string * CFString := ("Accept"%string, CFSTR "*/*").

(** [CFStringCreateWithFormat (..., CFSTR("(<%s>)"), node->file_locktoken)],
    the value of an If header. *)
Definition format_if_locktoken (token : option cstring) (w : World) : option CFString :=
  if string_create_fails (plan (config w)) then None
  else
    Some {| characters :=
              cstr "(<" ++ c_chars (default (cstr "(null)") token) ++ cstr ">)";
            hasCStringPtr := false |}.

(** [(long long)] of an integer expression on 64 bits. *)
Definition to_int64 (z : Z) : Z := (z + 2 ^ 63) mod 2 ^ 64 - 2 ^ 63.

Section Operations.
Context {codes : SecureTransport} {services : URLServices} {outside : Outside}.

(** The error, [*dav_level] and the world. *)
Definition network_getDAVLevel (uid : Z) (urlRef : CFURL) (w : World)
  : Z * Z * World :=
  let dav_level := 0 in
  (* send request to the server and get the response *)
  let '(error, _, _, response, w) :=
    send_transaction uid urlRef "OPTIONS" None 1 [Accept_all] true w in
  if error =? 0 then
    (* get the DAV level *)
    (error, match response with
            | Some response => ParseDAVLevel response
            | None => dav_level
            end, w)
  else (error, dav_level, w).

(** The error, [*statbuf] and the world. *)
Definition network_stat (uid : Z) (urlRef : CFURL) (statbuf : stat) (w : World)
  : Z * stat * World :=
  let xmlString :=
    propfind_xml ["<D:getlastmodified/>"; "<D:getcontentlength/>";
                  "<D:resourcetype/>"]%string in
  let headers :=
    [Accept_all; ("Content-Type"%string, CFSTR "text/xml");
     ("Depth"%string, CFSTR "0")] in
  (* create the message body with the xml *)
  match CFDataCreateWithBytesNoCopy xmlString with
  | None => (EIO, statbuf, w)
  | Some bodyData =>
      let '(error, responseBuffer, count, _, w) :=
        send_transaction uid urlRef "PROPFIND" (Some bodyData) 3 headers true w in
      if error =? 0 then
        (* parse the statbuf from the response buffer *)
        let '(error, statbuf) :=
          parse_stat (default [] responseBuffer) count statbuf in
        (error, statbuf, w)
      else (error, statbuf, w)
  end.

Definition network_dir_is_empty (uid : Z) (urlRef : CFURL) (w : World) : Z * World :=
  let xmlString := propfind_xml ["<D:resourcetype/>"]%string in
  let headers :=
    [Accept_all; ("Content-Type"%string, CFSTR "text/xml");
     ("Depth"%string, CFSTR "1")] in
  match CFDataCreateWithBytesNoCopy xmlString with
  | None => (EIO, w)
  | Some bodyData =>
      let '(error, responseBuffer, count, _, w) :=
        send_transaction uid urlRef "PROPFIND" (Some bodyData) 3 headers true w in
      if error =? 0 then
        (* parse responseBuffer to get the number of entries *)
        let '(error, num_entries) :=
          parse_file_count (default [] responseBuffer) count in
        if error =? 0 then
          (* an empty directory has just one entry, for itself *)
          if 1 <? num_entries then (ENOTEMPTY, w) else (error, w)
        else (error, w)
      else (error, w)
  end.

Definition network_lookup (uid : Z) (node : node_entry) (name : option cstring)
    (name_length : Z) (statbuf : stat) (w : World) : Z * stat * World :=
  (* create a CFURL to the node plus name *)
  match create_cfurl_from_node node name name_length w with
  | None => (EIO, statbuf, w)
  | Some urlRef => network_stat uid urlRef statbuf w
  end.

Definition network_getattr (uid : Z) (node : node_entry) (statbuf : stat) (w : World)
  : Z * stat * World :=
  match create_cfurl_from_node node None 0 w with
  | None => (EIO, statbuf, w)
  | Some urlRef =>
      let '(error, statbuf, w) := network_stat uid urlRef statbuf w in
      if error =? 0 then
        (* network_stat gets every field but st_ino *)
        (error, {| st_mode := st_mode statbuf; st_ino := fileid node |}, w)
      else (error, statbuf, w)
  end.

(** The error, [*server_mount_flags] and the world; [statbuf] is the local
    of that name as the function finds it. *)
Definition network_mount (uid : Z) (server_mount_flags : Z) (statbuf : stat)
    (w : World) : Z * Z * World :=
  let urlRef := gBaseURL (config w) in
  let '(error, dav_level, w) := network_getDAVLevel uid urlRef w in
  if error =? 0 then
    (* pin it to 2 -- the highest we care about *)
    let dav_level := if 2 <? dav_level then 2 else dav_level in
    let '(error, server_mount_flags) :=
      if dav_level =? 1 then (error, Z.lor server_mount_flags MNT_RDONLY)
      else if dav_level =? 2 then (error, server_mount_flags)
      else (ENODEV, server_mount_flags) in
    if error =? 0 then
      let '(error, statbuf, w) := network_stat uid urlRef statbuf w in
      if negb (error =? 0) then
        if negb (error =? EACCES) then (ENODEV, server_mount_flags, w)
        else (ECANCELED, server_mount_flags, w)
      else if negb (S_ISDIR (st_mode statbuf)) then
        (* the URL was to a file, not a collection *)
        (ENODEV, server_mount_flags, w)
      else (error, server_mount_flags, w)
    else (error, server_mount_flags, w)
  else if negb (error =? EACCES) then (ENODEV, server_mount_flags, w)
  else (ECANCELED, server_mount_flags, w).

(** The error, [*remove_date] and the world.  The array of headers has two
    entries; the second is left out here when [headerCount] is 1. *)
Definition network_delete (uid : Z) (urlRef : CFURL) (node : node_entry) (w : World)
  : Z * Z * World :=
  let remove_date := -1 in
  let lockTokenRef :=
    match file_locktoken node with
    | Some _ => format_if_locktoken (file_locktoken node) w
    | None => None
    end in
  let '(headerCount, headers) :=
    match lockTokenRef with
    | Some lockTokenRef => (2, [Accept_all; ("If"%string, lockTokenRef)])
    | None => (1, [Accept_all])
    end in
  (* send request to the server and get the response *)
  let '(error, _, _, response, w) :=
    send_transaction uid urlRef "DELETE" None headerCount headers false w in
  if error =? 0 then
    (error,
     match response ≫= (fun r => CFHTTPMessageCopyHeaderFieldValue r "Date") with
     | Some dateHeaderRef => DateStringToTime dateHeaderRef
     | None => remove_date
     end, w)
  else (error, remove_date, w).

(** The error, [*remove_date] and the world.  [remove_date] is what the
    caller's variable holds at the call: only [network_delete] writes
    it. *)
Definition network_remove (uid : Z) (node : node_entry) (remove_date : Z)
    (w : World) : Z * Z * World :=
  match create_cfurl_from_node node None 0 w with
  | None => (EIO, remove_date, w)
  | Some urlRef =>
      (* let network_delete do the rest of the work *)
      network_delete uid urlRef node w
  end.

(** The error, [*remove_date] and the world; [remove_date] as for
    [network_remove]. *)
Definition network_rmdir (uid : Z) (node : node_entry) (remove_date : Z)
    (w : World) : Z * Z * World :=
  match create_cfurl_from_node node None 0 w with
  | None => (EIO, remove_date, w)
  | Some urlRef =>
      (* make sure the directory is empty *)
      let '(error, w) := network_dir_is_empty uid urlRef w in
      if error =? 0 then network_delete uid urlRef node w
      else (error, remove_date, w)
  end.

(** [CFEqual] of two URLs. *)
Definition CFEqual (a b : CFURL) : bool :=
  bool_decide (urlString a = urlString b /\ baseURL a = baseURL b).

(** The error, [*rename_date] and the world. *)
Definition network_rename (uid : Z) (from_node : node_entry)
    (to_node : option (node_entry * webdav_filetype)) (to_dir_node : node_entry)
    (to_name : option cstring) (to_name_length : Z) (w : World) : Z * Z * World :=
  let rename_date := -1 in
  (* create a CFURL to the from_node *)
  match create_cfurl_from_node from_node None 0 w with
  | None => (EIO, rename_date, w)
  | Some urlRef =>
      (* create the URL for the destination; [Some (inl error)] leaves *)
      let destination : Z * World + CFURL * World :=
        match to_node with
        | Some (to_node, to_node_type) =>
            match create_cfurl_from_node to_node None 0 w with
            | None => inl (EIO, w)
            | Some destinationUrlRef =>
                (* source and destination equal: nothing to do *)
                if CFEqual urlRef destinationUrlRef then inl (0, w)
                else
                  match to_node_type with
                  | WEBDAV_DIR_TYPE =>
                      (* the directory must be empty to be moved over *)
                      let '(error, w) :=
                        network_dir_is_empty uid destinationUrlRef w in
                      if negb (error =? 0) then inl (error, w)
                      else inr (destinationUrlRef, w)
                  | WEBDAV_FILE_TYPE => inr (destinationUrlRef, w)
                  end
            end
        | None =>
            match create_cfurl_from_node to_dir_node to_name to_name_length w with
            | None => inl (EIO, w)
            | Some destinationUrlRef =>
                if CFEqual urlRef destinationUrlRef then inl (0, w)
                else inr (destinationUrlRef, w)
            end
        end in
      match destination with
      | inl (error, w) => (error, rename_date, w)
      | inr (destinationUrlRef, w) =>
          match CFURLGetString destinationUrlRef with
          | None => (EIO, rename_date, w)
          | Some destinationRef =>
              let headers := [Accept_all; ("Destination"%string, destinationRef)] in
              let '(error, _, _, response, w) :=
                send_transaction uid urlRef "MOVE" None 2 headers false w in
              if error =? 0 then
                (error,
                 match response ≫=
                         (fun r => CFHTTPMessageCopyHeaderFieldValue r "Date") with
                 | Some dateHeaderRef => DateStringToTime dateHeaderRef
                 | None => rename_date
                 end, w)
              else (error, rename_date, w)
          end
      end
  end.

(** The error, the node and the world. *)
Definition network_lock (uid : Z) (refresh : bool) (node : node_entry) (w : World)
  : Z * node_entry * World :=
  match create_cfurl_from_node node None 0 w with
  | None => (EIO, node, w)
  | Some urlRef =>
      (* "Second-%s" of gtimeout_string *)
      if string_create_fails (plan (config w)) then (EIO, node, w)
      else
        let timeoutSpecifierRef :=
          {| characters := cstr "Second-" ++ c_chars gtimeout_string;
             hasCStringPtr := false |} in
        let prepared : option (Z * option (list ascii) * Z * list (string * CFString)) :=
          if refresh then
            (* use the uid associated with the file_locktoken; no message body *)
            match format_if_locktoken (file_locktoken node) w with
            | None => None
            | Some lockTokenRef =>
                Some (file_locktoken_uid node, None, 5,
                      [Accept_all; ("Depth"%string, CFSTR "0");
                       ("Timeout"%string, timeoutSpecifierRef);
                       ("Content-Type"%string, CFSTR "text/xml");
                       ("If"%string, lockTokenRef)])
            end
          else
            match CFDataCreateWithBytesNoCopy lockinfo_xml with
            | None => None
            | Some bodyData =>
                Some (uid, Some bodyData, 4,
                      [Accept_all; ("Depth"%string, CFSTR "0");
                       ("Timeout"%string, timeoutSpecifierRef);
                       ("Content-Type"%string,
                        {| characters :=
                             cstr "text/xml; charset=" ++ [DQUOTE] ++ cstr "utf-8"
                             ++ [DQUOTE];
                           hasCStringPtr := true |})])
            end in
        match prepared with
        | None => (EIO, node, w)
        | Some (uid, bodyData, headerCount, headers) =>
            let '(error, responseBuffer, count, _, w) :=
              send_transaction uid urlRef "LOCK" bodyData headerCount headers
                false w in
            if error =? 0 then
              (* parse responseBuffer to get the lock token *)
              let '(error, locktoken) :=
                parse_lock (default [] responseBuffer) count in
              if error =? 0 then
                (error,
                 with_locktoken node locktoken
                   (* file_locktoken_uid is already set if refreshing *)
                   (if refresh then file_locktoken_uid node else uid),
                 w)
              else (error, node, w)
            else (error, node, w)
        end
  end.

(** The error, [*buffer], [*actual_count] and the world. *)
Definition network_read (uid : Z) (node : node_entry) (offset count : Z) (w : World)
  : Z * option (list ascii) * Z * World :=
  match create_cfurl_from_node node None 0 w with
  | None => (EIO, None, 0, w)
  | Some urlRef =>
      (* "bytes=%qd-%qd" of offset and offset + count - 1 *)
      if string_create_fails (plan (config w)) then (EIO, None, 0, w)
      else
        let byteRangesSpecifierRef :=
          {| characters :=
               cstr "bytes=" ++ cstr (pretty offset) ++ cstr "-"
               ++ cstr (pretty (to_int64 (offset + count - 1)));
             hasCStringPtr := false |} in
        let headers := [Accept_all; ("Range"%string, byteRangesSpecifierRef)] in
        let '(error, responseBuffer, responseCount, _, w) :=
          send_transaction uid urlRef "GET" None 2 headers true w in
        if error =? 0 then
          (* don't return more than we asked for; [(size_t)responseCount]
             is [responseCount], a count of bytes *)
          let responseCount :=
            if count <? responseCount then count else responseCount in
          (error, responseBuffer, responseCount, w)
        else (error, None, 0, w)
  end.

End Operations.

(** ** The rest of a download *)

(** How the loop of [network_finish_download] is left: by [break], or to
    one of the labels [terminated], [write] and [CFReadStreamRead]. *)
Inductive download_end : Type :=
| DownloadComplete
| DownloadTerminated
| DownloadWriteFailed
| DownloadReadFailed.

(** The loop of [network_finish_download].  [terminated] is what
    [node->file_status & WEBDAV_DOWNLOAD_TERMINATED] reads at each pass: the
    flag is set by another thread; it reads as not set once the list has run
    out. *)
Equations? finish_download_loop (file_fd : Z) (terminated : list bool)
    (s : CFReadStream) (w : World)
  : download_end * CFReadStream * World by wf (stream_weight s) lt :=
finish_download_loop file_fd terminated s w with inspect (hd false terminated) := {
  | exist _ true _ =>
      (* call CFReadStreamRead one more time, with a small read *)
      let r := CFReadStreamRead s 1 in
      (if r.1.1 =? 0 then DownloadComplete else DownloadTerminated, r.2, w)
  | exist _ false _ with inspect (CFReadStreamRead s BODY_BUFFER_SIZE) := {
    | exist _ (bytesRead, bytes, s') Hread with inspect (0 <? bytesRead) := {
      | exist _ true Hpos =>
          let written := write file_fd bytes bytesRead w in
          if written.1 =? bytesRead
          then finish_download_loop file_fd (tl terminated) s' written.2
          else (DownloadWriteFailed, s', written.2)
      | exist _ false _ =>
          if bytesRead =? 0
          then (* there are no more bytes to read *) (DownloadComplete, s', w)
          else (DownloadReadFailed, s', w) } } }.
Proof. eapply CFReadStreamRead_weight; [done|]. by apply Z.ltb_lt. Qed.

(** The result and the world.  The slot is handed over with its stream:
    without one the code passes NULL to CoreFoundation, and there is no
    result. *)
Definition network_finish_download (node : node_entry) (terminated : list bool)
    (readStreamRecPtr : nat) (w : World) : option (Z * World) :=
  readStreamRef ← slot_stream w readStreamRecPtr;
  (* malloc a buffer *)
  if malloc_fails (plan (config w)) then
    Some (EIO, close_and_release readStreamRecPtr w)
  else
    let '(ending, readStreamRef, w) :=
      finish_download_loop (file_fd node) terminated readStreamRef w in
    let w := set_slot_stream readStreamRecPtr (Some readStreamRef) w in
    match ending with
    | DownloadComplete =>
        let w :=
          if slot_connectionClose w readStreamRecPtr
          then set_slot_stream readStreamRecPtr None (close_stream w)
          else w in
        (* make this ReadStreamRec available again *)
        Some (0, release_ReadStreamRec readStreamRecPtr w)
    | _ =>
        (* close and release the read stream on errors *)
        Some (EIO, close_and_release readStreamRecPtr w)
    end.

(** * The terms of the properties *)

(** ** The lexers *)

(** RFC 2616: CTL is an octet 0 - 31 or DEL (127). *)
Definition is_CTL (c : ascii) : Prop := uchar c <= 31 \/ uchar c = 127.

(** RFC 2616: the separators. *)
Definition separators : list ascii :=
  cstr "()<>@,;:\" ++ [DQUOTE] ++ cstr "/[]?={} " ++ [HT].

Definition is_separator (c : ascii) : Prop := c ∈ separators.

(** A character that cannot be part of a token. *)
Definition ends_token (c : ascii) : Prop := is_CTL c \/ is_separator c.

(** A run of linear white space: SP and HT, and CR LF in front of SP or HT. *)
Inductive LWS_run : cstring -> Prop :=
| LWS_done : LWS_run []
| LWS_blank c rest : c = SP \/ c = HT -> LWS_run rest -> LWS_run (c :: rest)
| LWS_fold c rest :
    c = SP \/ c = HT -> LWS_run rest -> LWS_run (CR :: LF :: c :: rest).

(** The string goes on with linear white space. *)
Definition starts_with_LWS (bytes : cstring) : Prop :=
  match bytes with
  | c :: rest =>
      c = SP \/ c = HT
      \/ (c = CR /\ exists c2 rest3, rest = LF :: c2 :: rest3 /\ (c2 = SP \/ c2 = HT))
  | [] => False
  end.

(** ** The status table *)

(** The 4xx statuses that have a row of their own in the status table. *)
Definition listed_4xx : list Z := [401; 407; 402; 403; 404; 409; 410; 414; 423; 424].

(** ** The DAV header *)

(** The header as RFC 2518 section 9.1 writes it: elements separated by
    commas, each a token or a Coded-URL (or nothing), with linear white
    space around it. *)
Inductive element : Type :=
| Token (token : cstring)
| CodedURL (url : cstring).

Record item : Type := {
  lws_before : cstring;
  value : element;
  lws_after : cstring
}.

Definition element_ok (e : element) : Prop :=
  match e with
  | Token token => Forall (fun c => ~ ends_token c) token
  | CodedURL url => Forall (fun c => c <> ">"%char /\ c <> NUL) url
  end.

Definition item_ok (i : item) : Prop :=
  LWS_run (lws_before i) /\ element_ok (value i) /\ LWS_run (lws_after i).

Definition render_element (e : element) : cstring :=
  match e with
  | Token token => token
  | CodedURL url => "<"%char :: url ++ [">"%char]
  end.

Definition render_item (i : item) : cstring :=
  lws_before i ++ render_element (value i) ++ lws_after i.

Fixpoint render (items : list item) : cstring :=
  match items with
  | [] => []
  | i :: rest =>
      render_item i ++
      match rest with
      | [] => []
      | _ => ","%char :: render rest
      end
  end.

(** The level an element stands for: 1 and 2 for the tokens of that one
    character, nothing for any other token and for a Coded-URL. *)
Definition level_of (e : element) : Z :=
  match e with
  | Token [c] => if ceq c "1" then 1 else if ceq c "2" then 2 else 0
  | _ => 0
  end.

Definition highest_level (items : list item) : Z :=
  foldr (fun i level => Z.max (level_of (value i)) level) 0 items.

(** What follows an element in a rendered header: nothing, or a comma. *)
Definition is_tail (bytes : cstring) : Prop :=
  bytes = [] \/ exists more, bytes = ","%char :: more.

(** A response whose DAV header has the given bytes. *)
Definition dav_response (value : cstring) (direct : bool) : CFHTTPMessage :=
  options_response (Some {| characters := value; hasCStringPtr := direct |}).

(** The header "1, 2" as a list of elements. *)
Definition header_1_2 : list item :=
  [ {| lws_before := []; value := Token (cstr "1"); lws_after := [] |};
    {| lws_before := [SP]; value := Token (cstr "2"); lws_after := [] |} ].

(** A header of 4098 bytes: the token "2", and a Coded-URL of 4094 bytes. *)
Definition long_header : list item :=
  [ {| lws_before := []; value := Token (cstr "2"); lws_after := [] |};
    {| lws_before := []; value := CodedURL (replicate 4094 "x"%char);
       lws_after := [] |} ].

(** ** The scripted transport *)

(** Test fixtures: a plan in which nothing fails, a configuration, streams
    and worlds. *)
Definition no_failures : SysPlan := {|
  fchflags_fails := fun _ => false;
  ftruncate_fails := false;
  lseek_fails := fun _ => false;
  write_count := fun nbyte => nbyte;
  malloc_fails := false;
  realloc_fails := false;
  dictionary_create_fails := false;
  message_create_fails := false;
  string_create_fails := false;
  fd_stream_fails := false;
  enqueue_download_result := 0
|}.

Definition test_config : Config := {|
  first_read_len := 4096;
  gSuppressAllUI := false;
  gProxyDict := None;
  userAgentHeaderValue := CFSTR "WebDAVFS/1.2.7 (01278000) Darwin/7.0 (Power Macintosh)";
  X_Source_Id_HeaderValue := None;
  gBaseURL := {| urlString := cstr "http://h/a/"; baseURL := None |};
  plan := no_failures
|}.

Definition no_error : CFStreamError := {| domain := 0; error := 0 |}.

Definition scripted_stream (open_error : option CFStreamError)
    (evs : list ReadEvent) (knows_end : bool) (response : option CFHTTPMessage)
  : CFReadStream :=
  {| openError := open_error; events := evs; knowsEnd := knows_end;
     responseHeader := response; refusedProperties := [];
     streamRequest := None; streamedBody := None; properties := ∅;
     streamError := no_error |}.

(** A stream that has failed with [e]. *)
Definition failed_stream (e : CFStreamError) : CFReadStream :=
  with_streamError (scripted_stream None [] false None) e.

Definition response_with_status (code : Z) : CFHTTPMessage :=
  {| requestMethod := ""; requestURL := None; messageBody := None;
     headerFields := ∅; statusCode := code; credentials := None |}.

Definition free_slot (tag : string) : ReadStreamRec :=
  {| inUse := false; readStreamRef := None; uniqueValue := tag;
     connectionClose := false |}.

(** A mounted file system at rest: two free slots, the connection up, one
    cache file open on descriptor 3. *)
Definition test_world (dict : option (gmap string CFValue))
    (streams : list (option CFReadStream)) (answers : list bool) : World :=
  {| config := test_config; gSSLPropertiesDict := dict;
     gReadStreams := [free_slot "0"; free_slot "1"];
     connectionstate := WEBDAV_CONNECTION_UP;
     files := {[ 3 := {| data := cstr "stale"; position := 2; flags := 0 |} ]};
     incoming := streams; ui_answers := answers; auth_results := [];
     log := [] |}.

Definition test_node : node_entry :=
  {| fileid := 42; file_fd := 3; file_status := WEBDAV_DOWNLOAD_NEVER;
     file_locktoken := Some (cstr "opaquelocktoken:1");
     file_locktoken_uid := 501 |}.

(** ** The SSL trust negotiator *)

(** The fault classes of the negotiator, each with the entry of the property
    bag that remembers it. *)
Inductive fault_class : Type :=
| ProtocolFault   (* answered by falling back from TLS to SSL *)
| ExpiredFault    (* certificate expired or not yet valid *)
| ChainFault      (* bad certificate, invalid chain, host name mismatch *)
| RootFault.      (* unknown or missing root *)

Definition class_key (k : fault_class) : string :=
  match k with
  | ProtocolFault => kCFStreamSSLLevel
  | ExpiredFault => kCFStreamSSLAllowsExpiredCertificates
  | ChainFault => kCFStreamSSLValidatesCertificateChain
  | RootFault => kCFStreamSSLAllowsAnyRoot
  end.

Section Classes.
Context {codes : SecureTransport}.

Definition in_class (k : fault_class) (error : Z) : Prop :=
  match k with
  | ProtocolFault => fallback_might_work error = true
  | ExpiredFault => error = errSSLCertExpired \/ error = errSSLCertNotYetValid
  | ChainFault =>
      error = errSSLBadCert \/ error = errSSLXCertChainInvalid
      \/ error = errSSLHostNameMismatch
  | RootFault => error = errSSLUnknownRootCert \/ error = errSSLNoRootCert
  end.

(** The [case] labels of the [switch] in [HandleSSLErrors]. *)
Definition certificate_codes : list Z :=
  [errSSLCertExpired; errSSLCertNotYetValid; errSSLBadCert;
   errSSLXCertChainInvalid; errSSLHostNameMismatch; errSSLUnknownRootCert;
   errSSLNoRootCert].

(** The error reaches the [case] labels of its own class: it is not taken
    for a reason to fall back (certificate classes), and it is not one of the
    certificate codes (protocol class). *)
Definition handled_in_class (k : fault_class) (dict : gmap string CFValue)
    (error : Z) : Prop :=
  match k with
  | ProtocolFault => error ∉ certificate_codes
  | _ => is_Some (dict !! kCFStreamSSLLevel) \/ fallback_might_work error = false
  end.

End Classes.

(** The entries that stand for a fault class. *)
Definition class_keys : list string :=
  [kCFStreamSSLLevel; kCFStreamSSLAllowsExpiredCertificates;
   kCFStreamSSLValidatesCertificateChain; kCFStreamSSLAllowsAnyRoot].

(** A bag in which the user has accepted an expired certificate and the SSL
    level is pinned, and a stream that fails again because of one. *)
Definition expired_accepted : gmap string CFValue :=
  {[ kCFStreamSSLLevel := kCFStreamSocketSecurityLevelSSLv3;
     kCFStreamSSLAllowsExpiredCertificates := kCFBooleanTrue;
     kCFStreamSSLAllowsExpiredRoots := kCFBooleanTrue ]}.

Definition ssl_failure (code : Z) : CFReadStream :=
  failed_stream {| domain := kCFStreamErrorDomainSSL; error := code |}.

(** ** EPIPE *)

Definition EPIPE_error : CFStreamError :=
  {| domain := kCFStreamErrorDomainPOSIX; error := EPIPE |}.

(** The transaction is not refused because the connection is down and the
    UI is suppressed. *)
Definition may_transact (w : World) : Prop :=
  gSuppressAllUI (config w) = false \/ connectionstate w = WEBDAV_CONNECTION_UP.



Section Meets.
Context {codes : SecureTransport}.





End Meets.

(** A PROPFIND request as [send_transaction] builds it. *)
Definition test_request : CFHTTPMessage :=
  {| requestMethod := "PROPFIND";
     requestURL := Some (gBaseURL test_config);
     messageBody := None;
     headerFields := {[ "User-Agent" := userAgentHeaderValue test_config ]};
     statusCode := 0; credentials := None |}.


(** A stream that answers 207 with a short body. *)
Definition multistatus : CFReadStream :=
  scripted_stream None [RData (cstr "<multistatus/>")] true
    (Some (response_with_status 207)).

(** The events of a log that are the creation of a stream. *)
Definition is_StreamCreated (e : Event) : bool :=
  match e with
  | StreamCreated _ => true
  | _ => false
  end.

Definition streams_created (events : list Event) : nat :=
  length (List.filter is_StreamCreated events).

(** ** The GET variant: the first bytes and the hand-off *)

(** The stream of a GET has been opened on [slot], leaving the world [w1],
    and the loop that reads the first bytes has ended with [r]. *)
Definition get_reads_first {codes : SecureTransport} (request : CFHTTPMessage)
    (retry : bool) (w : World) (slot : nat) (w1 : World) (r : first_read) : Prop :=
  may_transact w
  /\ exists s,
      open_stream_for_transaction request None true retry w
      = (Success (slot, s), retry, w1)
      /\ malloc_fails (plan (config w1)) = false
      /\ read_first (first_read_len (config w1)) s [] 0 = r.

(** No call on the cache file fails, and [write] writes all [totalRead]
    bytes. *)
Definition cache_file_writable (w : World) (totalRead : Z) : Prop :=
  fchflags_fails (plan (config w)) 0 = false
  /\ ftruncate_fails (plan (config w)) = false
  /\ lseek_fails (plan (config w)) SEEK_SET = false
  /\ lseek_fails (plan (config w)) SEEK_END = false
  /\ write_count (plan (config w)) totalRead = totalRead.

(** The file can be flagged and the request queue takes the download. *)
Definition hand_off_accepted (w : World) : Prop :=
  fchflags_fails (plan (config w)) UF_NODUMP = false
  /\ enqueue_download_result (plan (config w)) = 0.

(** The downloads handed to the request queue, in the order of the log. *)
Definition downloads_enqueued (events : list Event) : list (Z * nat) :=
  flat_map (fun e => match e with
                     | DownloadEnqueued id slot => [(id, slot)]
                     | _ => []
                     end) events.

(** A response of one page and more, answered with the given status. *)
Definition long_response (code : Z) : CFReadStream :=
  scripted_stream None [RData (replicate 4096 "x"%char); RData (cstr "more")]
    false (Some (response_with_status code)).

(** A response of five bytes, answered with the given status. *)
Definition short_response (code : Z) : CFReadStream :=
  scripted_stream None [RData (cstr "hello")] true
    (Some (response_with_status code)).

Definition stale_file : CacheFile :=
  {| data := cstr "stale"; position := 2; flags := 0 |}.

(** ** The URL builder *)

(** The bytes of the child name that are appended: none without a name or
    with length 0, else at most [name_length] bytes, up to a NUL. *)
Definition appended_name (name : option cstring) (name_length : Z) : list ascii :=
  match name with
  | Some name => if name_length =? 0 then [] else c_chars (take (Z.to_nat name_length) name)
  | None => []
  end.

(** A hexadecimal digit, in upper case. *)
Definition hex_digit (n : nat) : ascii := nth n (cstr "0123456789ABCDEF") "0"%char.

(** The value of a hexadecimal digit. *)
Definition hex_value (c : ascii) : nat :=
  let n := nat_of_ascii c in
  if (48 <=? n)%nat && (n <=? 57)%nat then (n - 48)%nat
  else if (65 <=? n)%nat && (n <=? 70)%nat then (n - 55)%nat
  else if (97 <=? n)%nat && (n <=? 102)%nat then (n - 87)%nat
  else 0%nat.

(** The escape of a byte: '%' and its two hexadecimal digits. *)
Definition percent_escape (c : ascii) : list ascii :=
  let n := nat_of_ascii c in
  ["%"%char; hex_digit (n / 16); hex_digit (n mod 16)].

(** Modelled from the spec: step 3 of the URL builder, "Percent-encode
    everything not permitted in a URL path, additionally escaping `:`, `;`,
    `?`".  The code leaves the encoding to CoreFoundation's
    [CFURLCreateStringByAddingPercentEscapes], which is not part of the
    repository.  [permitted] tells which bytes are permitted in a URL path;
    a byte that is not, or that is one of [additionally], is replaced by
    its escape, and every other byte is kept. *)
Definition percent_encode (permitted : ascii -> bool) (additionally : list ascii)
    (path : list ascii) : list ascii :=
  flat_map (fun c => if permitted c && negb (bool_decide (c ∈ additionally))
                     then [c] else percent_escape c) path.

(** Modelled from the spec: the decoding of the URL round trip, "the
    composed URL [...] percent-decodes back to P".  An escape stands for
    its byte, every other byte for itself. *)
Fixpoint percent_decode (bytes : list ascii) : list ascii :=
  match bytes with
  | [] => []
  | c :: rest =>
      match rest with
      | high :: low :: rest' =>
          if ceq c "%"
          then ascii_of_nat (16 * hex_value high + hex_value low)
               :: percent_decode rest'
          else c :: percent_decode rest
      | _ => c :: percent_decode rest
      end
  end.

(** Modelled from the spec: step 4 of the URL builder, "Resolve relative to
    the base URL; produce an absolute URL", which the code leaves to
    CoreFoundation's [CFURLCreateWithString] and [CFURLCopyAbsoluteURL].
    The base URL of a mount is a directory and the paths are relative to
    it: the absolute URL is the base URL followed by the relative path. *)
Definition resolve_against (base : CFURL) (relative : list ascii) : CFURL :=
  {| urlString := urlString base ++ relative; baseURL := None |}.

(** CoreFoundation does what the specification says of it: a string holds
    the bytes it was created from; with no character exempted, escapes are
    added as [percent_encode] adds them; and the absolute copy of a URL
    made of a string and a base URL is the string resolved against the
    base.  A call that returns NULL promises nothing. *)
Definition as_specified (services : URLServices) (permitted : ascii -> bool)
  : Prop :=
  (forall bytes s,
      CFStringCreateWithCString bytes = Some s -> characters s = bytes)
  /\ (forall s additionally escaped,
        CFURLCreateStringByAddingPercentEscapes s None (Some additionally)
        = Some escaped ->
        characters escaped
        = percent_encode permitted (characters additionally) (characters s))
  /\ (forall s base url absolute,
        CFURLCreateWithString s base = Some url ->
        CFURLCopyAbsoluteURL url = Some absolute ->
        absolute = resolve_against base (characters s)).

(** No call of CoreFoundation returns NULL. *)
Definition never_NULL (services : URLServices) : Prop :=
  (forall bytes, is_Some (CFStringCreateWithCString bytes))
  /\ (forall s leave additionally,
        is_Some (CFURLCreateStringByAddingPercentEscapes s leave additionally))
  /\ (forall s base, is_Some (CFURLCreateWithString s base))
  /\ (forall url, is_Some (CFURLCopyAbsoluteURL url)).

(** What a percent-encoded path is made of: bytes that are permitted in a
    URL path and are not escaped additionally, and the bytes of the
    escapes. *)
Definition encoded_byte (permitted : ascii -> bool) (additionally : list ascii)
    (c : ascii) : Prop :=
  (permitted c = true /\ c ∉ additionally)
  \/ c ∈ "%"%char :: cstr "0123456789ABCDEF".

(** A stand-in for the node cache and CoreFoundation on the scripted
    transport: the root node has the empty path, every other node the path
    "docs/a file?;v:1"; printable ASCII other than space and a few marks
    counts as legal in a URL; a relative URL is resolved by putting it after
    the base URL. *)
Definition escape_char (leave force : list ascii) (c : ascii) : list ascii :=
  let n := nat_of_ascii c in
  let legal := (33 <=? n)%nat && (n <=? 126)%nat
               && negb (bool_decide (c ∈ DQUOTE :: cstr "%<>\^`{|}")) in
  if (legal && negb (bool_decide (c ∈ force))) || bool_decide (c ∈ leave)
  then [c]
  else ["%"%char; hex_digit (n / 16); hex_digit (n mod 16)].

(** The bytes the stand-in for CoreFoundation permits in a URL path:
    printable ASCII other than space and a few marks. *)
Definition printable_mark (c : ascii) : bool :=
  let n := nat_of_ascii c in
  (33 <=? n)%nat && (n <=? 126)%nat
  && negb (bool_decide (c ∈ DQUOTE :: cstr "%<>\^`{|}")).

Definition test_services : URLServices := {|
  nodecache_get_path_from_node node :=
    if fileid node =? 1 then (0, []) else (0, cstr "docs/a file?;v:1");
  CFStringCreateWithCString bytes :=
    Some {| characters := bytes; hasCStringPtr := false |};
  CFURLCreateStringByAddingPercentEscapes s leave force :=
    Some {| characters :=
              flat_map (escape_char (from_option characters [] leave)
                          (from_option characters [] force)) (characters s);
            hasCStringPtr := false |};
  CFURLCreateWithString s base :=
    Some {| urlString := characters s; baseURL := Some (urlString base) |};
  CFURLCopyAbsoluteURL url :=
    Some {| urlString := default [] (baseURL url) ++ urlString url;
            baseURL := None |}
|}.

Definition root_node : node_entry :=
  {| fileid := 1; file_fd := 4; file_status := WEBDAV_DOWNLOAD_NEVER;
     file_locktoken := None; file_locktoken_uid := 0 |}.

(** ** UNLOCK *)

(** Events that do not concern a request: the certificate UI was asked, or
    a stream was closed. *)
Definition quiet (e : Event) : Prop :=
  match e with
  | ConfirmCertificateCalled _ | StreamClosed => True
  | _ => False
  end.

(** What one transaction on [request] may leave in the log. *)
Definition stream_event (request : CFHTTPMessage) (e : Event) : Prop :=
  quiet e \/ e = StreamCreated request.

(** The log of [w'] is the log of [w] and then events that all satisfy [Q]. *)
Definition log_grows (Q : Event -> Prop) (w w' : World) : Prop :=
  exists evs, log w' = log w ++ evs /\ Forall Q evs.

(** The request that [send_transaction] builds and the authentication cache
    gives credentials to. *)
Definition request_sent (cfg : Config) (uid : Z) (url : CFURL) (method : string)
    (bodyData : option (list ascii)) (headerCount : Z)
    (headers : list (string * CFString)) : CFHTTPMessage :=
  let message :=
    {| requestMethod := method; requestURL := Some url; messageBody := None;
       headerFields := ∅; statusCode := 0; credentials := None |} in
  let message :=
    match bodyData with
    | Some b => CFHTTPMessageSetBody message b
    | None => message
    end in
  let message :=
    CFHTTPMessageSetHeaderFieldValue message "User-Agent" (userAgentHeaderValue cfg) in
  let message :=
    match X_Source_Id_HeaderValue cfg with
    | Some v => CFHTTPMessageSetHeaderFieldValue message "X-Source-Id" v
    | None => message
    end in
  with_credentials
    (foldl (fun m h => CFHTTPMessageSetHeaderFieldValue m h.1 h.2) message
       (take (Z.to_nat headerCount) headers))
    uid.

(** What [send_transaction] for [uid] may leave in the log: streams for the
    request it builds, and calls of the authentication cache for [uid]. *)
Definition transaction_event (request : CFHTTPMessage) (uid : Z) (e : Event) : Prop :=
  match e with
  | StreamCreated r => r = request
  | AuthcacheApply u _ => u = uid
  | AuthcacheValid u => u = uid
  | DownloadEnqueued _ _ => False
  | _ => True
  end.

(** The value of the Lock-Token header of the UNLOCK for [node]. *)
Definition locktoken_header (node : node_entry) : CFString :=
  {| characters :=
       "<"%char :: c_chars (default (cstr "(null)") (file_locktoken node))
       ++ [">"%char];
     hasCStringPtr := false |}.

(** What [network_unlock] on [node] may leave in the log: every stream it
    creates is for an UNLOCK request that carries the credentials of the
    uid the lock was taken with and the node's lock token; the
    authentication cache is asked about that uid only; nothing is handed to
    the download queue. *)
Definition unlock_event (node : node_entry) (e : Event) : Prop :=
  match e with
  | StreamCreated r =>
      requestMethod r = "UNLOCK"%string
      /\ credentials r = Some (file_locktoken_uid node)
      /\ headerFields r !! "Lock-Token"%string = Some (locktoken_header node)
  | AuthcacheApply u _ => u = file_locktoken_uid node
  | AuthcacheValid u => u = file_locktoken_uid node
  | DownloadEnqueued _ _ => False
  | ConfirmCertificateCalled _ | StreamClosed => True
  end.

(** A stream that answers 204 with no body. *)
Definition no_content : CFReadStream :=
  scripted_stream None [] true (Some (response_with_status 204)).

(** A stream that answers 412: the lock token did not match. *)
Definition precondition_failed : CFReadStream :=
  scripted_stream None [] true (Some (response_with_status 412)).

(** ** The mount options *)

(** A table in the way of [mntopts.h]: "ro" sets a bit, "suid" and "dev"
    are inverses that clear theirs, "browse" lives in the second word. *)
Definition sample_table : list mntopt :=
  [ {| m_option := cstr "ro"; m_inverse := 0; m_flag := 1; m_altloc := 0 |};
    {| m_option := cstr "suid"; m_inverse := 1; m_flag := 8; m_altloc := 0 |};
    {| m_option := cstr "dev"; m_inverse := 1; m_flag := 16; m_altloc := 0 |};
    {| m_option := cstr "browse"; m_inverse := 1; m_flag := 4; m_altloc := 1 |} ].

(** [flag] with the bits of [clear] cleared and then those of [set] set. *)
Definition masked (flag clear set : Z) : Z := Z.lor (Z.land flag (Z.lnot clear)) set.

(** Every bit of [x] is a bit of the flag of some entry of the table that
    satisfies [P]. *)
Definition covered_by (m0 : list mntopt) (P : mntopt -> Prop) (x : Z) : Prop :=
  forall n, Z.testbit x n = true ->
            exists m, m ∈ m0 /\ P m /\ Z.testbit (m_flag m) n = true.

Definition in_flag (m : mntopt) : Prop := m_altloc m = 0.
Definition in_altflag (m : mntopt) : Prop := m_altloc m <> 0.

Definition is_option_ignored (line : syslog_line) : Prop :=
  match line with
  | option_ignored _ => True
  | option_not_supported _ => False
  end.

(** What a run of the loop over the tokens comes to: a result, the bits it
    clears and sets in each of the two words, and the lines it logs. *)
Record options_effect : Type := {
  eff_result : Z;
  eff_clear : Z;
  eff_set : Z;
  eff_altclear : Z;
  eff_altset : Z;
  eff_lines : list syslog_line
}.

Definition effect_ok (freed : cstring) (silent : Z) (m0 : list mntopt)
    (e : options_effect) : Prop :=
  covered_by m0 in_flag (eff_clear e)
  /\ covered_by m0 in_flag (eff_set e)
  /\ covered_by m0 in_altflag (eff_altclear e)
  /\ covered_by m0 in_altflag (eff_altset e)
  /\ (silent <> 0 -> eff_result e = 0 /\ Forall is_option_ignored (eff_lines e))
  /\ (silent = 0 ->
      (eff_result e = 0 /\ eff_lines e = [])
      \/ (eff_result e = EINVAL /\ eff_lines e = [option_not_supported freed])).

(** An item of an option string: it holds neither a comma nor a NUL. *)
Definition is_item (item : cstring) : Prop :=
  Forall (fun c => c <> NUL /\ c <> ","%char) item.

(** The option string made of the items, with commas between them. *)
Fixpoint comma_separated (items : list cstring) : cstring :=
  match items with
  | [] => []
  | [item] => item
  | item :: rest => item ++ ","%char :: comma_separated rest
  end.

(** The items taken one after the other, the empty ones left out, up to the
    first that fails. *)
Fixpoint run_options (freed : cstring) (getmnt_silent : Z) (m0 : list mntopt)
    (items : list cstring) (flag altflag : Z) (lines : list syslog_line)
  : Z * Z * Z * list syslog_line :=
  match items with
  | [] => (0, flag, altflag, lines)
  | [] :: rest => run_options freed getmnt_silent m0 rest flag altflag lines
  | item :: rest =>
      match getmntopts_option freed getmnt_silent m0 item flag altflag with
      | option_failed result more => (result, flag, altflag, lines ++ more)
      | option_done flag' altflag' more =>
          run_options freed getmnt_silent m0 rest flag' altflag' (lines ++ more)
      end
  end.

(** The lines as a run logs them that reads [freed] where the buffer was
    freed: a line "option not supported" shows [freed], whatever it showed;
    the other lines are the same. *)
Definition reread (freed : cstring) (lines : list syslog_line) : list syslog_line :=
  (fun line => match line with
               | option_not_supported _ => option_not_supported freed
               | option_ignored opt => option_ignored opt
               end) <$> lines.

(** A name as it stands in an option table: not empty, without an
    assignment, and not beginning with the letters "no". *)
Definition is_plain_name (name : cstring) : Prop :=
  name <> []
  /\ Forall (fun c => c <> "="%char) name
  /\ ~ (cstr "no" `prefix_of` name).

(** Bytes such as a freed buffer has been seen to hold: not an option. *)
Definition scribbled : cstring := ["V"%char; "005"%char].

(** ** The engine and the slots *)

(** The in-use marks of the slots, in the order of [gReadStreams]. *)
Definition in_use (w : World) : list bool := inUse <$> gReadStreams w.

(** ** What a transaction returns *)

(** The errors [translate_status_to_error] can give. *)
Definition status_errors : list Z := [ENOENT; EAUTH; EPERM; EBUSY; EINVAL; ENOSPC; EIO].

(** The errors of a transaction that come from the transport, and those that
    stand for a status of the response. *)
Definition transport_errors : list Z := [EIO; ENXIO; ECANCELED].
Definition surfaced_status_errors : list Z := [ENOENT; EPERM; EBUSY; EINVAL; ENOSPC; EIO].

(** Events other than the authentication cache being told that the
    credentials are good. *)
Definition not_valid (e : Event) : Prop :=
  match e with
  | AuthcacheValid _ => False
  | _ => True
  end.

(** The locals after a pass that has got a response. *)
Definition got_response (l : locals) : Prop :=
  exists m r b,
    l_message l = Some m /\ l_responseRef l = Some r
    /\ l_statusCode l = statusCode r /\ l_responseBuffer l = Some b.


(** The world with the UI suppressed, as when the file system is mounted
    with no user to ask. *)
Definition with_config_quiet (w : World) : World :=
  {| config :=
       {| first_read_len := first_read_len (config w);
          gSuppressAllUI := true;
          gProxyDict := gProxyDict (config w);
          userAgentHeaderValue := userAgentHeaderValue (config w);
          X_Source_Id_HeaderValue := X_Source_Id_HeaderValue (config w);
          gBaseURL := gBaseURL (config w);
          plan := plan (config w) |};
     gSSLPropertiesDict := gSSLPropertiesDict w;
     gReadStreams := gReadStreams w;
     connectionstate := connectionstate w;
     files := files w; incoming := incoming w; ui_answers := ui_answers w;
     auth_results := auth_results w; log := log w |}.

(** ** The operations *)

(** What an operation that sends for [uid] may leave in the log: streams for
    requests that satisfy [allowed], and calls of the authentication cache
    for [uid]; nothing is handed to the download queue. *)
Definition request_event (allowed : CFHTTPMessage -> Prop) (uid : Z) (e : Event)
  : Prop :=
  match e with
  | StreamCreated r => allowed r
  | AuthcacheApply u _ => u = uid
  | AuthcacheValid u => u = uid
  | DownloadEnqueued _ _ => False
  | ConfirmCertificateCalled _ | StreamClosed => True
  end.

(** The request is for [url], with one of [methods], under the credentials
    of [uid]. *)
Definition request_for (url : CFURL) (uid : Z) (methods : list string)
    (r : CFHTTPMessage) : Prop :=
  requestURL r = Some url /\ credentials r = Some uid
  /\ requestMethod r ∈ methods.

(** The value of the Range header for [count] bytes from [offset]: the last
    byte is printed as the 64 bit integer that [offset + count - 1] is. *)
Definition byte_range (offset count : Z) : CFString :=
  {| characters :=
       cstr "bytes=" ++ cstr (pretty offset) ++ cstr "-"
       ++ cstr (pretty (to_int64 (offset + count - 1)));
     hasCStringPtr := false |}.

(** A parser and a CoreFoundation for the examples: the count of entries is
    the number of ['<'] in the body, the lock token is the body, every
    resource is a directory. *)
Definition test_outside : Outside := {|
  parse_stat buffer count statbuf := (0, {| st_mode := S_IFDIR; st_ino := 0 |});
  parse_file_count buffer count :=
    (0, Z.of_nat (length (List.filter (fun c => bool_decide (c = "<"%char)) buffer)));
  parse_lock buffer count := (0, Some buffer);
  DateStringToTime s := 0;
  CFURLGetString url :=
    Some {| characters := urlString url; hasCStringPtr := false |};
  CFDataCreateWithBytesNoCopy bytes := Some bytes;
  gtimeout_string := cstr "600"
|}.

(** A stream that answers 200 with ten bytes. *)
Definition ten_bytes : CFReadStream :=
  scripted_stream None [RData (cstr "0123456789")] true
    (Some (response_with_status 200)).

(** A stream that answers an OPTIONS as a class 1 server does. *)
Definition class_1_server : CFReadStream :=
  scripted_stream None [] true (Some (options_response (Some (CFSTR "1")))).

(** Between [w] and [w'] a stream was created for a request with [method]. *)
Definition sent (method : string) (w w' : World) : Prop :=
  exists evs r,
    log w' = log w ++ evs /\ StreamCreated r ∈ evs /\ requestMethod r = method.

(** The headers of the PROPFIND that counts the entries of a directory. *)
Definition depth_1_headers : list (string * CFString) :=
  [Accept_all; ("Content-Type"%string, CFSTR "text/xml");
   ("Depth"%string, CFSTR "1")].

(** The destination of a rename as [network_rename] is given it: the node
    to move over, or a directory and a name. *)
Definition rename_destination {services : URLServices}
    (to_node : option (node_entry * webdav_filetype)) (to_dir_node : node_entry)
    (to_name : option cstring) (to_name_length : Z) (w : World) : option CFURL :=
  match to_node with
  | Some (to_node, _) => create_cfurl_from_node to_node None 0 w
  | None => create_cfurl_from_node to_dir_node to_name to_name_length w
  end.

Definition is_directory (to_node : option (node_entry * webdav_filetype)) : bool :=
  match to_node with
  | Some (_, WEBDAV_DIR_TYPE) => true
  | _ => false
  end.

(** The user whose credentials a LOCK goes out under: the one that took
    the lock when it is refreshed, the caller otherwise. *)
Definition lock_owner (uid : Z) (refresh : bool) (node : node_entry) : Z :=
  if refresh then file_locktoken_uid node else uid.

(** The value of the If header for the lock token of [node]. *)
Definition if_header (node : node_entry) : CFString :=
  {| characters :=
       cstr "(<" ++ c_chars (default (cstr "(null)") (file_locktoken node))
       ++ cstr ">)";
     hasCStringPtr := false |}.

(** The value of the Timeout header. *)
Definition timeout_header {outside : Outside} : CFString :=
  {| characters := cstr "Second-" ++ c_chars gtimeout_string;
     hasCStringPtr := false |}.

(** A LOCK request as [network_lock] sends it for [node]: to take the lock
    it carries the lockinfo document and no If header; to refresh it, no
    body and the lock token in the If header. *)
Definition lock_request {outside : Outside} (uid : Z) (refresh : bool)
    (node : node_entry) (r : CFHTTPMessage) : Prop :=
  requestMethod r = "LOCK"%string
  /\ credentials r = Some (lock_owner uid refresh node)
  /\ headerFields r !! "Timeout"%string = Some timeout_header
  /\ if refresh
     then messageBody r = None
          /\ headerFields r !! "If"%string = Some (if_header node)
     else messageBody r = CFDataCreateWithBytesNoCopy lockinfo_xml
          /\ headerFields r !! "If"%string = None.

(** An UNLOCK under the credentials of [uid] with [token] in its Lock-Token
    header. *)
Definition unlock_request (uid : Z) (token : option cstring) (r : CFHTTPMessage)
  : Prop :=
  requestMethod r = "UNLOCK"%string
  /\ credentials r = Some uid
  /\ headerFields r !! "Lock-Token"%string
     = Some {| characters :=
                 "<"%char :: c_chars (default (cstr "(null)") token) ++ [">"%char];
               hasCStringPtr := false |}.

(** A stream that answers a LOCK with a body, which the parser of the
    examples takes for the lock token. *)
Definition lock_granted : CFReadStream :=
  scripted_stream None [RData (cstr "opaquelocktoken:2")] true
    (Some (response_with_status 200)).

(** The bytes that a stream delivers before its body ends: at a failure, at
    a chunk of no bytes, or where the events run out. *)
Fixpoint delivered (evs : list ReadEvent) : list ascii :=
  match evs with
  | RData (c :: bytes) :: rest => (c :: bytes) ++ delivered rest
  | _ => []
  end.

(** Whether the body ends with a failure. *)
Fixpoint breaks_off (evs : list ReadEvent) : bool :=
  match evs with
  | RData (_ :: _) :: rest => breaks_off rest
  | RFail _ :: _ => true
  | _ => false
  end.

(** The cache file [f] after [bytes] were put at its end. *)
Definition appended (f : CacheFile) (bytes : list ascii) : CacheFile :=
  {| data := data f ++ bytes;
     position := position f + Z.of_nat (length bytes);
     flags := flags f |}.

(** The cache file on [fd] is open with its position at the end, and
    [write] takes all it is given. *)
Definition ready_to_append (w : World) (fd : Z) (f : CacheFile) : Prop :=
  files w !! fd = Some f
  /\ position f = Z.of_nat (length (data f))
  /\ forall n, write_count (plan (config w)) n = n.

(** A stream that delivers a body in two chunks. *)
Definition two_chunks : CFReadStream :=
  scripted_stream None [RData (cstr "Hello, "); RData (cstr "world")] true
    (Some (response_with_status 200)).

(** A download in progress: slot 1 is leased and holds a stream that has
    two chunks left to deliver, and the cache file holds what came before,
    its position at the end. *)
Definition download_in_progress : World :=
  with_files
    (set_slot_stream 1 (Some two_chunks)
       (with_slots (test_world None [] [])
          [free_slot "0"; with_inUse (free_slot "1") true]))
    {[ 3 := {| data := cstr ">> "; position := 3; flags := UF_NODUMP |} ]}.

(** A stream that answers a PROPFIND with two entries. *)
Definition two_entries : CFReadStream :=
  scripted_stream None [RData (cstr "<response/><response/>")] true
    (Some (response_with_status 207)).

(** The buffer and its length agree in the locals of [send_transaction]
    after a pass that has not failed. *)
Definition buffer_measured (l : locals) : Prop :=
  l_error l = 0 ->
  exists b, l_responseBuffer l = Some b
            /\ l_responseBufferLength l = Z.of_nat (length b).

(** * Properties *)

(** ** The lexers *)

Lemma ceq_true a b : ceq a b = true <-> a = b.
Proof. apply Ascii.eqb_eq. Qed.

Lemma ceq_false a b : ceq a b = false <-> a <> b.
Proof. apply Ascii.eqb_neq. Qed.

Lemma SkipToken_case_spec c : SkipToken_case c = true <-> c = DEL \/ is_separator c.
Proof.
  unfold SkipToken_case, is_separator, separators.
  rewrite !orb_true_iff, !ceq_true. simpl.
  rewrite !elem_of_cons, elem_of_nil. unfold DQUOTE, SP, HT. tauto.
Qed.

Lemma uchar_DEL c : uchar c = 127 <-> c = DEL.
Proof.
  unfold uchar. split; [|by intros ->].
  intros H. assert (nat_of_ascii c = 127%nat) as Hn by lia.
  rewrite <-(ascii_nat_embedding c), Hn. reflexivity.
Qed.

Lemma uchar_NUL c : c = NUL -> uchar c <= 31.
Proof. by intros ->. Qed.

Lemma SkipToken_stops_at c :
  (ceq c NUL || (uchar c <=? 31) || SkipToken_case c) = true <-> ends_token c.
Proof.
  unfold ends_token, is_CTL.
  rewrite !orb_true_iff, ceq_true, Z.leb_le, SkipToken_case_spec, uchar_DEL.
  split; [|tauto].
  intros [[Hnul|?]|[?|?]]; [left; left; by apply uchar_NUL | tauto..].
Qed.

Lemma SkipToken_spec bytes :
  exists token,
    bytes = token ++ SkipToken bytes
    /\ Forall (fun c => ~ ends_token c) token
    /\ match SkipToken bytes with
       | [] => True
       | c :: _ => ends_token c
       end.
Proof.
  induction bytes as [|c rest (token & Heq & Htok & Hend)]; simpl.
  { exists []. by repeat split. }
  pose proof (SkipToken_stops_at c) as Hstop.
  destruct (ceq c NUL); [exists []; repeat split; [constructor | by apply Hstop]|].
  destruct (uchar c <=? 31); [exists []; repeat split; [constructor | by apply Hstop]|].
  destruct (SkipToken_case c); [exists []; repeat split; [constructor | by apply Hstop]|].
  exists (c :: token). repeat split; [by rewrite Heq at 1| |done].
  constructor; [|done]. intros Hc. by apply Hstop in Hc.
Qed.

Lemma SkipCodedURL_spec bytes :
  exists url,
    bytes = url ++ SkipCodedURL bytes
    /\ Forall (fun c => c <> ">"%char /\ c <> NUL) url
    /\ match SkipCodedURL bytes with
       | [] => True
       | c :: _ => c = ">"%char \/ c = NUL
       end.
Proof.
  induction bytes as [|c rest (url & Heq & Hurl & Hend)]; simpl.
  { exists []. by repeat split. }
  destruct (ceq c NUL) eqn:Hnul; simpl.
  { exists []. repeat split; [constructor|]. right. by apply ceq_true. }
  destruct (ceq c ">") eqn:Hgt; simpl.
  { exists []. repeat split; [constructor|]. left. by apply ceq_true. }
  exists (c :: url). repeat split; [by rewrite Heq at 1| |done].
  constructor; [|done]. split; by apply ceq_false.
Qed.

Lemma SkipLWS_spec bytes :
  exists lws,
    bytes = lws ++ SkipLWS bytes
    /\ LWS_run lws
    /\ ~ starts_with_LWS (SkipLWS bytes).
Proof.
  induction bytes as [bytes IH] using (induction_ltof1 _ (@length ascii)).
  unfold ltof in IH.
  destruct bytes as [|c rest]; simpl.
  { exists []. repeat split; [constructor | tauto]. }
  destruct (ceq c NUL) eqn:Hnul.
  { apply ceq_true in Hnul as ->. exists []. repeat split; [constructor|].
    simpl. intros [?|[?|[? _]]]; discriminate. }
  destruct (ceq c SP || ceq c HT) eqn:Hblank.
  { destruct (IH rest) as (lws & Heq & Hrun & Hstop); [simpl; lia|].
    exists (c :: lws). repeat split; [by rewrite Heq at 1| |done].
    constructor; [|done].
    apply orb_true_iff in Hblank as [?%ceq_true|?%ceq_true]; tauto. }
  apply orb_false_iff in Hblank as [Hsp%ceq_false Hht%ceq_false].
  destruct (ceq c CR) eqn:Hcr.
  - apply ceq_true in Hcr as ->.
    destruct rest as [|c1 [|c2 rest3]].
    + exists []. repeat split; [constructor|]. simpl.
      intros [?|[?|[_ (? & ? & ? & _)]]]; discriminate.
    + exists []. repeat split; [constructor|]. simpl.
      intros [?|[?|[_ (? & ? & ? & _)]]]; discriminate.
    + destruct (ceq c1 LF && (ceq c2 SP || ceq c2 HT)) eqn:Hfold.
      * apply andb_true_iff in Hfold as [->%ceq_true Hc2].
        destruct (IH rest3) as (lws & Heq & Hrun & Hstop); [simpl; lia|].
        exists (CR :: LF :: c2 :: lws). repeat split; [by rewrite Heq at 1| |done].
        constructor; [|done].
        apply orb_true_iff in Hc2 as [?%ceq_true|?%ceq_true]; tauto.
      * exists []. repeat split; [constructor|]. simpl.
        intros [?|[?|[_ (c2' & r' & [= -> -> ->] & Hc2)]]]; try discriminate.
        rewrite (proj2 (ceq_true LF LF)) in Hfold by done. simpl in Hfold.
        apply orb_false_iff in Hfold as [?%ceq_false ?%ceq_false]. tauto.
  - apply ceq_false in Hcr.
    exists []. repeat split; [constructor|]. simpl. tauto.
Qed.

(** C7.  For every C string, [SkipToken] returns the suffix that starts at the
    first CTL (octets 0 - 31 and 127) or separator, or the end of the string,
    and the characters it passed over are neither; [SkipLWS] passes over a run
    made of SP, HT and of CR LF directly followed by SP or HT, and stops
    where no such unit follows; [SkipCodedURL] returns the suffix that starts
    at the first closing angle bracket or NUL, or the end of the string. *)
Theorem lexers_stop_where_specified (bytes : cstring) :
  (exists token,
      bytes = token ++ SkipToken bytes
      /\ Forall (fun c => ~ ends_token c) token
      /\ match SkipToken bytes with
         | [] => True
         | c :: _ => ends_token c
         end)
  /\ (exists lws,
        bytes = lws ++ SkipLWS bytes
        /\ LWS_run lws
        /\ ~ starts_with_LWS (SkipLWS bytes))
  /\ (exists url,
        bytes = url ++ SkipCodedURL bytes
        /\ Forall (fun c => c <> ">"%char /\ c <> NUL) url
        /\ match SkipCodedURL bytes with
           | [] => True
           | c :: _ => c = ">"%char \/ c = NUL
           end).
Proof.
  split; [apply SkipToken_spec|].
  split; [apply SkipLWS_spec | apply SkipCodedURL_spec].
Qed.

(** ** The status table *)

(** C1.  On status 414 the code returns EBUSY: the assignment of
    ENAMETOOLONG under [case 414] is overwritten because the case has no
    [break].  Statuses 423 and 424 give EBUSY. *)
Theorem status_414_falls_through_to_busy :
  translate_status_to_error 414 = EBUSY
  /\ translate_status_to_error 414 <> ENAMETOOLONG
  /\ translate_status_to_error 423 = EBUSY
  /\ translate_status_to_error 424 = EBUSY.
Proof. repeat split; done. Qed.

Ltac status_range s :=
  unfold translate_status_to_error;
  let q := fresh "q" in
  let Hq := fresh "Hq" in
  remember (s / 100) as q eqn:Hq;
  assert (100 * q <= s < 100 * q + 100)
    by (subst q; pose proof (Z.mul_div_le s 100 ltac:(lia));
        pose proof (Z.mul_succ_div_gt s 100 ltac:(lia)); lia).

(** C9.  The rest of the status table: every 2xx status gives 0; 402 and 403
    give EPERM; 404, 409 and 410 give ENOENT; 507 gives ENOSPC; every 4xx
    status without a row of its own in the table gives EINVAL; every 1xx,
    3xx and 5xx status other than 507 gives ENOENT. *)
Theorem status_table_remainder (statusCode : Z) :
  (200 <= statusCode <= 299 -> translate_status_to_error statusCode = 0)
  /\ (statusCode = 402 \/ statusCode = 403 ->
      translate_status_to_error statusCode = EPERM)
  /\ (statusCode = 404 \/ statusCode = 409 \/ statusCode = 410 ->
      translate_status_to_error statusCode = ENOENT)
  /\ (statusCode = 507 -> translate_status_to_error statusCode = ENOSPC)
  /\ (400 <= statusCode <= 499 -> statusCode ∉ listed_4xx ->
      translate_status_to_error statusCode = EINVAL)
  /\ (100 <= statusCode <= 199 \/ 300 <= statusCode <= 399
      \/ (500 <= statusCode <= 599 /\ statusCode <> 507) ->
      translate_status_to_error statusCode = ENOENT).
Proof.
  repeat split.
  - intros H. status_range statusCode.
    assert (q = 2) as -> by lia. reflexivity.
  - by intros [-> | ->].
  - by intros [-> | [-> | ->]].
  - by intros ->.
  - intros H Hnot. status_range statusCode.
    assert (q = 4) as -> by lia. simpl.
    unfold listed_4xx in Hnot. rewrite !not_elem_of_cons in Hnot.
    repeat match goal with
           | |- context [?a =? ?b] =>
               destruct (Z.eqb_spec a b); [lia|]; simpl
           end.
    reflexivity.
  - intros H. status_range statusCode.
    destruct H as [H | [H | [H Hne]]].
    + assert (q = 1) as -> by lia. reflexivity.
    + assert (q = 3) as -> by lia. reflexivity.
    + assert (q = 5) as -> by lia. simpl.
      destruct (Z.eqb_spec statusCode 507); [lia | reflexivity].
Qed.

(** The table of C9 at one status of each row. *)
Lemma status_table_remainder_witness :
  translate_status_to_error 204 = 0
  /\ translate_status_to_error 403 = EPERM
  /\ translate_status_to_error 409 = ENOENT
  /\ translate_status_to_error 507 = ENOSPC
  /\ translate_status_to_error 418 = EINVAL
  /\ translate_status_to_error 302 = ENOENT.
Proof.
  split; [apply (proj1 (status_table_remainder 204)); lia|].
  split; [apply (proj1 (proj2 (status_table_remainder 403))); lia|].
  split; [apply (proj1 (proj2 (proj2 (status_table_remainder 409)))); lia|].
  split; [apply (proj1 (proj2 (proj2 (proj2 (status_table_remainder 507))))); lia|].
  split;
    [|apply (proj2 (proj2 (proj2 (proj2 (proj2 (status_table_remainder 302))))));
      lia].
  apply (proj1 (proj2 (proj2 (proj2 (proj2 (status_table_remainder 418)))))); [lia|].
  unfold listed_4xx. rewrite !not_elem_of_cons.
  repeat (split; [lia|]). apply not_elem_of_nil.
Defined.

(** ** The DAV header *)

Lemma ParseDAVLevel_loop_unroll field_value dav_level :
  ParseDAVLevel_loop field_value dav_level =
  if ceq (deref field_value) NUL then dav_level
  else match ParseDAVLevel_body field_value dav_level with
       | Break level => level
       | Continue field_value' level => ParseDAVLevel_loop field_value' level
       end.
Proof.
  funelim (ParseDAVLevel_loop field_value dav_level).
  all: try match goal with E : ceq _ _ = _ |- _ => rewrite E end;
    try match goal with E : ParseDAVLevel_body _ _ = _ |- _ => rewrite E end;
    reflexivity.
Qed.

Lemma SkipLWS_run lws bytes : LWS_run lws -> SkipLWS (lws ++ bytes) = SkipLWS bytes.
Proof.
  induction 1 as [|c rest [-> | ->] _ IH|c rest [-> | ->] _ IH]; simpl; done.
Qed.

Lemma LWS_run_starts lws bytes :
  LWS_run lws -> lws <> [] -> starts_with_LWS (lws ++ bytes).
Proof.
  destruct 1 as [|c rest Hc _|c rest Hc _]; [done| |]; intros _; simpl.
  - tauto.
  - right. right. split; [done|]. by exists c, (rest ++ bytes).
Qed.

Lemma SkipLWS_stop bytes : ~ starts_with_LWS bytes -> SkipLWS bytes = bytes.
Proof.
  intros Hstop. destruct (SkipLWS_spec bytes) as (lws & Heq & Hrun & _).
  destruct lws as [|c lws]; [done|].
  exfalso. apply Hstop. rewrite Heq. by apply LWS_run_starts.
Qed.

Lemma SkipToken_app token bytes :
  Forall (fun c => ~ ends_token c) token ->
  match bytes with
  | [] => True
  | c :: _ => ends_token c
  end ->
  SkipToken (token ++ bytes) = bytes.
Proof.
  intros Htok Hend. induction Htok as [|c token Hc _ IH]; simpl.
  - destruct bytes as [|c rest]; [done|]. simpl.
    apply SkipToken_stops_at in Hend.
    destruct (ceq c NUL); [done|]. destruct (uchar c <=? 31); [done|].
    destruct (SkipToken_case c); [done|]. done.
  - pose proof (SkipToken_stops_at c) as Hstop.
    destruct (ceq c NUL); [exfalso; by apply Hc, Hstop|].
    destruct (uchar c <=? 31); [exfalso; by apply Hc, Hstop|].
    destruct (SkipToken_case c); [exfalso; by apply Hc, Hstop|].
    done.
Qed.

Lemma SkipCodedURL_app url bytes :
  Forall (fun c => c <> ">"%char /\ c <> NUL) url ->
  SkipCodedURL (url ++ ">"%char :: bytes) = ">"%char :: bytes.
Proof.
  induction 1 as [|c url [Hgt Hnul] _ IH]; simpl; [done|].
  apply ceq_false in Hgt, Hnul. by rewrite Hgt, Hnul.
Qed.

Lemma tail_not_LWS bytes : is_tail bytes -> ~ starts_with_LWS bytes.
Proof.
  intros [-> | [more ->]]; simpl; [tauto|].
  intros [?|[?|[? _]]]; discriminate.
Qed.

Lemma LWS_head_ends_token lws bytes :
  LWS_run lws -> is_tail bytes ->
  match lws ++ bytes with
  | [] => True
  | c :: _ => ends_token c
  end.
Proof.
  intros Hrun Htail.
  assert (Hsep : forall c, c ∈ [SP; HT; ","%char] -> ends_token c).
  { intros c Hc. right. unfold is_separator, separators. simpl.
    rewrite !elem_of_cons in *. unfold SP, HT in *. tauto. }
  destruct Hrun as [|c rest [-> | ->] _|c rest _ _]; simpl.
  - destruct Htail as [-> | [more ->]]; [done|]. apply Hsep. set_solver.
  - apply Hsep. set_solver.
  - apply Hsep. set_solver.
  - left. left. done.
Qed.

Lemma comma_iteration (rest : cstring) dav_level :
  ParseDAVLevel_body (","%char :: rest) dav_level
  = Continue (skip_commas rest) dav_level.
Proof.
  unfold ParseDAVLevel_body. cbn -[Z.sub Z.of_nat Z.eqb].
  unfold ptrdiff. rewrite Z.sub_diag. reflexivity.
Qed.

Lemma skip_commas_loop bytes dav_level :
  ParseDAVLevel_loop (skip_commas bytes) dav_level
  = ParseDAVLevel_loop bytes dav_level.
Proof.
  destruct bytes as [|c rest]; simpl; [done|].
  destruct (ceq c ",") eqn:Hc; [|done]. apply ceq_true in Hc as ->.
  rewrite (ParseDAVLevel_loop_unroll (_ :: _)). simpl deref.
  by rewrite comma_iteration.
Qed.

Lemma loop_at_end dav_level : ParseDAVLevel_loop [] dav_level = dav_level.
Proof. by rewrite ParseDAVLevel_loop_unroll. Qed.

(** The end of an iteration that stands at a tail. *)
Lemma iteration_end tail level :
  is_tail tail ->
  match (if negb (ceq (deref tail) NUL)
         then if negb (ceq (deref tail) ",") then Break level
              else Continue (skip_commas tail) level
         else Continue tail level) with
  | Break l => l
  | Continue bytes l => ParseDAVLevel_loop bytes l
  end = ParseDAVLevel_loop (skip_commas tail) level.
Proof. intros [-> | [more ->]]; reflexivity. Qed.

Lemma not_ends_token_head c :
  ~ ends_token c ->
  ceq c NUL = false /\ ceq c "<" = false /\ ~ starts_with_LWS [c].
Proof.
  intros Hc.
  assert (Hsep : forall d, d ∈ separators -> c <> d).
  { intros d Hd ->. apply Hc. by right. }
  assert (Hctl : forall d, uchar d <= 31 -> c <> d).
  { intros d Hd ->. apply Hc. left. by left. }
  repeat split.
  - apply ceq_false, Hctl. done.
  - apply ceq_false, Hsep. unfold separators. simpl. set_solver.
  - simpl. intros [->|[->|[-> _]]].
    + eapply Hsep; [|done]. unfold separators. simpl. set_solver.
    + eapply Hsep; [|done]. unfold separators. simpl. set_solver.
    + eapply Hctl; [|done]. done.
Qed.

Lemma level_update c (token : cstring) level :
  0 <= level ->
  (if Z.of_nat (length (c :: token)) =? 1 then
     if ceq c "1" && (level <? 1) then 1
     else if ceq c "2" && (level <? 2) then 2
     else level
   else level) = Z.max level (level_of (Token (c :: token))).
Proof.
  intros Hlevel. destruct token as [|c' token]; simpl length.
  - simpl. destruct (ceq c "1") eqn:H1; simpl.
    + apply ceq_true in H1 as ->. simpl.
      destruct (Z.ltb_spec level 1); lia.
    + destruct (ceq c "2"); simpl; [destruct (Z.ltb_spec level 2)|]; lia.
  - destruct (Z.eqb_spec (Z.of_nat (S (S (length token)))) 1); simpl; lia.
Qed.

Lemma ptrdiff_app (token bytes : cstring) :
  ptrdiff bytes (token ++ bytes) = Z.of_nat (length token).
Proof. unfold ptrdiff. rewrite length_app. lia. Qed.

Lemma item_iteration i tail level :
  item_ok i -> is_tail tail -> 0 <= level ->
  ParseDAVLevel_loop (render_item i ++ tail) level
  = ParseDAVLevel_loop (skip_commas tail) (Z.max level (level_of (value i))).
Proof.
  destruct i as [before e after]. unfold item_ok, render_item. simpl.
  intros (Hb & He & Ha) Htail Hlevel.
  pose proof (tail_not_LWS _ Htail) as HtailLWS.
  rewrite ParseDAVLevel_loop_unroll.
  destruct (ceq (deref _) NUL) eqn:Hhead.
  { (* the header is at its end: nothing was rendered *)
    destruct Hb as [|c rest [-> | ->] _|c rest _ _]; [|done..].
    destruct e as [[|c token]|url]; [|exfalso|done].
    - destruct Ha as [|c rest [-> | ->] _|c rest _ _]; [|done..].
      destruct Htail as [-> | [more ->]]; [|done].
      simpl. rewrite loop_at_end. lia.
    - simpl in He, Hhead. apply Forall_cons in He as [Hc _].
      apply not_ends_token_head in Hc as (Hc & _). congruence. }
  clear Hhead. unfold ParseDAVLevel_body.
  rewrite <-!app_assoc, (SkipLWS_run before) by done.
  destruct e as [[|c token]|url]; simpl in He; cbn [render_element app].
  - (* an empty element *)
    rewrite (SkipLWS_run after), (SkipLWS_stop tail) by done.
    destruct Htail as [-> | [more ->]]; simpl.
    + rewrite loop_at_end. lia.
    + unfold ptrdiff. rewrite Z.sub_diag. simpl.
      replace (Z.max level 0) with level by lia. reflexivity.
  - (* a token *)
    apply Forall_cons in He as [Hc Htok].
    pose proof (not_ends_token_head c Hc) as (Hnul & Hlt & Hlws).
    rewrite (SkipLWS_stop (c :: _)).
    2:{ simpl. simpl in Hlws. intros [?|[?|[-> _]]]; [tauto..|].
        apply Hc. left. by left. }
    cbn [deref]. rewrite Hnul, Hlt.
    change (c :: token ++ after ++ tail) with ((c :: token) ++ (after ++ tail)).
    rewrite (SkipToken_app (c :: token) (after ++ tail)).
    2:{ by constructor. }
    2:{ by apply LWS_head_ends_token. }
    rewrite (SkipLWS_run after), (SkipLWS_stop tail) by done.
    rewrite ptrdiff_app, level_update by done.
    by apply iteration_end.
  - (* a Coded-URL *)
    rewrite (SkipLWS_stop (_ :: _)).
    2:{ simpl. intros [?|[?|[? _]]]; discriminate. }
    cbn [deref]. change (ceq "<" NUL) with false. change (ceq "<" "<") with true.
    cbn [drop]. rewrite <-app_assoc. cbn [app]. rewrite drop_0.
    rewrite SkipCodedURL_app by done.
    cbn [deref drop negb]. change (ceq ">" NUL) with false. cbn [negb].
    rewrite drop_0.
    rewrite (SkipLWS_run after), (SkipLWS_stop tail) by done.
    cbn [level_of]. replace (Z.max level 0) with level by lia.
    by apply iteration_end.
Qed.

Lemma highest_level_nonneg items : 0 <= highest_level items.
Proof. induction items; simpl; lia. Qed.

Lemma ParseDAVLevel_loop_render items level :
  Forall item_ok items -> 0 <= level ->
  ParseDAVLevel_loop (render items) level = Z.max level (highest_level items).
Proof.
  intros Hitems. revert level.
  induction Hitems as [|i rest Hi _ IH]; intros level Hlevel; simpl.
  { rewrite loop_at_end. lia. }
  destruct rest as [|i' rest].
  - rewrite item_iteration; [|done|by left|done].
    simpl. rewrite loop_at_end. lia.
  - rewrite item_iteration; [|done|by right; eexists|done].
    cbn [skip_commas]. change (ceq "," ",") with true. cbv iota.
    rewrite skip_commas_loop, IH by lia.
    pose proof (highest_level_nonneg (i' :: rest)). simpl in *. lia.
Qed.

(** The level of a response with a DAV header: the loop runs on the bytes
    of the header when the string gives a C-string pointer or is shorter
    than the buffer of 4096 bytes, and the level is 0 otherwise. *)
Lemma ParseDAVLevel_dav_response (value : cstring) (direct : bool) :
  ParseDAVLevel (dav_response value direct)
  = if direct then ParseDAVLevel_loop value 0
    else if Z.of_nat (length value) <? 4096 then ParseDAVLevel_loop value 0
         else 0.
Proof.
  unfold ParseDAVLevel, dav_response, options_response,
    CFHTTPMessageCopyHeaderFieldValue. simpl.
  rewrite lookup_singleton_eq.
  unfold CFStringGetCStringPtr, CFStringGetCString. simpl.
  destruct direct; [done|]. by destruct (_ <? _).
Qed.

Lemma long_header_length : length (render long_header) = 4098%nat.
Proof.
  vm_compute. reflexivity.
Qed.

(** C5, as the code has it.  Take a DAV header made of tokens and
    Coded-URLs separated by commas, with any linear white space around
    them, whose bytes the parser can get: the string gives a C-string
    pointer, or is shorter than the buffer of 4096 bytes.  Its DAV level is
    the highest of the levels 1 and 2 among the elements that are the one
    character tokens "1" and "2"; Coded-URLs and other tokens count for
    nothing.  For the headers of the specification the levels are 1, 2, 2,
    2 and 1, and the level is 0 for an empty and for an absent header.  A
    header of 4096 bytes or more whose string gives no C-string pointer has
    the level 0, whatever it holds. *)
Theorem dav_level_is_highest_seen :
  (forall items direct,
      Forall item_ok items ->
      direct = true \/ (length (render items) < 4096)%nat ->
      ParseDAVLevel (dav_response (render items) direct) = highest_level items)
  /\ (forall direct,
        ParseDAVLevel (dav_response (cstr "1") direct) = 1
        /\ ParseDAVLevel (dav_response (cstr "1, 2") direct) = 2
        /\ ParseDAVLevel (dav_response (cstr "1,2,<http://x/>") direct) = 2
        /\ ParseDAVLevel (dav_response (cstr "2,1") direct) = 2
        /\ ParseDAVLevel (dav_response (cstr "<http://x/>,1") direct) = 1
        /\ ParseDAVLevel (dav_response (cstr "") direct) = 0)
  /\ ParseDAVLevel (options_response None) = 0
  /\ (forall value,
        (4096 <= length value)%nat ->
        ParseDAVLevel (dav_response value false) = 0).
Proof.
  split; [|split; [|split]].
  - intros items direct Hitems Hgot.
    rewrite ParseDAVLevel_dav_response.
    assert (Hloop : ParseDAVLevel_loop (render items) 0 = highest_level items).
    { rewrite ParseDAVLevel_loop_render by done.
      pose proof (highest_level_nonneg items). lia. }
    destruct direct; [done|].
    destruct Hgot as [|Hfits]; [done|].
    destruct (Z.ltb_spec (Z.of_nat (length (render items))) 4096); [done|lia].
  - intros []; repeat split; vm_compute; reflexivity.
  - reflexivity.
  - intros value Hlong. rewrite ParseDAVLevel_dav_response.
    destruct (Z.ltb_spec (Z.of_nat (length value)) 4096); [lia|done].
Qed.

Lemma dav_level_is_highest_seen_witness :
  ParseDAVLevel (dav_response (cstr "1, 2") false) = 2.
Proof.
  apply (proj1 dav_level_is_highest_seen header_1_2 false).
  - assert (H1 : ~ ends_token "1").
    { intros [[H | H] | H]; [by vm_compute in H; destruct H | by vm_compute in H |].
      unfold is_separator, separators in H. simpl in H.
      rewrite !elem_of_cons, elem_of_nil in H. intuition discriminate. }
    assert (H2 : ~ ends_token "2").
    { intros [[H | H] | H]; [by vm_compute in H; destruct H | by vm_compute in H |].
      unfold is_separator, separators in H. simpl in H.
      rewrite !elem_of_cons, elem_of_nil in H. intuition discriminate. }
    repeat constructor; simpl; try done.
  - right. vm_compute. lia.
Defined.

(** C5, where the claim fails.  The header "2,<xxx...x>" of 4098 bytes is
    made of the token "2" and a Coded-URL, and its highest level is 2; held
    by a string that gives no C-string pointer it does not fit the buffer
    of 4096 bytes, the loop is not run and the level is 0.  In the header
    "1 2" the tokens "1" and "2" are separated by a space and not by a
    comma: the loop ends after the "1", and the level is 1 and not 2. *)
Lemma dav_level_misses_a_token :
  (Forall item_ok long_header
   /\ highest_level long_header = 2
   /\ ParseDAVLevel (dav_response (render long_header) false) = 0
   /\ ParseDAVLevel (dav_response (render long_header) true) = 2)
  /\ (cstr "1 2" = render_element (Token (cstr "1")) ++ [SP]
                   ++ render_element (Token (cstr "2"))
      /\ level_of (Token (cstr "2")) = 2
      /\ forall direct, ParseDAVLevel (dav_response (cstr "1 2") direct) = 1).
Proof.
  split; [|split; [reflexivity|split; [reflexivity|]]].
  - assert (Hok : Forall item_ok long_header).
    { apply Forall_cons_2; [|apply Forall_cons_2; [|constructor]].
      - split; [constructor|]. split; [|constructor].
        apply Forall_cons_2; [|constructor].
        intros [[H | H] | H];
          [by vm_compute in H; destruct H | by vm_compute in H |].
        unfold is_separator, separators in H. simpl in H.
        rewrite !elem_of_cons, elem_of_nil in H. intuition discriminate.
      - split; [constructor|]. split; [|constructor].
        apply Forall_replicate. by split. }
    split; [done|]. split; [reflexivity|].
    rewrite !ParseDAVLevel_dav_response, long_header_length.
    split; [reflexivity|].
    rewrite ParseDAVLevel_loop_render by done. reflexivity.
  - intros []; vm_compute; reflexivity.
Qed.

(** ** The SSL trust negotiator *)

Lemma with_dict_same w dict : gSSLPropertiesDict w = Some dict -> with_dict w (Some dict) = w.
Proof. destruct w; simpl; by intros ->. Qed.

Lemma value_is_NULL_Some (dict : gmap string CFValue) key :
  is_Some (dict !! key) -> value_is_NULL dict key = false.
Proof. unfold value_is_NULL. by intros [v ->]. Qed.

Section Negotiator.
Context {codes : SecureTransport}.

Lemma HandleSSLErrors_not_again (s : CFReadStream) (w : World)
    (dict : gmap string CFValue) (k : fault_class) :
  NoDup certificate_codes ->
  gSSLPropertiesDict w = Some dict ->
  is_Some (dict !! class_key k) ->
  in_class k (error (streamError s)) ->
  handled_in_class k dict (error (streamError s)) ->
  HandleSSLErrors s w = (EIO, w).
Proof.
  intros Hdistinct Hdict Hset Hclass Hhandled.
  unfold HandleSSLErrors, CFReadStreamGetError. rewrite Hdict.
  destruct (domain (streamError s) =? kCFStreamErrorDomainSSL); [|done].
  rewrite (with_dict_same w dict Hdict).
  set (e := error (streamError s)) in *.
  assert (Hfb : value_is_NULL dict kCFStreamSSLLevel && fallback_might_work e = false).
  { destruct k; cbn [class_key handled_in_class] in *.
    - by rewrite value_is_NULL_Some.
    - destruct Hhandled as [?| ->]; [by rewrite value_is_NULL_Some|].
      apply andb_false_r.
    - destruct Hhandled as [?| ->]; [by rewrite value_is_NULL_Some|].
      apply andb_false_r.
    - destruct Hhandled as [?| ->]; [by rewrite value_is_NULL_Some|].
      apply andb_false_r. }
  rewrite Hfb. clear Hfb.
  destruct k; cbn [class_key in_class handled_in_class] in *;
    unfold certificate_codes in *;
    repeat match goal with
           | H : NoDup (_ :: _) |- _ => apply NoDup_cons in H as [? H]
           | H : _ ∉ _ :: _ |- _ => apply not_elem_of_cons in H as [? H]
           end;
    try rewrite (value_is_NULL_Some _ _ Hset);
    repeat match goal with
           | |- context [e =? ?c] => destruct (Z.eqb_spec e c); simpl
           end; try reflexivity; try done.
  all: exfalso; intuition congruence.
Qed.

Lemma value_is_NULL_true (dict : gmap string CFValue) key :
  value_is_NULL dict key = true -> dict !! key = None.
Proof. unfold value_is_NULL. by destruct (dict !! key). Qed.

Lemma HandleSSLErrors_keeps_entries (s : CFReadStream) (w : World)
    (dict : gmap string CFValue) (key : string) (v : CFValue) :
  gSSLPropertiesDict w = Some dict ->
  dict !! key = Some v ->
  exists dict',
    gSSLPropertiesDict (HandleSSLErrors s w).2 = Some dict'
    /\ is_Some (dict' !! key)
    /\ (key ∈ class_keys -> dict' !! key = Some v).
Proof.
  intros Hdict Hkey.
  unfold HandleSSLErrors, ConfirmCertificate, CFReadStreamGetError.
  rewrite Hdict.
  repeat case_match; simplify_eq/=; try (exists dict; by eauto).
  all: repeat match goal with
         | H : _ && _ = true |- _ => apply andb_true_iff in H as [H ?]
         | H : value_is_NULL _ _ = true |- _ => apply value_is_NULL_true in H
         end.
  all: eexists; split; [reflexivity|].
  all: split; [|intros Hin].
  all: repeat match goal with
         | |- context [<[?k := _]> _ !! ?k'] =>
             destruct (decide (k = k')) as [<- | ?];
             [rewrite lookup_insert_eq | rewrite lookup_insert_ne by done]
         end; eauto; try congruence.
  all: exfalso; revert Hin; unfold class_keys; rewrite !elem_of_cons, elem_of_nil;
    intuition discriminate.
Qed.

End Negotiator.

(** C6, as the code has it.  Once the property bag holds the entry of a
    certificate fault class (expired certificates allowed, chain validation
    switched off, any root allowed), a later error of that class that is not
    taken for a reason to fall back from TLS to SSL (the SSL level is pinned
    already, or the code lies outside the fall back ranges) does not call the
    certificate UI and is not retried: [HandleSSLErrors] leaves the world,
    the bag with it, as it is and returns EIO.  Once the SSL level is pinned,
    an error in the fall back ranges that is none of the certificate codes
    gets the same answer.  No call removes an entry from the bag, and the
    four entries that stand for a fault class keep their value.  The codes
    of SecureTransport are a parameter; as in C, the labels of the [switch]
    are taken to be distinct. *)
Theorem ssl_override_is_final {codes : SecureTransport} (s : CFReadStream)
    (w : World) (dict : gmap string CFValue) :
  gSSLPropertiesDict w = Some dict ->
  (forall k,
      NoDup certificate_codes ->
      is_Some (dict !! class_key k) ->
      in_class k (error (streamError s)) ->
      handled_in_class k dict (error (streamError s)) ->
      HandleSSLErrors s w = (EIO, w))
  /\ (forall key v,
        dict !! key = Some v ->
        exists dict',
          gSSLPropertiesDict (HandleSSLErrors s w).2 = Some dict'
          /\ is_Some (dict' !! key)
          /\ (key ∈ class_keys -> dict' !! key = Some v)).
Proof.
  intros Hdict. split.
  - intros k Hdistinct Hset Hclass Hhandled.
    by eapply HandleSSLErrors_not_again.
  - intros key v. by apply HandleSSLErrors_keeps_entries.
Qed.

Lemma ssl_override_is_final_witness :
  @HandleSSLErrors SecureTransport_h (ssl_failure (-9814))
    (test_world (Some expired_accepted) [] [true])
  = (EIO, test_world (Some expired_accepted) [] [true])
  /\ exists dict',
      gSSLPropertiesDict
        (@HandleSSLErrors SecureTransport_h (ssl_failure (-9814))
           (test_world (Some expired_accepted) [] [true])).2 = Some dict'
      /\ is_Some (dict' !! kCFStreamSSLLevel)
      /\ (kCFStreamSSLLevel ∈ class_keys ->
          dict' !! kCFStreamSSLLevel = Some kCFStreamSocketSecurityLevelSSLv3).
Proof.
  pose proof (@ssl_override_is_final SecureTransport_h (ssl_failure (-9814))
                (test_world (Some expired_accepted) [] [true]) expired_accepted
                eq_refl) as [Hfinal Hkept].
  split.
  - apply (Hfinal ExpiredFault).
    + unfold certificate_codes. simpl.
      repeat (apply NoDup_cons; split;
              [rewrite ?not_elem_of_cons; repeat split; try lia; apply not_elem_of_nil|]).
      apply NoDup_nil_2.
    + by eexists.
    + by left.
    + left. by eexists.
  - by apply Hkept.
Defined.

(** C6 as stated does not hold with the codes of SecureTransport.h: the code
    for a host name mismatch, -9843, lies in the last fall back range
    (-9849, -9832].  With chain validation already switched off and the SSL
    level not yet pinned, a host name mismatch is answered by the fall back:
    the bag changes and the result is EAGAIN, not EIO.  With the SSL level
    pinned, the same error, which is in the fall back ranges, calls the
    certificate UI. *)
Lemma hostname_mismatch_is_retried :
  let bag : gmap string CFValue :=
    {[ kCFStreamSSLValidatesCertificateChain := kCFBooleanFalse ]} in
  let pinned : gmap string CFValue :=
    {[ kCFStreamSSLLevel := kCFStreamSocketSecurityLevelSSLv3 ]} in
  let w := test_world (Some bag) [] [true] in
  let w' := test_world (Some pinned) [] [true] in
  let s := ssl_failure (@errSSLHostNameMismatch SecureTransport_h) in
  (is_Some (bag !! class_key ChainFault)
   /\ @in_class SecureTransport_h ChainFault (error (streamError s))
   /\ (@HandleSSLErrors SecureTransport_h s w).1 = EAGAIN
   /\ gSSLPropertiesDict (@HandleSSLErrors SecureTransport_h s w).2 <> Some bag)
  /\ (is_Some (pinned !! class_key ProtocolFault)
      /\ @in_class SecureTransport_h ProtocolFault (error (streamError s))
      /\ (@HandleSSLErrors SecureTransport_h s w').1 = EAGAIN
      /\ log (@HandleSSLErrors SecureTransport_h s w').2
         = [ConfirmCertificateCalled (-9843)]).
Proof.
  cbv zeta. split.
  - split; [by eexists|]. split; [by right; right|].
    split; [reflexivity|].
    intros H. vm_compute in H. discriminate.
  - split; [by eexists|]. split; [reflexivity|].
    split; reflexivity.
Qed.

(** ** EPIPE *)

Lemma may_transact_check w :
  may_transact w ->
  gSuppressAllUI (config w) && negb (is_up (get_connectionstate w)) = false.
Proof.
  unfold get_connectionstate. intros [-> | ->]; [done|]. apply andb_false_r.
Qed.

Lemma stream_error_result_EPIPE retry w :
  exists w',
    stream_error_result retry EPIPE_error w
    = (if retry then EAGAIN else ENXIO, false, w')
    /\ (retry = false -> connectionstate w' = WEBDAV_CONNECTION_DOWN)
    /\ incoming w' = incoming w.
Proof. destruct retry; eexists; (split; [reflexivity|done]). Qed.

Section EPIPE.
Context {codes : SecureTransport}.




Lemma close_and_release_connectionstate slot w :
  connectionstate (close_and_release slot w) = connectionstate w.
Proof. reflexivity. Qed.




End EPIPE.

Section Flag.
Context {codes : SecureTransport}.




End Flag.



(** ** The GET variant: the first bytes and the hand-off *)

Lemma CFReadStreamRead_count s bufferLength bytesRead bytes s' :
  CFReadStreamRead s bufferLength = (bytesRead, bytes, s') ->
  0 <= bytesRead ->
  bytesRead = Z.of_nat (length bytes).
Proof.
  unfold CFReadStreamRead.
  destruct (events s) as [|[chunk|e] rest].
  - by intros [= <- <- <-].
  - destruct (length chunk <=? Z.to_nat bufferLength)%nat eqn:Hle.
    + by intros [= <- <- <-].
    + intros [= <- <- <-] _. apply Nat.leb_gt in Hle.
      rewrite length_take. lia.
  - intros [= <- <- <-]. lia.
Qed.

Lemma read_first_unroll len s buffer totalRead :
  read_first len s buffer totalRead =
  let '(bytesRead, bytes, s') := CFReadStreamRead s (len - totalRead) in
  if 0 <? bytesRead then
    if len <=? totalRead + bytesRead
    then FirstRead (buffer ++ bytes) (totalRead + bytesRead) (negb (atEnd s')) s'
    else read_first len s' (buffer ++ bytes) (totalRead + bytesRead)
  else if bytesRead =? 0 then FirstRead buffer totalRead false s'
       else FirstReadFailed s'.
Proof.
  funelim (read_first len s buffer totalRead).
  all: match goal with E : CFReadStreamRead _ _ = _ |- _ => rewrite E end;
    match goal with E : (0 <? _) = _ |- _ => rewrite E end; reflexivity.
Qed.

(** The bytes in the buffer are [totalRead] many. *)
Lemma read_first_length len s buffer totalRead buffer' totalRead' background_load s' :
  totalRead = Z.of_nat (length buffer) ->
  read_first len s buffer totalRead = FirstRead buffer' totalRead' background_load s' ->
  totalRead' = Z.of_nat (length buffer').
Proof.
  revert buffer totalRead.
  induction s as [s IH] using (induction_ltof1 _ stream_weight).
  intros buffer totalRead Hlen. rewrite read_first_unroll.
  destruct (CFReadStreamRead s (len - totalRead)) as [[bytesRead bytes] s1] eqn:Hread.
  destruct (Z.ltb_spec 0 bytesRead) as [Hpos|Hneg].
  - pose proof (CFReadStreamRead_count _ _ _ _ _ Hread ltac:(lia)) as Hcount.
    assert (Hnew : totalRead + bytesRead = Z.of_nat (length (buffer ++ bytes)))
      by (rewrite length_app; lia).
    destruct (len <=? totalRead + bytesRead).
    + by intros [= <- <- <- <-].
    + apply IH; [|done]. unfold ltof.
      eapply CFReadStreamRead_weight; done.
  - destruct (bytesRead =? 0); [|done]. by intros [= <- <- <- <-].
Qed.

Lemma get_ReadStreamRec_scan_bound slots index result i :
  get_ReadStreamRec_scan slots index result = Some i ->
  result = Some i \/ (index <= i < index + length slots)%nat.
Proof.
  revert index result.
  induction slots as [|r rest IH]; intros index result; simpl; [by left|].
  destruct (inUse r); simpl.
  - intros [?|?]%IH; [by left | right; lia].
  - destruct (readStreamRef r).
    + intros [= <-]. right. lia.
    + intros [H|?]%IH; [|right; lia].
      destruct result; [by left|]. injection H as <-. right. lia.
Qed.

Section Get.
Context {codes : SecureTransport}.

Lemma HandleSSLErrors_files s w :
  files (HandleSSLErrors s w).2 = files w
  /\ config (HandleSSLErrors s w).2 = config w.
Proof.
  unfold HandleSSLErrors, ConfirmCertificate.
  repeat case_match; simplify_eq/=; done.
Qed.

(** Opening the stream leaves the cache files and the configuration alone;
    when it succeeds the slot it returns is marked in use and holds the
    stream, and [*retryTransaction] is as before. *)
Lemma open_stream_for_transaction_world request fdStream auto_redirect retry w
    o retry' w' :
  open_stream_for_transaction request fdStream auto_redirect retry w
  = (o, retry', w') ->
  files w' = files w /\ config w' = config w
  /\ forall slot s,
      o = Success (slot, s) ->
      retry' = retry
      /\ exists r, gReadStreams w' !! slot = Some r
                   /\ inUse r = true /\ readStreamRef r = Some s.
Proof.
  unfold open_stream_for_transaction, CFReadStreamCreate, get_ReadStreamRec,
    stream_error_result.
  intros H.
  repeat (case_match; simplify_eq/=); try done.
  all: repeat match goal with
         | H : HandleSSLErrors ?s ?w = (_, ?w1) |- _ =>
             let E := fresh in
             pose proof (HandleSSLErrors_files s w) as E; rewrite H in E;
             simpl in E; destruct E; clear H
         end; simpl in *; try (repeat split; congruence).
  all: split; [done|split; [done|]]; intros ? ? [= <- <-]; (split; [done|]).
  all: match goal with
       | H : get_ReadStreamRec_scan _ _ _ = Some ?n |- _ =>
           apply get_ReadStreamRec_scan_bound in H as [?|Hn]; [done|];
           destruct (lookup_lt_is_Some_2 (gReadStreams w) n ltac:(simpl in Hn; lia))
             as [r0 Hr0]
       end.
  all: eexists; rewrite !list_lookup_alter, Hr0, !decide_True by done; done.
Qed.

End Get.

Lemma write_first_bytes_200 node buffer totalRead background_load w f :
  files w !! file_fd node = Some f ->
  cache_file_writable w totalRead ->
  totalRead = Z.of_nat (length buffer) ->
  write_first_bytes 200 node buffer totalRead background_load w
  = (true, background_load,
     with_files w (<[file_fd node := {| data := buffer; position := totalRead;
                                        flags := 0 |}]> (files w))).
Proof.
  intros Hf (Hflags & Htrunc & Hset & _ & Hwrite) ->.
  unfold write_first_bytes, fchflags, ftruncate, lseek, write. simpl.
  rewrite Hf, Hflags. simpl. rewrite lookup_insert_eq, Htrunc. simpl.
  rewrite lookup_insert_eq, Hset. simpl.
  rewrite lookup_insert_eq, Hwrite.
  destruct (Z.ltb_spec (Z.of_nat (length buffer)) 0); [lia|].
  rewrite Nat2Z.id, !firstn_all, Z.eqb_refl. simpl.
  rewrite !insert_insert_eq. unfold write_at. simpl.
  rewrite drop_nil, app_nil_r. reflexivity.
Qed.

Lemma write_first_bytes_206 node buffer totalRead background_load w f :
  files w !! file_fd node = Some f ->
  cache_file_writable w totalRead ->
  totalRead = Z.of_nat (length buffer) ->
  write_first_bytes 206 node buffer totalRead background_load w
  = (true, background_load,
     with_files w
       (<[file_fd node := {| data := data f ++ buffer;
                             position := Z.of_nat (length (data f)) + totalRead;
                             flags := 0 |}]> (files w))).
Proof.
  intros Hf (Hflags & _ & _ & Hend & Hwrite) ->.
  assert (Hlt : forall n : nat, (Z.of_nat n <? 0) = false)
    by (intros n; apply Z.ltb_ge; lia).
  unfold write_first_bytes, fchflags, lseek, write. simpl.
  rewrite Hf, Hflags. simpl. rewrite lookup_insert_eq, Hend. simpl.
  rewrite Z.add_0_r, !Hlt. simpl. rewrite lookup_insert_eq, Hwrite, Hlt.
  rewrite Nat2Z.id, !firstn_all, Hlt.
  rewrite !insert_insert_eq. unfold write_at. simpl.
  rewrite Nat2Z.id, firstn_all, Nat.sub_diag. simpl.
  rewrite drop_ge by lia. rewrite app_nil_r. reflexivity.
Qed.

Lemma write_first_bytes_other code node buffer totalRead background_load w :
  code <> 200 -> code <> 206 ->
  write_first_bytes code node buffer totalRead background_load w = (true, false, w).
Proof.
  intros H200 H206. unfold write_first_bytes.
  destruct (Z.eqb_spec code 200); [done|].
  destruct (Z.eqb_spec code 206); [done|].
  by destruct (code =? 304).
Qed.

(** C4.  Once the first bytes of the response have been read and its header
    is there, what [stream_get_transaction] does to the cache file follows
    the status code.  On 200 the file is cut to length 0 and the bytes read
    are written from offset 0: the file then holds exactly these bytes.  On
    206 the bytes read are written at the end of the file.  (Both provided
    that no call on the file fails and [write] takes all the bytes.)  On 304
    and on every other status nothing is done to the cache file, the
    download status of the node becomes FINISHED and the call succeeds. *)
Theorem cache_write_follows_status {codes : SecureTransport}
    (request : CFHTTPMessage) (retry : bool) (node : node_entry) (w : World)
    (slot : nat) (w1 : World) (buffer : list ascii) (totalRead : Z)
    (background_load : bool) (s' : CFReadStream) (response : CFHTTPMessage)
    (f : CacheFile) :
  get_reads_first request retry w slot w1
    (FirstRead buffer totalRead background_load s') ->
  responseHeader s' = Some response ->
  files w !! file_fd node = Some f ->
  exists o node' w',
    stream_get_transaction request retry node w = (o, retry, node', w')
    /\ (statusCode response = 200 -> cache_file_writable w totalRead ->
        exists f', files w' !! file_fd node = Some f'
                   /\ data f' = buffer /\ position f' = totalRead)
    /\ (statusCode response = 206 -> cache_file_writable w totalRead ->
        exists f', files w' !! file_fd node = Some f'
                   /\ data f' = data f ++ buffer
                   /\ position f' = Z.of_nat (length (data f)) + totalRead)
    /\ (statusCode response <> 200 -> statusCode response <> 206 ->
        o = Success response /\ files w' = files w
        /\ file_status node' = WEBDAV_DOWNLOAD_FINISHED).
Proof.
  intros (Hmay & s & Hopen & Hmalloc & Hread) Hresponse Hf.
  pose proof (read_first_length _ _ _ _ _ _ _ _ eq_refl Hread) as Hlen.
  destruct (open_stream_for_transaction_world _ _ _ _ _ _ _ _ Hopen)
    as (Hfiles & Hconfig & _).
  destruct (stream_get_transaction request retry node w)
    as [[[o retry'] node'] w'] eqn:Hrun.
  unfold stream_get_transaction in Hrun.
  rewrite (may_transact_check w Hmay), Hopen, Hmalloc, Hread in Hrun.
  unfold CFReadStreamCopyProperty_ResponseHeader,
    CFHTTPMessageGetResponseStatusCode in Hrun. rewrite Hresponse in Hrun.
  set (w2 := set_slot_stream slot (Some s') w1) in *.
  assert (Hf2 : files w2 !! file_fd node = Some f) by (by rewrite <-Hfiles in Hf).
  assert (Hw2 : forall n, cache_file_writable w n -> cache_file_writable w2 n).
  { unfold cache_file_writable. change (config w2) with (config w1).
    by rewrite Hconfig. }
  assert (retry' = retry) as ->.
  { destruct (write_first_bytes _ _ _ _ _ _) as [[ok bl] w3].
    repeat (case_match; simplify_eq/=); done. }
  exists o, node', w'. split; [done|].
  split; [|split].
  - (* 200 *)
    intros H200 Hok.
    rewrite H200, (write_first_bytes_200 _ _ _ _ _ f Hf2 (Hw2 _ Hok) Hlen) in Hrun.
    unfold fchflags, requestqueue_enqueue_download in Hrun. simpl in Hrun.
    rewrite lookup_insert_eq in Hrun.
    repeat (case_match; simplify_eq/=); rewrite ?lookup_insert_eq; by eexists.
  - (* 206 *)
    intros H206 Hok.
    rewrite H206, (write_first_bytes_206 _ _ _ _ _ f Hf2 (Hw2 _ Hok) Hlen) in Hrun.
    unfold fchflags, requestqueue_enqueue_download in Hrun. simpl in Hrun.
    rewrite lookup_insert_eq in Hrun.
    repeat (case_match; simplify_eq/=); rewrite ?lookup_insert_eq; by eexists.
  - (* 304 and the rest *)
    intros H200 H206.
    rewrite write_first_bytes_other in Hrun by done. simpl in Hrun.
    injection Hrun as <- <- <-.
    split; [done|]. split; [|done].
    destruct (slot_connectionClose _ _); simpl; done.
Qed.

Lemma downloads_enqueued_app evs evs' :
  downloads_enqueued (evs ++ evs') = downloads_enqueued evs ++ downloads_enqueued evs'.
Proof. apply flat_map_app. Qed.

Section HandOff.
Context {codes : SecureTransport}.

Lemma HandleSSLErrors_downloads s w :
  downloads_enqueued (log (HandleSSLErrors s w).2) = downloads_enqueued (log w).
Proof.
  unfold HandleSSLErrors, ConfirmCertificate.
  repeat case_match; simplify_eq/=; rewrite ?downloads_enqueued_app, ?app_nil_r;
    done.
Qed.

Lemma open_stream_for_transaction_downloads request fdStream auto_redirect retry
    w o retry' w' :
  open_stream_for_transaction request fdStream auto_redirect retry w
  = (o, retry', w') ->
  downloads_enqueued (log w') = downloads_enqueued (log w).
Proof.
  unfold open_stream_for_transaction, CFReadStreamCreate, get_ReadStreamRec,
    stream_error_result.
  intros H.
  repeat (case_match; simplify_eq/=); try done.
  all: repeat match goal with
         | H : HandleSSLErrors ?s ?w = (_, ?w1) |- _ =>
             let E := fresh in
             pose proof (HandleSSLErrors_downloads s w) as E; rewrite H in E;
             simpl in E; clear H
         end; simpl in *;
    rewrite ?downloads_enqueued_app, ?app_nil_r in *; simpl in *;
    rewrite ?app_nil_r in *; congruence.
Qed.

End HandOff.

(** C3, as the code has it.  When the first [first_read_len] bytes have been
    read, more bytes remain, the status code of the response is 200 or 206,
    and neither a call on the cache file nor the request queue fails, then
    [stream_get_transaction] returns success with the download status of the
    node IN_PROGRESS and the cache file flagged UF_NODUMP; in this call
    [requestqueue_enqueue_download] is called once, with the node and the
    slot of the stream, and the slot is not released: it is still marked in
    use and holds the stream. *)
Theorem background_download_hand_off {codes : SecureTransport}
    (request : CFHTTPMessage) (retry : bool) (node : node_entry) (w : World)
    (slot : nat) (w1 : World) (buffer : list ascii) (totalRead : Z)
    (s' : CFReadStream) (response : CFHTTPMessage) (f : CacheFile) :
  get_reads_first request retry w slot w1 (FirstRead buffer totalRead true s') ->
  responseHeader s' = Some response ->
  statusCode response = 200 \/ statusCode response = 206 ->
  files w !! file_fd node = Some f ->
  cache_file_writable w totalRead ->
  hand_off_accepted w ->
  exists w',
    stream_get_transaction request retry node w
    = (Success response, retry,
       with_file_status node WEBDAV_DOWNLOAD_IN_PROGRESS, w')
    /\ (exists f', files w' !! file_fd node = Some f' /\ flags f' = UF_NODUMP)
    /\ downloads_enqueued (log w')
       = downloads_enqueued (log w) ++ [(fileid node, slot)]
    /\ (exists r, gReadStreams w' !! slot = Some r
                  /\ inUse r = true /\ readStreamRef r = Some s').
Proof.
  intros (Hmay & s & Hopen & Hmalloc & Hread) Hresponse Hstatus Hf Hok
    (Hnodump & Henqueue).
  pose proof (read_first_length _ _ _ _ _ _ _ _ eq_refl Hread) as Hlen.
  pose proof (open_stream_for_transaction_downloads _ _ _ _ _ _ _ _ Hopen) as Hlog.
  destruct (open_stream_for_transaction_world _ _ _ _ _ _ _ _ Hopen)
    as (Hfiles & Hconfig & Hslot).
  destruct (Hslot slot s eq_refl) as (_ & r & Hr & HinUse & _).
  unfold stream_get_transaction.
  rewrite (may_transact_check w Hmay), Hopen, Hmalloc, Hread.
  unfold CFReadStreamCopyProperty_ResponseHeader,
    CFHTTPMessageGetResponseStatusCode. rewrite Hresponse.
  set (w2 := set_slot_stream slot (Some s') w1).
  assert (Hf2 : files w2 !! file_fd node = Some f) by (by rewrite <-Hfiles in Hf).
  assert (Hok2 : cache_file_writable w2 totalRead).
  { unfold cache_file_writable. change (config w2) with (config w1).
    by rewrite Hconfig. }
  rewrite <-Hconfig in Hnodump, Henqueue.
  assert (Hwritten : exists f3,
    write_first_bytes (statusCode response) node buffer totalRead true w2
    = (true, true, with_files w2 (<[file_fd node := f3]> (files w2)))).
  { destruct Hstatus as [-> | ->].
    - rewrite (write_first_bytes_200 _ _ _ _ _ f Hf2 Hok2 Hlen). by eexists.
    - rewrite (write_first_bytes_206 _ _ _ _ _ f Hf2 Hok2 Hlen). by eexists. }
  destruct Hwritten as (f3 & ->). subst w2.
  unfold fchflags, requestqueue_enqueue_download. simpl.
  rewrite lookup_insert_eq, Hnodump. simpl. rewrite Henqueue. simpl.
  eexists. split; [reflexivity|]. simpl.
  split; [|split].
  - rewrite lookup_insert_eq. by eexists.
  - rewrite downloads_enqueued_app, Hlog. reflexivity.
  - eexists. rewrite !list_lookup_alter, Hr, !decide_True by done. done.
Qed.

Lemma background_download_hand_off_witness :
  exists slot s' w',
    @stream_get_transaction SecureTransport_h test_request true test_node
      (test_world None [Some (long_response 200)] [])
    = (Success (response_with_status 200), true,
       with_file_status test_node WEBDAV_DOWNLOAD_IN_PROGRESS, w')
    /\ (exists f', files w' !! file_fd test_node = Some f' /\ flags f' = UF_NODUMP)
    /\ downloads_enqueued (log w') = [] ++ [(fileid test_node, slot)]
    /\ (exists r, gReadStreams w' !! slot = Some r
                  /\ inUse r = true /\ readStreamRef r = Some s').
Proof.
  eexists _, _.
  eapply (@background_download_hand_off SecureTransport_h test_request true
            test_node (test_world None [Some (long_response 200)] [])
            _ _ (replicate 4096 "x"%char) 4096 _ (response_with_status 200)
            stale_file).
  - split; [by left|]. eexists. split; [vm_compute; reflexivity|].
    split; [reflexivity|]. vm_compute. reflexivity.
  - reflexivity.
  - by left.
  - reflexivity.
  - by repeat split.
  - by split.
Defined.

(** C3 as stated does not hold: a 404 whose body is longer than
    [first_read_len] leaves bytes to read after the first read, and yet
    nothing is handed off: the status is set to FINISHED, the request queue
    is not called and the slot is released. *)
Lemma error_body_is_not_handed_off :
  let w := test_world None [Some (long_response 404)] [] in
  (exists slot w1 buffer s',
      @get_reads_first SecureTransport_h test_request true w slot w1
        (FirstRead buffer 4096 true s'))
  /\ let '(o, _, node', w') :=
       @stream_get_transaction SecureTransport_h test_request true test_node w in
     o = Success (response_with_status 404)
     /\ file_status node' = WEBDAV_DOWNLOAD_FINISHED
     /\ downloads_enqueued (log w') = []
     /\ inUse <$> gReadStreams w' !! 0%nat = Some false.
Proof.
  cbv zeta. split.
  - eexists _, _, _, _. split; [by left|]. eexists.
    split; [vm_compute; reflexivity|].
    split; [reflexivity|]. vm_compute. reflexivity.
  - vm_compute. done.
Qed.

Lemma cache_write_follows_status_witness :
  exists o node' w',
    @stream_get_transaction SecureTransport_h test_request true test_node
      (test_world None [Some (short_response 200)] [])
    = (o, true, node', w')
    /\ (statusCode (response_with_status 200) = 200 ->
        cache_file_writable (test_world None [Some (short_response 200)] []) 5 ->
        exists f', files w' !! file_fd test_node = Some f'
                   /\ data f' = cstr "hello" /\ position f' = 5)
    /\ (statusCode (response_with_status 200) = 206 ->
        cache_file_writable (test_world None [Some (short_response 200)] []) 5 ->
        exists f', files w' !! file_fd test_node = Some f'
                   /\ data f' = data stale_file ++ cstr "hello"
                   /\ position f' = Z.of_nat (length (data stale_file)) + 5)
    /\ (statusCode (response_with_status 200) <> 200 ->
        statusCode (response_with_status 200) <> 206 ->
        o = Success (response_with_status 200)
        /\ files w' = files (test_world None [Some (short_response 200)] [])
        /\ file_status node' = WEBDAV_DOWNLOAD_FINISHED).
Proof.
  eapply (@cache_write_follows_status SecureTransport_h test_request true
            test_node (test_world None [Some (short_response 200)] [])
            _ _ (cstr "hello") 5 _ _ (response_with_status 200) stale_file).
  - split; [by left|]. eexists. split; [vm_compute; reflexivity|].
    split; [reflexivity|]. vm_compute. reflexivity.
  - reflexivity.
  - reflexivity.
Defined.

(** The three rows of C4 on the scripted transport: the cache file, which
    held "stale", after a 200, a 206 and a 304 that each carry "hello". *)
Lemma cache_file_after_200_206_304 :
  let file_after (code : Z) :=
    data <$>
      files (@stream_get_transaction SecureTransport_h test_request true test_node
               (test_world None [Some (short_response code)] [])).2
      !! file_fd test_node in
  file_after 200 = Some (cstr "hello")
  /\ file_after 206 = Some (cstr "stalehello")
  /\ file_after 304 = Some (cstr "stale").
Proof. vm_compute. done. Qed.

(** ** The URL builder *)

Lemma c_chars_no_NUL bytes : Forall (fun c => c <> NUL) (c_chars bytes).
Proof.
  induction bytes as [|c rest IH]; simpl; [constructor|].
  destruct (ceq c NUL) eqn:Hc; [constructor|].
  constructor; [by apply ceq_false|done].
Qed.

Lemma c_chars_id bytes : Forall (fun c => c <> NUL) bytes -> c_chars bytes = bytes.
Proof.
  induction 1 as [|c rest Hc _ IH]; simpl; [done|].
  apply ceq_false in Hc. by rewrite Hc, IH.
Qed.

Lemma c_chars_idemp bytes : c_chars (c_chars bytes) = c_chars bytes.
Proof. apply c_chars_id, c_chars_no_NUL. Qed.

Lemma deref_c_chars bytes : ceq (deref bytes) NUL = true <-> c_chars bytes = [].
Proof.
  destruct bytes as [|c rest]; simpl; [done|].
  destruct (ceq c NUL); split; done.
Qed.

(** The path the code hands to CoreFoundation: the path of the node and the
    bytes of the name. *)
Lemma node_path_chars (path : cstring) (name : option cstring) (name_length : Z) :
  c_chars match name with
          | Some name =>
              if negb (name_length =? 0) then strncat path name name_length
              else path
          | None => path
          end
  = c_chars path ++ appended_name name name_length.
Proof.
  unfold appended_name, strncat.
  destruct name as [name|]; [|by rewrite app_nil_r].
  destruct (name_length =? 0); simpl; [by rewrite app_nil_r|].
  apply c_chars_id, Forall_app. split; apply c_chars_no_NUL.
Qed.

Lemma hex_value_digit (n : nat) : (n < 16)%nat -> hex_value (hex_digit n) = n.
Proof.
  intros Hn. do 16 (destruct n as [|n]; [reflexivity|]). lia.
Qed.

Lemma hex_digit_in (n : nat) :
  (n < 16)%nat -> hex_digit n ∈ cstr "0123456789ABCDEF".
Proof.
  intros Hn. apply list_elem_of_lookup. exists n.
  do 16 (destruct n as [|n]; [reflexivity|]). lia.
Qed.

Lemma percent_decode_escape (c : ascii) (rest : list ascii) :
  percent_decode (percent_escape c ++ rest) = c :: percent_decode rest.
Proof.
  unfold percent_escape. cbn [app percent_decode].
  change (ceq "%" "%") with true. cbn iota.
  pose proof (nat_ascii_bounded c) as Hc.
  rewrite !hex_value_digit.
  - by rewrite <-Nat.div_mod_eq, ascii_nat_embedding.
  - apply Nat.mod_upper_bound. lia.
  - apply Nat.Div0.div_lt_upper_bound. lia.
Qed.

Lemma percent_decode_kept (c : ascii) (rest : list ascii) :
  c <> "%"%char -> percent_decode (c :: rest) = c :: percent_decode rest.
Proof.
  intros Hc. apply ceq_false in Hc. cbn [percent_decode]. rewrite Hc.
  by destruct rest as [|? [|? ?]].
Qed.

(** Decoding undoes encoding, when '%' itself is among the escaped bytes. *)
Lemma percent_decode_encode (permitted : ascii -> bool)
    (additionally path : list ascii) :
  permitted "%"%char = false ->
  percent_decode (percent_encode permitted additionally path) = path.
Proof.
  intros Hpercent. unfold percent_encode.
  induction path as [|c rest IH]; [done|]. cbn [flat_map].
  destruct (permitted c && negb (bool_decide (c ∈ additionally))) eqn:Hkeep.
  - cbn [app]. rewrite percent_decode_kept, IH; [done|].
    intros ->. by rewrite Hpercent in Hkeep.
  - by rewrite percent_decode_escape, IH.
Qed.

(** An encoded path holds permitted bytes and escapes, nothing else. *)
Lemma percent_encode_bytes (permitted : ascii -> bool)
    (additionally path : list ascii) :
  Forall (encoded_byte permitted additionally)
    (percent_encode permitted additionally path).
Proof.
  unfold percent_encode. induction path as [|c rest IH]; [constructor|].
  cbn [flat_map]. apply Forall_app. split; [|done].
  destruct (permitted c && negb (bool_decide (c ∈ additionally))) eqn:Hkeep.
  - apply andb_true_iff in Hkeep as [Hp Ha].
    apply negb_true_iff, bool_decide_eq_false in Ha.
    constructor; [by left|constructor].
  - pose proof (nat_ascii_bounded c) as Hc.
    unfold percent_escape.
    apply Forall_cons_2; [right; apply list_elem_of_here|].
    apply Forall_cons_2.
    { right. apply list_elem_of_further, hex_digit_in,
        Nat.Div0.div_lt_upper_bound. lia. }
    apply Forall_cons_2; [|constructor].
    right. apply list_elem_of_further, hex_digit_in, Nat.mod_upper_bound. lia.
Qed.

(** What the builder returns, step by step. *)
Lemma create_cfurl_from_node_steps {services : URLServices}
    (node : node_entry) (name : option cstring) (name_length : Z) (w : World)
    (path : cstring) :
  nodecache_get_path_from_node node = (0, path) ->
  let relative := c_chars path ++ appended_name name name_length in
  create_cfurl_from_node node name name_length w
  = match relative with
    | [] => Some (gBaseURL (config w))
    | _ =>
        stringRef ← CFStringCreateWithCString relative;
        escaped ← CFURLCreateStringByAddingPercentEscapes stringRef None
                    (Some (CFSTR ":;?"));
        url ← CFURLCreateWithString escaped (gBaseURL (config w));
        CFURLCopyAbsoluteURL url
    end.
Proof.
  intros Hnode relative. unfold create_cfurl_from_node. rewrite Hnode.
  cbn [Z.eqb negb].
  set (node_path := match name with Some _ => _ | None => _ end).
  pose proof (node_path_chars path name name_length) as Hpath.
  fold node_path in Hpath. fold relative in Hpath. rewrite <-Hpath.
  pose proof (deref_c_chars node_path) as Hderef.
  destruct (ceq (deref node_path) NUL).
  - by rewrite (proj1 Hderef eq_refl).
  - destruct (c_chars node_path) eqn:Hc.
    { destruct Hderef as [_ Hd]. by specialize (Hd eq_refl). }
    simpl. destruct (CFStringCreateWithCString _); simpl; [|done].
    destruct (CFURLCreateStringByAddingPercentEscapes _ _ _); simpl; [|done].
    by destruct (CFURLCreateWithString _ _).
Qed.

(** C8.  Let CoreFoundation do what the specification says of it, with
    [permitted] the bytes permitted in a URL path, and let the node cache
    give the path of the node.  [create_cfurl_from_node] appends the bytes
    of the child name, if one is given with a length other than 0, to the
    path of the node.  When this relative path is empty it returns the base
    URL itself.  Otherwise the only URL it returns is the relative path,
    percent-encoded with ':', ';' and '?' escaped additionally, resolved
    against the base URL, and it does return it when no call of
    CoreFoundation returns NULL.  The encoded path holds nothing but
    permitted bytes other than ':', ';' and '?', and escapes; and, '%' not
    being permitted, it decodes back to the relative path. *)
Theorem create_cfurl_from_node_builds_url {services : URLServices}
    (permitted : ascii -> bool) (node : node_entry) (name : option cstring)
    (name_length : Z) (w : World) (path : cstring) :
  as_specified services permitted ->
  permitted "%"%char = false ->
  nodecache_get_path_from_node node = (0, path) ->
  let relative := c_chars path ++ appended_name name name_length in
  let encoded := percent_encode permitted (cstr ":;?") relative in
  (relative = [] ->
   create_cfurl_from_node node name name_length w = Some (gBaseURL (config w)))
  /\ (relative <> [] ->
      (forall url,
          create_cfurl_from_node node name name_length w = Some url ->
          url = resolve_against (gBaseURL (config w)) encoded)
      /\ (never_NULL services ->
          create_cfurl_from_node node name name_length w
          = Some (resolve_against (gBaseURL (config w)) encoded)))
  /\ Forall (encoded_byte permitted (cstr ":;?")) encoded
  /\ (forall c, c ∈ cstr ":;?" -> c ∉ encoded)
  /\ percent_decode encoded = relative.
Proof.
  intros (Hstring & Hescape & Hresolve) Hpercent Hnode relative encoded.
  pose proof (create_cfurl_from_node_steps node name name_length w path Hnode)
    as Hsteps.
  cbn zeta in Hsteps. fold relative in Hsteps.
  assert (Hurl : relative <> [] ->
                 forall url,
                   create_cfurl_from_node node name name_length w = Some url ->
                   url = resolve_against (gBaseURL (config w)) encoded).
  { intros Hne url. rewrite Hsteps.
    destruct relative as [|c rest] eqn:Hrel; [done|]. rewrite <-Hrel.
    destruct (CFStringCreateWithCString relative) as [stringRef|] eqn:Hs;
      [|done]. simpl.
    destruct (CFURLCreateStringByAddingPercentEscapes _ _ _)
      as [escaped|] eqn:He; [|done]. simpl.
    destruct (CFURLCreateWithString _ _) as [tempUrlRef|] eqn:Hu; [|done].
    simpl. intros Ha.
    rewrite (Hresolve _ _ _ _ Hu Ha), (Hescape _ _ _ He), (Hstring _ _ Hs).
    subst encoded. by rewrite Hrel. }
  split; [|split; [|split; [|split]]].
  - intros Hempty. by rewrite Hsteps, Hempty.
  - intros Hne. split; [by apply Hurl|].
    intros (Hs & He & Hu & Ha). pose proof (Hurl Hne) as Hthe.
    destruct (create_cfurl_from_node node name name_length w) as [url|] eqn:Hc.
    { by rewrite (Hthe url eq_refl). }
    exfalso. revert Hsteps.
    destruct relative as [|c rest]; [done|].
    destruct (Hs (c :: rest)) as [stringRef ->]. simpl.
    destruct (He stringRef None (Some (CFSTR ":;?"))) as [escaped ->]. simpl.
    destruct (Hu escaped (gBaseURL (config w))) as [tempUrlRef ->]. simpl.
    by destruct (Ha tempUrlRef) as [absolute ->].
  - apply percent_encode_bytes.
  - intros c Hc Hin.
    pose proof (percent_encode_bytes permitted (cstr ":;?") relative) as Hall.
    rewrite Forall_forall in Hall. destruct (Hall c Hin) as [[_ Hnot]|Hesc].
    + done.
    + revert Hc Hesc. cbn. rewrite !elem_of_cons, !elem_of_nil.
      intros [->|[->|[->|[]]]]; intros Hesc; repeat destruct Hesc as [Hesc|Hesc];
        done.
  - by apply percent_decode_encode.
Qed.

(** The bytes the stand-in for CoreFoundation permits in a URL path. *)
Lemma test_services_as_specified : as_specified test_services printable_mark.
Proof.
  split; [|split].
  - intros bytes s [= <-]. done.
  - intros s additionally escaped [= <-]. cbn. unfold percent_encode.
    apply flat_map_ext. intros c. unfold escape_char, printable_mark.
    by rewrite orb_false_r.
  - intros s base url absolute [= <-] [= <-]. done.
Qed.

Lemma create_cfurl_from_node_builds_url_witness :
  @create_cfurl_from_node test_services root_node None 0 (test_world None [] [])
  = Some (gBaseURL test_config)
  /\ @create_cfurl_from_node test_services test_node (Some (cstr ".bak")) 4
       (test_world None [] [])
     = Some {| urlString := cstr "http://h/a/docs/a%20file%3F%3Bv%3A1.bak";
               baseURL := None |}
  /\ percent_decode (cstr "docs/a%20file%3F%3Bv%3A1.bak")
     = cstr "docs/a file?;v:1.bak".
Proof.
  pose proof (@create_cfurl_from_node_builds_url test_services printable_mark
                root_node None 0 (test_world None [] []) []
                test_services_as_specified eq_refl eq_refl) as (Hbase & _).
  pose proof (@create_cfurl_from_node_builds_url test_services printable_mark
                test_node (Some (cstr ".bak")) 4 (test_world None [] [])
                (cstr "docs/a file?;v:1")
                test_services_as_specified eq_refl eq_refl)
    as (_ & Hpath & _ & _ & Hback).
  split; [by apply Hbase|]. split.
  - apply Hpath; [done|]. repeat split; intros; eexists; reflexivity.
  - exact Hback.
Defined.

(** ** UNLOCK *)

Lemma log_grows_refl Q w : log_grows Q w w.
Proof. exists []. by rewrite app_nil_r. Qed.

Lemma log_grows_trans Q w1 w2 w3 :
  log_grows Q w1 w2 -> log_grows Q w2 w3 -> log_grows Q w1 w3.
Proof.
  intros (e1 & H1 & F1) (e2 & H2 & F2). exists (e1 ++ e2).
  rewrite H2, H1, app_assoc. split; [done|]. by apply Forall_app.
Qed.

Lemma log_grows_record Q e w : Q e -> log_grows Q w (record e w).
Proof. intros He. exists [e]. split; [done|]. by constructor. Qed.

Lemma log_grows_same Q w w' : log w' = log w -> log_grows Q w w'.
Proof. intros H. exists []. by rewrite app_nil_r. Qed.

Lemma log_grows_weaken (Q Q' : Event -> Prop) w w' :
  (forall e, Q e -> Q' e) -> log_grows Q w w' -> log_grows Q' w w'.
Proof.
  intros HQ (evs & H & F). exists evs. split; [done|].
  eapply Forall_impl; eauto.
Qed.

(** Closes [log_grows Q w w'] when the log of [w'] reduces to that of [w]
    followed by events listed in the goal or known from the context. *)
Ltac log_grows_tac :=
  unfold log_grows in *; simpl in *;
  repeat match goal with
         | H : exists evs, _ /\ _ |- _ => destruct H as (? & ? & ?)
         end;
  repeat match goal with
         | H : log _ = _ |- _ => rewrite H; clear H
         end;
  rewrite <-?app_assoc;
  first [ eexists; split; [reflexivity|]
        | exists []; split; [by rewrite app_nil_r|] ];
  repeat first [ assumption
               | apply Forall_nil_2
               | apply Forall_app; split
               | apply Forall_cons; split
               | eapply Forall_impl; [eassumption|]; simpl; by auto ];
  simpl; auto.

Section Log.
Context {codes : SecureTransport}.

Lemma HandleSSLErrors_log s w : log_grows quiet w (HandleSSLErrors s w).2.
Proof.
  unfold HandleSSLErrors, ConfirmCertificate.
  repeat case_match; simplify_eq/=; log_grows_tac.
Qed.

Lemma open_stream_for_transaction_log request fdStream auto_redirect retry w
    o retry' w' :
  open_stream_for_transaction request fdStream auto_redirect retry w
  = (o, retry', w') ->
  log_grows (stream_event request) w w'.
Proof.
  unfold open_stream_for_transaction, CFReadStreamCreate, get_ReadStreamRec,
    stream_error_result.
  intros H.
  assert (Hq : forall e, quiet e -> stream_event request e) by (by left).
  repeat (case_match; simplify_eq/=).
  all: repeat match goal with
         | H : HandleSSLErrors ?s ?w = (_, ?w1) |- _ =>
             let E := fresh in
             pose proof (HandleSSLErrors_log s w) as E; rewrite H in E;
             simpl in E; clear H
         end.
  all: log_grows_tac; unfold stream_event; simpl; auto.
Qed.

End Log.

Section TransactionLog.
Context {codes : SecureTransport}.

Lemma stream_transaction_log request auto_redirect retry w o retry' w' :
  stream_transaction request auto_redirect retry w = (o, retry', w') ->
  log_grows (stream_event request) w w' /\ config w' = config w.
Proof.
  unfold stream_transaction, stream_error_result. intros H.
  destruct (open_stream_for_transaction _ _ _ _ _) as [[op r1] w1] eqn:Hopen.
  pose proof (open_stream_for_transaction_log _ _ _ _ _ _ _ _ Hopen) as Hlog.
  destruct (open_stream_for_transaction_world _ _ _ _ _ _ _ _ Hopen)
    as (_ & Hconfig & _).
  assert (Hq : forall e, quiet e -> stream_event request e) by (by left).
  repeat (case_match; simplify_eq/=).
  all: repeat match goal with
         | H : HandleSSLErrors ?s ?w = (_, ?w1) |- _ =>
             let E := fresh in
             let F := fresh in
             pose proof (HandleSSLErrors_log s w) as E;
             pose proof (HandleSSLErrors_files s w) as [_ F];
             rewrite H in E, F; simpl in E, F; clear H
         end.
  all: split; [|simpl; congruence].
  all: log_grows_tac; unfold stream_event; simpl; auto.
Qed.

Lemma authcache_apply_log uid message status responseRef w error message' w' :
  authcache_apply uid message status responseRef w = (error, message', w') ->
  log w' = log w ++ [AuthcacheApply uid status]
  /\ config w' = config w
  /\ (error = 0 -> message' = with_credentials message uid).
Proof.
  unfold authcache_apply. intros H.
  destruct (auth_results (record (AuthcacheApply uid status) w)) as [|e rest];
    simplify_eq/=; [done|].
  split; [done|]. split; [done|]. by intros ->.
Qed.

Lemma send_transaction_body_log uid url method bodyData headerCount headers
    auto_redirect l again l' :
  send_transaction_body uid url method bodyData headerCount headers auto_redirect l
  = (again, l') ->
  log_grows
    (transaction_event
       (request_sent (config (l_world l)) uid url method bodyData headerCount headers)
       uid)
    (l_world l) (l_world l')
  /\ config (l_world l') = config (l_world l).
Proof.
  unfold send_transaction_body, CFHTTPMessageCreateRequest. intros H.
  destruct (message_create_fails (plan (config (l_world l)))).
  { simplify_eq/=. split; [apply log_grows_refl|done]. }
  destruct (authcache_apply _ _ _ _ _) as [[error message] w1] eqn:Happly.
  apply authcache_apply_log in Happly as (Hlog1 & Hconfig1 & Hmessage).
  assert (Hfirst : log_grows
            (transaction_event
               (request_sent (config (l_world l)) uid url method bodyData
                  headerCount headers) uid) (l_world l) w1).
  { exists [AuthcacheApply uid (l_statusCode l)]. split; [done|].
    apply Forall_cons; split; [done|apply Forall_nil_2]. }
  destruct (error =? 0) eqn:Herror; simpl in H.
  2: { simplify_eq/=. done. }
  apply Z.eqb_eq in Herror. specialize (Hmessage Herror). subst message.
  destruct (stream_transaction _ _ _ _) as [[o retry1] w2] eqn:Hstream.
  apply stream_transaction_log in Hstream as [Hlog2 Hconfig2].
  assert (Hsecond : log_grows
            (transaction_event
               (request_sent (config (l_world l)) uid url method bodyData
                  headerCount headers) uid) (l_world l) w2).
  { eapply log_grows_trans; [exact Hfirst|].
    eapply log_grows_weaken; [|exact Hlog2].
    intros e [He| ->]; [by destruct e|]. reflexivity. }
  assert (Hconfig : config w2 = config (l_world l)) by congruence.
  destruct o as [[[buffer count] responseRef]|r].
  - by simplify_eq/=.
  - destruct (r =? EAGAIN); by simplify_eq/=.
Qed.

Lemma send_transaction_loop_log uid url method bodyData headerCount headers
    auto_redirect l :
  log_grows
    (transaction_event
       (request_sent (config (l_world l)) uid url method bodyData headerCount headers)
       uid)
    (l_world l)
    (l_world (send_transaction_loop uid url method bodyData headerCount headers
                auto_redirect l)).
Proof.
  funelim (send_transaction_loop uid url method bodyData headerCount headers
             auto_redirect l).
  - destruct (send_transaction_body_log _ _ _ _ _ _ _ _ _ _ Hbody)
      as [Hlog Hconfig].
    eapply log_grows_trans; [exact Hlog|].
    rewrite <-Hconfig. apply H.
  - match goal with
    | E : send_transaction_body _ _ _ _ _ _ _ _ = _ |- _ =>
        destruct (send_transaction_body_log _ _ _ _ _ _ _ _ _ _ E) as [Hlog _]
    end.
    exact Hlog.
Qed.

Lemma send_transaction_log uid url method bodyData headerCount headers
    auto_redirect w error buffer count response w' :
  send_transaction uid url method bodyData headerCount headers auto_redirect w
  = (error, buffer, count, response, w') ->
  log_grows
    (transaction_event
       (request_sent (config w) uid url method bodyData headerCount headers) uid)
    w w'.
Proof.
  unfold send_transaction, authcache_valid. intros H.
  match type of H with
  | context [send_transaction_loop ?a ?b ?c ?d ?e ?f ?g ?l0] =>
      pose proof (send_transaction_loop_log a b c d e f g l0) as Hloop;
      destruct (send_transaction_loop a b c d e f g l0) as [le lm lr ls lb ln lt lw]
  end.
  simpl in *.
  repeat (case_match; simplify_eq/=); try exact Hloop.
  eapply log_grows_trans; [exact Hloop|].
  eexists [_]. split; [reflexivity|].
  apply Forall_cons; split; [done|apply Forall_nil_2].
Qed.

End TransactionLog.

Lemma format_locktoken_header node w token :
  format_locktoken (file_locktoken node) w = Some token ->
  token = locktoken_header node.
Proof. unfold format_locktoken. by case_match; intros [= <-]. Qed.

Lemma request_sent_UNLOCK cfg node url :
  unlock_event node
    (StreamCreated
       (request_sent cfg (file_locktoken_uid node) url "UNLOCK" None 2
          [("Accept"%string, CFSTR "*/*");
           ("Lock-Token"%string, locktoken_header node)])).
Proof.
  unfold unlock_event, request_sent.
  change (take (Z.to_nat 2) ?l) with l.
  destruct (X_Source_Id_HeaderValue cfg); simpl.
  all: split; [done|split; [done|]]; by rewrite lookup_insert_eq.
Qed.

(** C10.  When [network_unlock] returns, the node's lock token is NULL and
    the uid that owns the lock is 0, and the rest of the node is as before,
    whatever happened: when the URL or the Lock-Token header could not be
    built the error is EIO and nothing was sent; otherwise the function
    returns what [send_transaction] returns.  Every request it issued is an
    UNLOCK that carries the credentials of [node->file_locktoken_uid] as it
    was at the call, and the node's lock token in its Lock-Token header; the
    authentication cache was asked about that uid only. *)
Theorem network_unlock_forgets_token {codes : SecureTransport}
    {services : URLServices} (node : node_entry) (w : World) :
  let '(error, node', w') := network_unlock node w in
  file_locktoken node' = None
  /\ file_locktoken_uid node' = 0
  /\ (fileid node', file_fd node', file_status node')
     = (fileid node, file_fd node, file_status node)
  /\ log_grows (unlock_event node) w w'
  /\ match create_cfurl_from_node node None 0 w,
           format_locktoken (file_locktoken node) w with
     | Some urlRef, Some lockTokenRef =>
         let '(sent, _, _, _, sent_w) :=
           send_transaction (file_locktoken_uid node) urlRef "UNLOCK" None 2
             [("Accept"%string, CFSTR "*/*"); ("Lock-Token"%string, lockTokenRef)]
             false w in
         error = sent /\ w' = sent_w
     | _, _ => error = EIO /\ w' = w
     end.
Proof.
  unfold network_unlock.
  destruct (create_cfurl_from_node node None 0 w) as [urlRef|].
  2: { repeat split. apply log_grows_refl. }
  destruct (format_locktoken (file_locktoken node) w) as [lockTokenRef|] eqn:Htoken.
  2: { repeat split. apply log_grows_refl. }
  apply format_locktoken_header in Htoken as ->.
  destruct (send_transaction _ _ _ _ _ _ _ _) as [[[[sent buffer] count] response] w']
    eqn:Hsend.
  split; [done|]. split; [done|]. split; [done|]. split; [|done].
  apply send_transaction_log in Hsend.
  eapply log_grows_weaken; [|exact Hsend].
  intros [] He; simpl in He; try done.
  subst. apply request_sent_UNLOCK.
Qed.

(** On the scripted transport: the server answers 204, and the UNLOCK went
    out once, under uid 501 and with the token of the node; the server
    answers 412, and the token is forgotten all the same. *)
Example unlock_of_test_node :
  (let '(error, node', w') :=
     @network_unlock SecureTransport_h test_services test_node
       (test_world None [Some no_content] []) in
   error = 0 /\ node' = with_locktoken test_node None 0
   /\ log w'
      = [AuthcacheApply 501 0;
         StreamCreated
           (request_sent test_config 501
              {| urlString := cstr "http://h/a/docs/a%20file%3F%3Bv%3A1";
                 baseURL := None |}
              "UNLOCK" None 2
              [("Accept"%string, CFSTR "*/*");
               ("Lock-Token"%string,
                {| characters := cstr "<opaquelocktoken:1>";
                   hasCStringPtr := false |})]);
         AuthcacheValid 501])
  /\ (let '(error, node', w') :=
        @network_unlock SecureTransport_h test_services test_node
          (test_world None [Some precondition_failed] []) in
      error = EINVAL /\ node' = with_locktoken test_node None 0
      /\ streams_created (log w') = 1%nat).
Proof. split; vm_compute; done. Qed.

(** ** The mount options *)

Lemma getmntopts_loop_unroll freed silent m0 opt flag altflag lines :
  getmntopts_loop freed silent m0 opt flag altflag lines
  = match strtok opt (cstr ",") with
    | None => (0, flag, altflag, lines)
    | Some (token, rest) =>
        match getmntopts_option freed silent m0 token flag altflag with
        | option_failed result more => (result, flag, altflag, lines ++ more)
        | option_done flag' altflag' more =>
            getmntopts_loop freed silent m0 rest flag' altflag' (lines ++ more)
        end
    end.
Proof.
  funelim (getmntopts_loop freed silent m0 opt flag altflag lines).
  - match goal with E : strtok _ _ = _ |- _ => rewrite E end. reflexivity.
  - match goal with E : strtok _ _ = _ |- _ => rewrite E end.
    match goal with E : getmntopts_option _ _ _ _ _ _ = _ |- _ => rewrite E end.
    reflexivity.
  - match goal with E : strtok _ _ = _ |- _ => rewrite E end.
    match goal with E : getmntopts_option _ _ _ _ _ _ = _ |- _ => rewrite E end.
    reflexivity.
Qed.

Ltac bits :=
  repeat first [ rewrite Z.lor_spec | rewrite Z.land_spec
               | rewrite Z.lnot_spec by done | rewrite Z.bits_0 ].

Lemma masked_0 flag : masked flag 0 0 = flag.
Proof.
  unfold masked. apply Z.bits_inj'. intros n Hn.
  rewrite Z.lor_spec, Z.land_spec, Z.lnot_spec, !Z.bits_0 by done.
  by destruct (Z.testbit flag n).
Qed.

Lemma masked_set flag m : Z.lor flag m = masked flag m m.
Proof.
  unfold masked. apply Z.bits_inj'. intros n Hn.
  rewrite !Z.lor_spec, Z.land_spec, Z.lnot_spec by done.
  by destruct (Z.testbit flag n), (Z.testbit m n).
Qed.

Lemma masked_clear flag m : Z.land flag (Z.lnot m) = masked flag m 0.
Proof.
  unfold masked. apply Z.bits_inj'. intros n Hn.
  rewrite !Z.lor_spec, Z.land_spec, Z.lnot_spec, Z.bits_0 by done.
  by destruct (Z.testbit flag n), (Z.testbit m n).
Qed.

Lemma masked_masked flag c1 s1 c2 s2 :
  masked (masked flag c1 s1) c2 s2
  = masked flag (Z.lor c1 c2) (Z.lor (Z.land s1 (Z.lnot c2)) s2).
Proof.
  unfold masked. apply Z.bits_inj'. intros n Hn.
  bits.
  by destruct (Z.testbit flag n), (Z.testbit c1 n), (Z.testbit s1 n),
    (Z.testbit c2 n), (Z.testbit s2 n).
Qed.

Lemma masked_twice flag c s : masked (masked flag c s) c s = masked flag c s.
Proof.
  unfold masked. apply Z.bits_inj'. intros n Hn.
  bits.
  by destruct (Z.testbit flag n), (Z.testbit c n), (Z.testbit s n).
Qed.

Lemma masked_testbit flag c s n :
  Z.testbit c n = false -> Z.testbit s n = false ->
  Z.testbit (masked flag c s) n = Z.testbit flag n.
Proof.
  intros Hc Hs. destruct (Z.neg_nonneg_cases n) as [Hn|Hn].
  { by rewrite !Z.testbit_neg_r. }
  unfold masked. rewrite Z.lor_spec, Z.land_spec, Z.lnot_spec, Hc, Hs by done.
  by destruct (Z.testbit flag n).
Qed.

Lemma covered_by_0 m0 P : covered_by m0 P 0.
Proof. intros n. by rewrite Z.bits_0. Qed.

Lemma covered_by_flag m0 (P : mntopt -> Prop) m :
  m ∈ m0 -> P m -> covered_by m0 P (m_flag m).
Proof. intros ?? n ?. by exists m. Qed.

Lemma covered_by_lor m0 P x y :
  covered_by m0 P x -> covered_by m0 P y -> covered_by m0 P (Z.lor x y).
Proof.
  intros Hx Hy n. rewrite Z.lor_spec. intros [?|?]%orb_true_iff; auto.
Qed.

Lemma covered_by_land m0 P x y : covered_by m0 P x -> covered_by m0 P (Z.land x y).
Proof.
  intros Hx n. rewrite Z.land_spec. intros [? _]%andb_true_iff; auto.
Qed.

Lemma scan_table_elem m0 opt m :
  scan_table m0 opt = Some m -> m ∈ m0 /\ strcasecmp opt (m_option m) = 0.
Proof.
  induction m0 as [|entry rest IH]; simpl; [done|].
  destruct (Z.eqb_spec (strcasecmp opt (m_option entry)) 0).
  - intros [= <-]. split; [left|done].
  - intros [? ?]%IH. split; [by right|done].
Qed.

Ltac effect_tac :=
  split;
  [ unfold effect_ok; simpl;
    repeat split;
    try apply covered_by_0; try (by apply covered_by_flag);
    try (intros; by repeat constructor);
    try (intros; by eauto)
  | intros flag altflag; simpl;
    rewrite ?masked_0, <-?masked_set, <-?masked_clear; reflexivity ].

(** One token: what it does does not depend on the flags it finds. *)
Lemma getmntopts_option_effect freed silent m0 token :
  exists e,
    effect_ok freed silent m0 e
    /\ forall flag altflag,
        getmntopts_option freed silent m0 token flag altflag
        = if eff_result e =? 0
          then option_done (masked flag (eff_clear e) (eff_set e))
                 (masked altflag (eff_altclear e) (eff_altset e)) (eff_lines e)
          else option_failed (eff_result e) (eff_lines e).
Proof.
  unfold getmntopts_option.
  set (prefix := if ceq (deref token) "n" && ceq (deref (drop 1 token)) "o"
                 then (1, drop 2 token) else (0, token)).
  destruct prefix as [negative opt0].
  set (opt := match strchr opt0 "=" with Some _ => _ | None => _ end).
  destruct (scan_table m0 opt) as [m|] eqn:Hscan.
  - apply scan_table_elem in Hscan as [Hin _].
    destruct (Z.eqb_spec (m_altloc m) 0) as [Halt|Halt];
      destruct (negative =? m_inverse m); simpl.
    + exists {| eff_result := 0; eff_clear := m_flag m; eff_set := m_flag m;
                eff_altclear := 0; eff_altset := 0; eff_lines := [] |}.
      effect_tac.
    + exists {| eff_result := 0; eff_clear := m_flag m; eff_set := 0;
                eff_altclear := 0; eff_altset := 0; eff_lines := [] |}.
      effect_tac.
    + exists {| eff_result := 0; eff_clear := 0; eff_set := 0;
                eff_altclear := m_flag m; eff_altset := m_flag m; eff_lines := [] |}.
      effect_tac.
    + exists {| eff_result := 0; eff_clear := 0; eff_set := 0;
                eff_altclear := m_flag m; eff_altset := 0; eff_lines := [] |}.
      effect_tac.
  - destruct (Z.eqb_spec silent 0) as [Hsilent|Hsilent].
    + exists {| eff_result := EINVAL; eff_clear := 0; eff_set := 0;
                eff_altclear := 0; eff_altset := 0;
                eff_lines := [option_not_supported freed] |}.
      effect_tac.
    + exists {| eff_result := 0; eff_clear := 0; eff_set := 0;
                eff_altclear := 0; eff_altset := 0;
                eff_lines := [option_ignored opt] |}.
      effect_tac.
Qed.

(** All the tokens: the result, the lines and the bits cleared and set
    depend on the options and the table only. *)
Lemma getmntopts_loop_effect freed silent m0 opt :
  exists e,
    effect_ok freed silent m0 e
    /\ forall flag altflag lines,
        getmntopts_loop freed silent m0 opt flag altflag lines
        = (eff_result e, masked flag (eff_clear e) (eff_set e),
           masked altflag (eff_altclear e) (eff_altset e), lines ++ eff_lines e).
Proof.
  induction opt as [opt IH] using (induction_ltof1 _ (@length ascii)).
  unfold ltof in IH.
  destruct (strtok opt (cstr ",")) as [[token rest]|] eqn:Htoken.
  - destruct (getmntopts_option_effect freed silent m0 token) as (e1 & Hok1 & Hone).
    destruct (Z.eqb_spec (eff_result e1) 0) as [Hr1|Hr1].
    + destruct (IH rest (strtok_shorter _ _ _ _ Htoken)) as (e2 & Hok2 & Hrest).
      exists {| eff_result := eff_result e2;
                eff_clear := Z.lor (eff_clear e1) (eff_clear e2);
                eff_set := Z.lor (Z.land (eff_set e1) (Z.lnot (eff_clear e2)))
                             (eff_set e2);
                eff_altclear := Z.lor (eff_altclear e1) (eff_altclear e2);
                eff_altset := Z.lor (Z.land (eff_altset e1)
                                       (Z.lnot (eff_altclear e2))) (eff_altset e2);
                eff_lines := eff_lines e1 ++ eff_lines e2 |}.
      split.
      * destruct Hok1 as (? & ? & ? & ? & Hs1 & Hn1).
        destruct Hok2 as (? & ? & ? & ? & Hs2 & Hn2).
        unfold effect_ok. simpl.
        repeat split;
          try (apply covered_by_lor; [try apply covered_by_land|]; done).
        -- by apply Hs2.
        -- apply Forall_app. split; [by apply Hs1|by apply Hs2].
        -- intros Hsilent.
           destruct (Hn1 Hsilent) as [[_ ->]|[Habs _]]; [|by rewrite Hr1 in Habs].
           by apply Hn2.
      * intros flag altflag lines.
        rewrite getmntopts_loop_unroll, Htoken, Hone.
        destruct (Z.eqb_spec (eff_result e1) 0); [|done].
        rewrite Hrest. simpl. by rewrite !masked_masked, app_assoc.
    + exists {| eff_result := eff_result e1; eff_clear := 0; eff_set := 0;
                eff_altclear := 0; eff_altset := 0; eff_lines := eff_lines e1 |}.
      split.
      * destruct Hok1 as (_ & _ & _ & _ & Hs1 & Hn1).
        unfold effect_ok. simpl.
        repeat split; try apply covered_by_0.
        -- by apply Hs1.
        -- by apply Hs1.
        -- done.
      * intros flag altflag lines.
        rewrite getmntopts_loop_unroll, Htoken, Hone.
        destruct (Z.eqb_spec (eff_result e1) 0); [done|].
        simpl. by rewrite !masked_0.
  - exists {| eff_result := 0; eff_clear := 0; eff_set := 0;
              eff_altclear := 0; eff_altset := 0; eff_lines := [] |}.
    split.
    + unfold effect_ok. simpl.
      repeat split; try apply covered_by_0; try done. intros. by left.
    + intros flag altflag lines.
      rewrite getmntopts_loop_unroll, Htoken. simpl.
      by rewrite !masked_0, app_nil_r.
Qed.

Lemma c_chars_item item : is_item item -> c_chars item = item.
Proof.
  intros H. apply c_chars_id. eapply Forall_impl; [exact H|]. by intros c [? _].
Qed.

Lemma is_item_head c (item : cstring) :
  is_item (c :: item) -> ceq c NUL = false /\ ceq c "," = false /\ is_item item.
Proof.
  intros H. apply Forall_cons in H as [[Hn Hc] ?].
  repeat split; try done; by apply ceq_false.
Qed.

Lemma comma_separated_no_NUL items :
  Forall is_item items -> Forall (fun c => c <> NUL) (comma_separated items).
Proof.
  induction 1 as [|item rest Hitem _ IH]; simpl; [done|].
  assert (Forall (fun c => c <> NUL) item).
  { eapply Forall_impl; [exact Hitem|]. by intros c [? _]. }
  destruct rest as [|item2 rest]; [done|].
  apply Forall_app. split; [done|]. by constructor.
Qed.

Lemma in_comma c : bool_decide (c ∈ cstr ",") = ceq c ",".
Proof.
  destruct (ceq c ",") eqn:Hc.
  - apply ceq_true in Hc as ->. apply bool_decide_eq_true. unfold cstr. simpl.
    by apply list_elem_of_singleton.
  - apply ceq_false in Hc. apply bool_decide_eq_false.
    unfold cstr. simpl. by rewrite list_elem_of_singleton.
Qed.

Lemma token_end_item item (more : cstring) :
  is_item item ->
  token_end (cstr ",") (item ++ more) = token_end (cstr ",") more.
Proof.
  induction item as [|c item IH]; [done|].
  intros (Hn & Hc & Hitem)%is_item_head. simpl.
  rewrite in_comma, Hn, Hc. simpl. by apply IH.
Qed.

(** What [strtok] finds at an item that is followed by a comma or by the end
    of the string. *)
Lemma strtok_item c item (more : cstring) :
  is_item (c :: item) ->
  more = [] \/ deref more = ","%char ->
  strtok ((c :: item) ++ more) (cstr ",") = Some (c :: item, drop 1 more).
Proof.
  intros Hitem Hmore.
  destruct (is_item_head _ _ Hitem) as (Hn & Hc & _).
  unfold strtok.
  assert (Hstart : skip_delimiters (cstr ",") ((c :: item) ++ more)
                   = (c :: item) ++ more).
  { simpl. by rewrite in_comma, Hn, Hc. }
  rewrite Hstart. cbn [app deref]. rewrite Hn.
  change (c :: item ++ more) with ((c :: item) ++ more).
  rewrite token_end_item by done.
  assert (Hend : token_end (cstr ",") more = more).
  { destruct Hmore as [->|Hd]; [done|].
    destruct more as [|d more]; [done|]. simpl in Hd. subst d. done. }
  rewrite Hend. unfold ptrdiff. rewrite length_app.
  replace (Z.to_nat _) with (length (c :: item)) by lia.
  rewrite take_app_length. f_equal. f_equal.
  destruct Hmore as [->|Hd]; [done|].
  destruct more as [|d more]; [done|]. simpl in Hd. subst d. done.
Qed.

Lemma strtok_comma (more : cstring) :
  strtok (","%char :: more) (cstr ",") = strtok more (cstr ",").
Proof. reflexivity. Qed.

Lemma strtok_nil : strtok [] (cstr ",") = None.
Proof. reflexivity. Qed.

(** The loop takes the items of the string in turn. *)
Lemma getmntopts_loop_items freed silent m0 items flag altflag lines :
  Forall is_item items ->
  getmntopts_loop freed silent m0 (comma_separated items) flag altflag lines
  = run_options freed silent m0 items flag altflag lines.
Proof.
  intros Hitems. revert flag altflag lines.
  induction Hitems as [|item rest Hitem Hrest IH]; intros flag altflag lines.
  { by rewrite getmntopts_loop_unroll. }
  rewrite getmntopts_loop_unroll.
  destruct item as [|c item].
  - (* an empty item *)
    destruct rest as [|item2 rest]; [done|].
    change (comma_separated ([] :: item2 :: rest))
      with (","%char :: comma_separated (item2 :: rest)).
    rewrite strtok_comma. rewrite <-getmntopts_loop_unroll. apply IH.
  - destruct rest as [|item2 rest].
    + change (comma_separated [c :: item]) with (c :: item).
      rewrite <-(app_nil_r (c :: item)), strtok_item by auto.
      rewrite app_nil_r. cbn [run_options drop].
      destruct (getmntopts_option _ _ _ _ _ _); [|done].
      by rewrite getmntopts_loop_unroll.
    + change (comma_separated ((c :: item) :: item2 :: rest))
        with ((c :: item) ++ ","%char :: comma_separated (item2 :: rest)).
      rewrite strtok_item by auto.
      cbn [run_options drop]. rewrite drop_0.
      destruct (getmntopts_option _ _ _ _ _ _); [|done].
      apply IH.
Qed.

Lemma run_options_app freed silent m0 items1 items2 flag altflag lines :
  run_options freed silent m0 (items1 ++ items2) flag altflag lines
  = let '(result, flag', altflag', lines') :=
      run_options freed silent m0 items1 flag altflag lines in
    if result =? 0 then run_options freed silent m0 items2 flag' altflag' lines'
    else (result, flag', altflag', lines').
Proof.
  revert flag altflag lines.
  induction items1 as [|item rest IH]; intros flag altflag lines; [done|].
  destruct item as [|c item]; simpl; [apply IH|].
  destruct (getmntopts_option_effect freed silent m0 (c :: item)) as (e & Hok & He).
  rewrite He. destruct (Z.eqb_spec (eff_result e) 0) as [Hr|Hr]; [apply IH|].
  simpl. by destruct (Z.eqb_spec (eff_result e) 0).
Qed.

Lemma run_options_result freed silent m0 items flag altflag lines result flag'
    altflag' lines' :
  run_options freed silent m0 items flag altflag lines = (result, flag', altflag', lines') ->
  silent <> 0 -> result = 0.
Proof.
  revert flag altflag lines.
  induction items as [|item rest IH]; intros flag altflag lines; simpl.
  { by intros [= <- _ _ _]. }
  destruct item as [|c item]; [apply IH|].
  destruct (getmntopts_option_effect freed silent m0 (c :: item)) as (e & Hok & He).
  rewrite He. destruct (Z.eqb_spec (eff_result e) 0) as [Hr|Hr]; [apply IH|].
  intros _ Hsilent. destruct Hok as (_ & _ & _ & _ & Hs & _).
  by destruct (Hs Hsilent).
Qed.

Lemma strchr_none s : Forall (fun c => c <> "="%char) s -> strchr s "=" = None.
Proof.
  induction 1 as [|c s Hc _ IH]; [done|]. simpl.
  apply ceq_false in Hc. rewrite Hc. by destruct (ceq c NUL).
Qed.

(** The name that is looked up in the table: the token cut at its first
    '='. *)
Lemma cut_at_assignment (name value : cstring) :
  Forall (fun c => c <> NUL) name ->
  match strchr (name ++ "="%char :: value) "=" with
  | Some p => take (Z.to_nat (ptrdiff p (name ++ "="%char :: value)))
                (name ++ "="%char :: value)
  | None => name ++ "="%char :: value
  end
  = match strchr name "=" with
    | Some p => take (Z.to_nat (ptrdiff p name)) name
    | None => name
    end.
Proof.
  induction 1 as [|c name Hc Hname IH].
  { simpl. unfold ptrdiff. by rewrite Z.sub_diag. }
  cbn [app strchr]. destruct (ceq c "=") eqn:Heq.
  { unfold ptrdiff. by rewrite !Z.sub_diag. }
  apply ceq_false in Hc. rewrite Hc.
  assert (Hlen : forall (p s : cstring),
             p `suffix_of` s ->
             take (Z.to_nat (ptrdiff p (c :: s))) (c :: s)
             = c :: take (Z.to_nat (ptrdiff p s)) s).
  { intros p s Hp%suffix_length. unfold ptrdiff. simpl length.
    replace (Z.to_nat (Z.of_nat (S (length s)) - Z.of_nat (length p)))
      with (S (Z.to_nat (Z.of_nat (length s) - Z.of_nat (length p)))) by lia.
    done. }
  assert (Hsuffix : forall (s p : cstring), strchr s "=" = Some p -> p `suffix_of` s).
  { clear. induction s as [|x s IH]; intros p; simpl; [done|].
    destruct (ceq x "="); [by intros [= <-]|].
    destruct (ceq x NUL); [done|]. intros ?%IH. by apply suffix_cons_r. }
  destruct (strchr (name ++ "="%char :: value) "=") as [p|] eqn:Hp;
    destruct (strchr name "=") as [q|] eqn:Hq.
  - rewrite (Hlen p _ (Hsuffix _ _ Hp)), (Hlen q _ (Hsuffix _ _ Hq)).
    by rewrite IH.
  - rewrite (Hlen p _ (Hsuffix _ _ Hp)). by rewrite IH.
  - rewrite (Hlen q _ (Hsuffix _ _ Hq)). by f_equal.
  - by f_equal.
Qed.

Lemma getmntopts_option_assignment freed silent m0 name value flag altflag :
  is_item name -> name <> [] ->
  getmntopts_option freed silent m0 (name ++ "="%char :: value) flag altflag
  = getmntopts_option freed silent m0 name flag altflag.
Proof.
  intros Hitem Hne. unfold getmntopts_option.
  assert (Hnul : Forall (fun c => c <> NUL) name).
  { eapply Forall_impl; [exact Hitem|]. by intros c [? _]. }
  set (token := name ++ "="%char :: value).
  assert (Hprefix :
            ceq (deref token) "n" && ceq (deref (drop 1 token)) "o"
            = ceq (deref name) "n" && ceq (deref (drop 1 name)) "o").
  { subst token. destruct name as [|c1 [|c2 name]]; [done| |done].
    simpl. by rewrite !andb_false_r. }
  rewrite Hprefix.
  destruct (ceq (deref name) "n" && ceq (deref (drop 1 name)) "o") eqn:Hno.
  - assert (Hdrop : drop 2 token = drop 2 name ++ "="%char :: value).
    { subst token. destruct name as [|c1 [|c2 name]]; [done| |done].
      simpl in Hno. by rewrite andb_false_r in Hno. }
    rewrite Hdrop, cut_at_assignment; [done|]. by apply Forall_drop.
  - subst token. by rewrite cut_at_assignment.
Qed.

Lemma getmntopts_option_plain freed silent m0 name m (negated : bool) flag altflag :
  is_plain_name name ->
  scan_table m0 name = Some m ->
  getmntopts_option freed silent m0 (if negated then cstr "no" ++ name else name)
    flag altflag
  = let update (thisflag : Z) : Z :=
      if Z.b2z negated =? m_inverse m then Z.lor thisflag (m_flag m)
      else Z.land thisflag (Z.lnot (m_flag m)) in
    if negb (m_altloc m =? 0) then option_done flag (update altflag) []
    else option_done (update flag) altflag [].
Proof.
  intros (Hne & Hassign & Hprefix) Hscan. unfold getmntopts_option.
  destruct negated.
  - change (cstr "no" ++ name) with ("n"%char :: "o"%char :: name).
    cbn [deref drop]. rewrite drop_0.
    replace (ceq "n" "n" && ceq "o" "o") with true by reflexivity.
    by rewrite strchr_none, Hscan.
  - assert (Hno : ceq (deref name) "n" && ceq (deref (drop 1 name)) "o" = false).
    { apply not_true_is_false. intros [H1 H2]%andb_true_iff.
      apply ceq_true in H1, H2. apply Hprefix.
      destruct name as [|c1 [|c2 name]]; simpl in *; [done..|].
      subst. by exists name. }
    by rewrite Hno, strchr_none, Hscan.
Qed.

Lemma getmntopts_items freed silent m0 items flag altflag :
  Forall is_item items ->
  getmntopts false freed silent (comma_separated items) m0 flag altflag
  = run_options freed silent m0 items flag altflag [].
Proof.
  intros Hitems. unfold getmntopts.
  rewrite c_chars_id by by apply comma_separated_no_NUL.
  by apply getmntopts_loop_items.
Qed.

(** X1.  [getmntopts] takes the items of the option string in turn, from
    left to right: an item is what stands between two commas, an empty item
    is passed over, each other item goes through the body of the loop with
    the flags the items before it have left, and the first item that fails
    ends the run. *)
Theorem getmntopts_takes_items_in_turn (freed : cstring) (getmnt_silent : Z)
    (m0 : list mntopt) (items : list cstring) (flag altflag : Z) :
  Forall is_item items ->
  getmntopts false freed getmnt_silent (comma_separated items) m0 flag altflag
  = run_options freed getmnt_silent m0 items flag altflag [].
Proof.
  apply getmntopts_items.
Qed.

Lemma getmntopts_takes_items_in_turn_witness :
  getmntopts false scribbled 1 (cstr "ro,,nosuid,bogus,dev=1") sample_table 0 0
  = run_options scribbled 1 sample_table
      [cstr "ro"; []; cstr "nosuid"; cstr "bogus"; cstr "dev=1"] 0 0 [].
Proof.
  apply (getmntopts_takes_items_in_turn scribbled 1 sample_table
           [cstr "ro"; []; cstr "nosuid"; cstr "bogus"; cstr "dev=1"] 0 0).
  repeat constructor; done.
Defined.

(** X2.  [getmntopts] changes no bit but those of the table: a bit that no
    entry for the first word has in its [m_flag] is in [*flagp] afterwards
    what it was before, and likewise for [*altflagp] and the entries with
    [m_altloc]; with a table that has no such entry [*altflagp] is not
    changed at all.  This holds whatever the result. *)
Theorem getmntopts_keeps_other_bits (malloc_fails : bool) (freed : cstring)
    (getmnt_silent : Z)
    (options : cstring) (m0 : list mntopt) (flag altflag : Z) :
  let '(_, flag', altflag', _) :=
    getmntopts malloc_fails freed getmnt_silent options m0 flag altflag in
  (forall n,
      (forall m, m ∈ m0 -> m_altloc m = 0 -> Z.testbit (m_flag m) n = false) ->
      Z.testbit flag' n = Z.testbit flag n)
  /\ (forall n,
        (forall m, m ∈ m0 -> m_altloc m <> 0 -> Z.testbit (m_flag m) n = false) ->
        Z.testbit altflag' n = Z.testbit altflag n)
  /\ ((forall m, m ∈ m0 -> m_altloc m = 0) -> altflag' = altflag).
Proof.
  unfold getmntopts. destruct malloc_fails; [done|].
  destruct (getmntopts_loop_effect freed getmnt_silent m0 (c_chars options))
    as (e & (Hc & Hs & Hac & Has & _) & ->).
  assert (Hkeep : forall (P : mntopt -> Prop) x c s n,
             covered_by m0 P c -> covered_by m0 P s ->
             (forall m, m ∈ m0 -> P m -> Z.testbit (m_flag m) n = false) ->
             Z.testbit (masked x c s) n = Z.testbit x n).
  { intros P x c s n Hcov1 Hcov2 Hnone. apply masked_testbit.
    - apply not_true_is_false. intros (m & ? & ? & Hbit)%Hcov1.
      by rewrite Hnone in Hbit.
    - apply not_true_is_false. intros (m & ? & ? & Hbit)%Hcov2.
      by rewrite Hnone in Hbit. }
  split; [|split].
  - intros n Hnone. by apply (Hkeep in_flag).
  - intros n Hnone. by apply (Hkeep in_altflag).
  - intros Hall. apply Z.bits_inj'. intros n _.
    apply (Hkeep in_altflag); [done..|].
    intros m Hin Halt. by specialize (Hall m Hin).
Qed.

Lemma getmntopts_keeps_other_bits_witness :
  let '(_, flag', _, _) :=
    getmntopts false scribbled 1 (cstr "ro,nosuid,nodev,nobrowse") sample_table 32 0 in
  Z.testbit flag' 5 = Z.testbit 32 5.
Proof.
  pose proof (getmntopts_keeps_other_bits false scribbled 1
                (cstr "ro,nosuid,nodev,nobrowse")
                sample_table 32 0) as H.
  destruct (getmntopts _ _ _ _ _ _ _) as [[[result flag'] altflag'] lines].
  destruct H as (Hflag & _ & _). apply Hflag.
  intros m Hin _. unfold sample_table in Hin.
  repeat (apply elem_of_cons in Hin as [->|Hin]; [reflexivity|]).
  by apply elem_of_nil in Hin.
Defined.

(** X3.  What [getmntopts] returns.  When the copy of the string cannot be
    allocated: ENOMEM, with the flags untouched and nothing logged.  With
    [getmnt_silent] set, as the file sets it: 0 for every option string, and
    every line logged says that an option was ignored.  With [getmnt_silent]
    zero: 0 with nothing logged, or EINVAL after one line, "option not
    supported".  That line does not name the option: the copy of the option
    string is freed before the line is written, and the line shows the
    bytes [freed] that the freed memory then holds. *)
Theorem getmntopts_result_codes (malloc_fails : bool) (freed : cstring)
    (getmnt_silent : Z) (options : cstring) (m0 : list mntopt) (flag altflag : Z) :
  let '(result, flag', altflag', lines) :=
    getmntopts malloc_fails freed getmnt_silent options m0 flag altflag in
  (malloc_fails = true ->
   result = ENOMEM /\ flag' = flag /\ altflag' = altflag /\ lines = [])
  /\ (malloc_fails = false -> getmnt_silent <> 0 ->
      result = 0 /\ Forall is_option_ignored lines)
  /\ (malloc_fails = false -> getmnt_silent = 0 ->
      (result = 0 /\ lines = [])
      \/ (result = EINVAL /\ lines = [option_not_supported freed])).
Proof.
  unfold getmntopts. destruct malloc_fails; [done|].
  destruct (getmntopts_loop_effect freed getmnt_silent m0 (c_chars options))
    as (e & (_ & _ & _ & _ & Hsilent & Hloud) & ->).
  split; [done|]. split; intros _ ?; simpl; auto.
Qed.

Lemma getmntopts_result_codes_witness :
  (let '(result, _, _, lines) :=
     getmntopts false scribbled 1 (cstr "ro,bogus,nodev") sample_table 0 0 in
   result = 0 /\ Forall is_option_ignored lines)
  /\ (let '(result, _, _, lines) :=
        getmntopts false scribbled 0 (cstr "ro,bogus,nodev") sample_table 0 0 in
      (result = 0 /\ lines = [])
      \/ (result = EINVAL /\ lines = [option_not_supported scribbled])).
Proof.
  pose proof (getmntopts_result_codes false scribbled 1 (cstr "ro,bogus,nodev")
                sample_table 0 0) as Hsilent.
  pose proof (getmntopts_result_codes false scribbled 0 (cstr "ro,bogus,nodev")
                sample_table 0 0) as Hloud.
  destruct (getmntopts false scribbled 1 _ _ _ _) as [[[r1 f1] a1] l1].
  destruct (getmntopts false scribbled 0 _ _ _ _) as [[[r2 f2] a2] l2].
  split.
  - apply Hsilent; [reflexivity|lia].
  - apply Hloud; reflexivity.
Defined.

Lemma reread_app freed lines more :
  reread freed (lines ++ more) = reread freed lines ++ reread freed more.
Proof. apply fmap_app. Qed.

(** What a run reads in the freed buffer changes the text of the line
    "option not supported" and nothing else. *)
Lemma getmntopts_option_freed freed freed' silent m0 opt flag altflag :
  getmntopts_option freed silent m0 opt flag altflag
  = match getmntopts_option freed' silent m0 opt flag altflag with
    | option_done flag' altflag' more =>
        option_done flag' altflag' (reread freed more)
    | option_failed result more => option_failed result (reread freed more)
    end.
Proof.
  unfold getmntopts_option.
  destruct (if ceq (deref opt) "n" && ceq (deref (drop 1 opt)) "o"
            then (1, drop 2 opt) else (0, opt)) as [negative opt0].
  destruct (scan_table m0 _) as [m|].
  - by destruct (negb (m_altloc m =? 0)).
  - by destruct (silent =? 0).
Qed.

Lemma getmntopts_loop_freed freed freed' silent m0 opt flag altflag lines :
  getmntopts_loop freed silent m0 opt flag altflag (reread freed lines)
  = let '(result, flag', altflag', lines') :=
      getmntopts_loop freed' silent m0 opt flag altflag lines in
    (result, flag', altflag', reread freed lines').
Proof.
  revert flag altflag lines.
  induction opt as [opt IH] using (induction_ltof1 _ (@length ascii)).
  unfold ltof in IH. intros flag altflag lines.
  rewrite (getmntopts_loop_unroll freed), (getmntopts_loop_unroll freed').
  destruct (strtok opt (cstr ",")) as [[token rest]|] eqn:Htoken; [|done].
  rewrite (getmntopts_option_freed freed freed').
  destruct (getmntopts_option freed' silent m0 token flag altflag)
    as [flag' altflag' more|result more].
  - rewrite <-reread_app. apply IH. by eapply strtok_shorter.
  - by rewrite reread_app.
Qed.

Lemma getmntopts_freed malloc_fails freed freed' silent options m0 flag altflag :
  getmntopts malloc_fails freed silent options m0 flag altflag
  = let '(result, flag', altflag', lines) :=
      getmntopts malloc_fails freed' silent options m0 flag altflag in
    (result, flag', altflag', reread freed lines).
Proof.
  unfold getmntopts. destruct malloc_fails; [done|].
  apply (getmntopts_loop_freed freed freed' silent m0 _ flag altflag []).
Qed.

(** X4.  The result and the lines logged do not depend on the flags
    [getmntopts] finds, and giving the same options a second time changes
    nothing: run again on the flags it has left, [getmntopts] returns the
    same result and leaves both words as they are.  The lines are the same
    as long as the two runs read the same bytes where the buffer was freed;
    a run that reads other bytes there differs in the text of the line
    "option not supported" and in nothing else. *)
Theorem getmntopts_twice (freed : cstring) (getmnt_silent : Z)
    (options : cstring) (m0 : list mntopt) (flag altflag : Z) :
  let '(result, flag', altflag', lines) :=
    getmntopts false freed getmnt_silent options m0 flag altflag in
  getmntopts false freed getmnt_silent options m0 flag' altflag'
  = (result, flag', altflag', lines)
  /\ (forall flag2 altflag2,
        let '(result2, _, _, lines2) :=
          getmntopts false freed getmnt_silent options m0 flag2 altflag2 in
        result2 = result /\ lines2 = lines)
  /\ (forall freed2,
        getmntopts false freed2 getmnt_silent options m0 flag' altflag'
        = (result, flag', altflag', reread freed2 lines)).
Proof.
  assert (Hother : forall freed2 f a,
             getmntopts false freed2 getmnt_silent options m0 f a
             = let '(result, flag', altflag', lines) :=
                 getmntopts false freed getmnt_silent options m0 f a in
               (result, flag', altflag', reread freed2 lines))
    by (intros; apply getmntopts_freed).
  revert Hother. unfold getmntopts.
  destruct (getmntopts_loop_effect freed getmnt_silent m0 (c_chars options))
    as (e & _ & He).
  intros Hother. rewrite !He. split; [|split].
  - by rewrite !masked_twice.
  - intros flag2 altflag2. by rewrite He.
  - intros freed2. rewrite Hother, He. by rewrite !masked_twice.
Qed.

(** X5.  The last item decides.  When the option string ends with a name of
    the table, after items that did not fail, [getmntopts] returns 0 and all
    the bits of the entry's [m_flag] are set in the word of the entry if the
    entry is not an inverse, and cleared if it is; with "no" before the
    name it is the other way round.  (An entry whose [m_inverse] is neither
    0 nor 1 has its bits cleared either way.) *)
Theorem last_option_decides (freed : cstring) (getmnt_silent : Z)
    (m0 : list mntopt) (items : list cstring) (name : cstring) (m : mntopt)
    (negated : bool) (flag altflag : Z) :
  Forall is_item items ->
  is_item name ->
  is_plain_name name ->
  scan_table m0 name = Some m ->
  (getmntopts false freed getmnt_silent (comma_separated items) m0 flag altflag).1.1.1
  = 0 ->
  let last := if negated then cstr "no" ++ name else name in
  let '(result, flag', altflag', _) :=
    getmntopts false freed getmnt_silent (comma_separated (items ++ [last])) m0
      flag altflag in
  let word := if m_altloc m =? 0 then flag' else altflag' in
  result = 0
  /\ Z.land word (m_flag m)
     = if Z.b2z negated =? m_inverse m then m_flag m else 0.
Proof.
  intros Hitems Hname Hplain Hscan Hbefore last.
  assert (Hlast : is_item last).
  { subst last. destruct negated; [|done].
    apply Forall_app. split; [|done]. by repeat constructor. }
  rewrite getmntopts_items in Hbefore by done.
  rewrite getmntopts_items
    by (apply Forall_app; split; [done|by constructor]).
  rewrite run_options_app.
  destruct (run_options freed getmnt_silent m0 items flag altflag [])
    as [[[r1 f1] a1] l1]. simpl in Hbefore. subst r1. simpl.
  assert (Hne : last <> []).
  { subst last. destruct negated; [done|]. by destruct Hplain. }
  destruct last as [|c rest] eqn:Elast; [done|]. rewrite <-Elast.
  subst last. rewrite (getmntopts_option_plain _ _ _ _ m) by done.
  assert (Hset : forall x f, Z.land (Z.lor x f) f = f).
  { intros x f. apply Z.bits_inj'. intros n Hn. bits.
    by destruct (Z.testbit x n), (Z.testbit f n). }
  assert (Hclear : forall x f, Z.land (Z.land x (Z.lnot f)) f = 0).
  { intros x f. apply Z.bits_inj'. intros n Hn. bits.
    by destruct (Z.testbit x n), (Z.testbit f n). }
  cbv zeta.
  destruct (m_altloc m =? 0), (Z.b2z negated =? m_inverse m); simpl;
    by rewrite ?Hset, ?Hclear.
Qed.

Lemma last_option_decides_witness :
  let '(result, flag', _, _) :=
    getmntopts false scribbled 1 (cstr "ro,nosuid,noro") sample_table 0 0 in
  result = 0 /\ Z.land flag' 1 = 0.
Proof.
  pose proof (last_option_decides scribbled 1 sample_table [cstr "ro"; cstr "nosuid"]
                (cstr "ro")
                {| m_option := cstr "ro"; m_inverse := 0; m_flag := 1;
                   m_altloc := 0 |}
                true 0 0) as H.
  apply H.
  - repeat constructor; done.
  - repeat constructor; done.
  - split; [done|]. split; [repeat constructor; done|].
    intros [k Hk]. discriminate Hk.
  - reflexivity.
  - vm_compute. reflexivity.
Defined.

Lemma run_options_same_item freed silent m0 before item item' after flag altflag
    lines :
  item <> [] -> item' <> [] ->
  (forall flag altflag,
      getmntopts_option freed silent m0 item flag altflag
      = getmntopts_option freed silent m0 item' flag altflag) ->
  run_options freed silent m0 (before ++ [item] ++ after) flag altflag lines
  = run_options freed silent m0 (before ++ [item'] ++ after) flag altflag lines.
Proof.
  intros Hne Hne' Hsame.
  rewrite !run_options_app.
  destruct (run_options freed silent m0 before flag altflag lines) as [[[r f] a] l].
  destruct (r =? 0); [|done].
  destruct item as [|c item]; [done|]. destruct item' as [|c' item']; [done|].
  simpl. by rewrite Hsame.
Qed.

(** X6.  An assignment is cut off before the table is searched: an item
    "name=value" does to the flags and to the result what the item "name"
    does, wherever it stands in the option string, and the same lines are
    logged, with one exception: the line "option not supported" shows what
    each run reads in the buffer it has freed, which need not be the same
    bytes in the two runs.  The name must not be empty: an item that begins
    with '=' is looked up as the empty name, while an empty item is passed
    over. *)
Theorem assignment_is_cut_off (freed freed' : cstring) (getmnt_silent : Z)
    (m0 : list mntopt) (before after : list cstring) (name value : cstring)
    (flag altflag : Z) :
  Forall is_item before ->
  Forall is_item after ->
  is_item name ->
  is_item value ->
  name <> [] ->
  getmntopts false freed getmnt_silent
    (comma_separated (before ++ [name ++ "="%char :: value] ++ after)) m0
    flag altflag
  = let '(result, flag', altflag', lines) :=
      getmntopts false freed' getmnt_silent
        (comma_separated (before ++ [name] ++ after)) m0 flag altflag in
    (result, flag', altflag', reread freed lines).
Proof.
  intros Hbefore Hafter Hname Hvalue Hne.
  assert (Hitem : is_item (name ++ "="%char :: value)).
  { apply Forall_app. split; [done|]. by constructor. }
  rewrite (getmntopts_freed false freed freed').
  rewrite !getmntopts_items
    by (apply Forall_app; split; [done|]; apply Forall_app; split;
        [by constructor|done]).
  rewrite (run_options_same_item freed' getmnt_silent m0 before
             (name ++ "="%char :: value) name after); [done| |done|].
  - by destruct name.
  - intros. by apply getmntopts_option_assignment.
Qed.

Lemma assignment_is_cut_off_witness :
  getmntopts false scribbled 0 (cstr "nosuid,bogus=yes,nodev") sample_table 0 0
  = let '(result, flag', altflag', lines) :=
      getmntopts false (cstr "bogus") 0 (cstr "nosuid,bogus,nodev") sample_table
        0 0 in
    (result, flag', altflag', reread scribbled lines).
Proof.
  apply (assignment_is_cut_off scribbled (cstr "bogus") 0 sample_table
           [cstr "nosuid"] [cstr "nodev"] (cstr "bogus") (cstr "yes") 0 0).
  - repeat constructor; done.
  - repeat constructor; done.
  - repeat constructor; done.
  - repeat constructor; done.
  - done.
Defined.

(** ** The stream slots *)

Lemma get_ReadStreamRec_scan_spec slots index result :
  match get_ReadStreamRec_scan slots index result with
  | None => result = None /\ Forall (fun r => inUse r = true) slots
  | Some i =>
      (exists k r,
          i = (index + k)%nat /\ slots !! k = Some r /\ inUse r = false
          /\ is_Some (readStreamRef r)
          /\ forall j r', (j < k)%nat -> slots !! j = Some r' ->
                          inUse r' = false -> readStreamRef r' = None)
      \/ ((forall j r', slots !! j = Some r' -> inUse r' = false ->
                        readStreamRef r' = None)
          /\ (result = Some i
              \/ (result = None
                  /\ exists k r,
                      i = (index + k)%nat /\ slots !! k = Some r
                      /\ inUse r = false
                      /\ forall j r', (j < k)%nat -> slots !! j = Some r' ->
                                      inUse r' = true)))
  end.
Proof.
  revert index result.
  induction slots as [|r rest IH]; intros index result; simpl.
  { destruct result as [i|]; [|done]. right. split; [done|]. by left. }
  destruct (inUse r) eqn:Huse; simpl.
  - specialize (IH (S index) result).
    destruct (get_ReadStreamRec_scan rest (S index) result) as [i|].
    + destruct IH as [(k & r0 & -> & Hk & Hfree & Hopen & Hbefore)
                     |(Hclosed & [->|(-> & k & r0 & -> & Hk & Hfree & Hbefore)])].
      * left. exists (S k), r0. (repeat split; try done; try lia).
        intros [|j] r' Hj Hr'; simpl in Hr'; [injection Hr' as <-; intros; congruence|].
        apply (Hbefore j); [lia|done].
      * right. split; [|by left].
        intros [|j] r' Hr'; simpl in Hr'; [injection Hr' as <-; intros; congruence|by eapply Hclosed].
      * right. split.
        { intros [|j] r' Hr'; simpl in Hr'; [injection Hr' as <-; intros; congruence|by eapply Hclosed]. }
        right. split; [done|]. exists (S k), r0. (repeat split; try done; try lia).
        intros [|j] r' Hj Hr'; simpl in Hr'; [injection Hr' as <-; intros; congruence|].
        apply (Hbefore j); [lia|done].
    + destruct IH as [-> Hall]. split; [done|]. by constructor.
  - destruct (readStreamRef r) as [s|] eqn:Hstream.
    + left. exists 0%nat, r. (repeat split; try done; try lia; try by eexists).
    + set (result' := match result with None => Some index | Some _ => result end).
      specialize (IH (S index) result').
      destruct (get_ReadStreamRec_scan rest (S index) result') as [i|].
      * destruct IH as [(k & r0 & -> & Hk & Hfree & Hopen & Hbefore)
                       |(Hclosed & Hwhich)].
        -- left. exists (S k), r0. (repeat split; try done; try lia).
           intros [|j] r' Hj Hr'; simpl in Hr'; [injection Hr' as <-; intros; congruence|].
           apply (Hbefore j); [lia|done].
        -- right. split.
           { intros [|j] r' Hr'; simpl in Hr'; [injection Hr' as <-; intros; congruence|by eapply Hclosed]. }
           destruct Hwhich as [Hres|(Hres & _)]; subst result'.
           ++ destruct result as [i0|]; [by left|]. injection Hres as <-.
              right. split; [done|]. exists 0%nat, r.
              (repeat split; try done; try lia).
           ++ by destruct result.
      * destruct IH as [Hres _]. subst result'. by destruct result.
Qed.

Lemma alter_is_insert {A : Type} (f : A -> A) (l : list A) i x :
  l !! i = Some x -> alter f i l = <[i := f x]> l.
Proof.
  intros Hx. apply list_eq. intros j.
  destruct (decide (i = j)) as [<-|Hne].
  - rewrite list_lookup_alter_eq, Hx, list_lookup_insert_eq; [done|].
    by eapply lookup_lt_Some.
  - by rewrite list_lookup_alter_ne, list_lookup_insert_ne.
Qed.

Lemma get_ReadStreamRec_lease (w : World) :
  match get_ReadStreamRec w with
  | (None, w') => w' = w /\ Forall (fun r => inUse r = true) (gReadStreams w)
  | (Some i, w') =>
      exists r,
        gReadStreams w !! i = Some r
        /\ inUse r = false
        /\ w' = with_slots w (<[i := with_inUse r true]> (gReadStreams w))
        /\ (forall j r', (j < i)%nat -> gReadStreams w !! j = Some r' ->
                         inUse r' = false ->
                         readStreamRef r' = None /\ is_Some (readStreamRef r))
        /\ (readStreamRef r = None ->
            forall j r', gReadStreams w !! j = Some r' -> inUse r' = false ->
                         readStreamRef r' = None)
  end.
Proof.
  unfold get_ReadStreamRec.
  pose proof (get_ReadStreamRec_scan_spec (gReadStreams w) 0 None) as Hscan.
  destruct (get_ReadStreamRec_scan (gReadStreams w) 0 None) as [i|]; [|by destruct Hscan].
  destruct Hscan as [(k & r & -> & Hk & Hfree & Hopen & Hbefore)
                    |(Hclosed & [?|(_ & k & r & -> & Hk & Hfree & Hbefore)])];
    [|done|]; simpl; exists r.
  - split; [done|]. split; [done|]. split; [by rewrite (alter_is_insert _ _ _ r)|].
    split.
    + intros j r' Hj Hr' Hfree'. split; [by eapply Hbefore|done].
    + intros Hnone. rewrite Hnone in Hopen. by destruct Hopen.
  - split; [done|]. split; [done|]. split; [by rewrite (alter_is_insert _ _ _ r)|].
    split.
    + intros j r' Hj Hr' Hfree'. by rewrite (Hbefore j r') in Hfree'.
    + intros _. apply Hclosed.
Qed.

(** X7.  [get_ReadStreamRec] leases a slot that was not in use.  It returns
    NULL only when every slot is in use, and then changes nothing.
    Otherwise the slot it returns was free and is now marked in use; its
    stream and every other slot are as before.  A free slot whose stream
    still looks open is preferred: the slot returned is the first of these
    if there is one, and the first free slot if there is none. *)
Theorem get_ReadStreamRec_leases_a_free_slot (w : World) :
  match get_ReadStreamRec w with
  | (None, w') => w' = w /\ Forall (fun r => inUse r = true) (gReadStreams w)
  | (Some i, w') =>
      exists r,
        gReadStreams w !! i = Some r
        /\ inUse r = false
        /\ w' = with_slots w (<[i := with_inUse r true]> (gReadStreams w))
        /\ (forall j r', (j < i)%nat -> gReadStreams w !! j = Some r' ->
                         inUse r' = false ->
                         readStreamRef r' = None /\ is_Some (readStreamRef r))
        /\ (readStreamRef r = None ->
            forall j r', gReadStreams w !! j = Some r' -> inUse r' = false ->
                         readStreamRef r' = None)
  end.
Proof. apply get_ReadStreamRec_lease. Qed.

(** X8.  A slot is leased to one holder at a time and can be leased again
    once it is released: after [get_ReadStreamRec] has returned a slot, a
    second call returns another slot or NULL; releasing the slot puts the
    in-use marks of all slots back to what they were before the lease, and a
    call after the release finds a slot. *)
Theorem slot_is_leased_to_one_holder (w : World) (i : nat) (w1 : World) :
  get_ReadStreamRec w = (Some i, w1) ->
  (get_ReadStreamRec w1).1 <> Some i
  /\ inUse <$> gReadStreams (release_ReadStreamRec i w1) = inUse <$> gReadStreams w
  /\ (get_ReadStreamRec (release_ReadStreamRec i w1)).1 <> None.
Proof.
  intros Hget.
  pose proof (get_ReadStreamRec_lease w) as H.
  rewrite Hget in H. destruct H as (r & Hr & Hfree & Hw1 & _).
  assert (Hi : (i < length (gReadStreams w))%nat) by by eapply lookup_lt_Some.
  assert (Hslots : gReadStreams w1 = <[i:=with_inUse r true]> (gReadStreams w))
    by by rewrite Hw1.
  clear Hw1 Hget.
  split; [|split].
  - pose proof (get_ReadStreamRec_lease w1) as H.
    destruct (get_ReadStreamRec w1) as [[j|] w2]; [|done].
    destruct H as (r2 & Hr2 & Hfree2 & _). simpl.
    intros [= ->]. rewrite Hslots, list_lookup_insert_eq in Hr2 by done.
    by simplify_eq/=.
  - unfold release_ReadStreamRec. simpl. rewrite Hslots.
    apply list_eq. intros j. rewrite !list_lookup_fmap.
    destruct (decide (i = j)) as [<-|Hne].
    + rewrite list_lookup_alter_eq, list_lookup_insert_eq, Hr by done. simpl.
      by rewrite Hfree.
    + by rewrite list_lookup_alter_ne, list_lookup_insert_ne.
  - pose proof (get_ReadStreamRec_lease (release_ReadStreamRec i w1)) as H.
    destruct (get_ReadStreamRec (release_ReadStreamRec i w1)) as [[j|] w2];
      [done|].
    destruct H as [_ Hall]. simpl in Hall. rewrite Hslots in Hall.
    rewrite Forall_lookup in Hall.
    specialize (Hall i (with_inUse (with_inUse r true) false)).
    rewrite list_lookup_alter_eq, list_lookup_insert_eq in Hall by done.
    by specialize (Hall eq_refl).
Qed.

Lemma slot_is_leased_to_one_holder_witness :
  let w := test_world None [] [] in
  let w1 := (get_ReadStreamRec w).2 in
  (get_ReadStreamRec w1).1 <> Some 0%nat
  /\ inUse <$> gReadStreams (release_ReadStreamRec 0 w1) = inUse <$> gReadStreams w
  /\ (get_ReadStreamRec (release_ReadStreamRec 0 w1)).1 <> None.
Proof.
  apply (slot_is_leased_to_one_holder (test_world None [] []) 0
           (get_ReadStreamRec (test_world None [] [])).2).
  reflexivity.
Defined.

(** ** The engine and the slots *)

Lemma in_use_alter_inUse w slot b :
  in_use (with_slots w (alter (fun r => with_inUse r b) slot (gReadStreams w)))
  = alter (fun _ => b) slot (in_use w).
Proof.
  unfold in_use. simpl. apply list_eq. intros j.
  rewrite list_lookup_fmap.
  destruct (decide (slot = j)) as [<-|Hne].
  - rewrite !list_lookup_alter_eq, list_lookup_fmap.
    by destruct (gReadStreams w !! slot).
  - by rewrite !list_lookup_alter_ne, list_lookup_fmap.
Qed.

Lemma in_use_release slot w :
  in_use (release_ReadStreamRec slot w) = alter (fun _ => false) slot (in_use w).
Proof. apply in_use_alter_inUse. Qed.

Lemma in_use_set_slot_stream slot s w : in_use (set_slot_stream slot s w) = in_use w.
Proof.
  unfold in_use, set_slot_stream. simpl. apply list_eq. intros j.
  rewrite !list_lookup_fmap.
  destruct (decide (slot = j)) as [<-|Hne].
  - rewrite list_lookup_alter_eq. by destruct (gReadStreams w !! slot).
  - by rewrite list_lookup_alter_ne.
Qed.

Lemma in_use_set_slot_connectionClose slot b w :
  in_use (set_slot_connectionClose slot b w) = in_use w.
Proof.
  unfold in_use, set_slot_connectionClose. simpl. apply list_eq. intros j.
  rewrite !list_lookup_fmap.
  destruct (decide (slot = j)) as [<-|Hne].
  - rewrite list_lookup_alter_eq. by destruct (gReadStreams w !! slot).
  - by rewrite list_lookup_alter_ne.
Qed.

Lemma in_use_record e w : in_use (record e w) = in_use w.
Proof. done. Qed.

Lemma in_use_set_connectionstate st w : in_use (set_connectionstate st w) = in_use w.
Proof. done. Qed.

Lemma in_use_close_and_release slot w :
  in_use (close_and_release slot w) = alter (fun _ => false) slot (in_use w).
Proof.
  unfold close_and_release. by rewrite in_use_release, in_use_set_slot_stream.
Qed.

Lemma alter_false_true (l : list bool) slot :
  l !! slot = Some false ->
  alter (fun _ => false) slot (alter (fun _ => true) slot l) = l.
Proof.
  intros H. apply list_eq. intros j.
  destruct (decide (slot = j)) as [<-|Hne].
  - rewrite !list_lookup_alter_eq, H. done.
  - by rewrite !list_lookup_alter_ne.
Qed.

Section Slots.
Context {codes : SecureTransport}.

Lemma HandleSSLErrors_slots s w :
  gReadStreams (HandleSSLErrors s w).2 = gReadStreams w.
Proof.
  unfold HandleSSLErrors, ConfirmCertificate.
  repeat case_match; simplify_eq/=; reflexivity.
Qed.

Lemma stream_error_result_slots retry e w :
  gReadStreams (stream_error_result retry e w).2 = gReadStreams w.
Proof. unfold stream_error_result. by case_match. Qed.

Lemma HandleSSLErrors_in_use s w r w1 :
  HandleSSLErrors s w = (r, w1) -> in_use w1 = in_use w.
Proof.
  intros H. pose proof (HandleSSLErrors_slots s w) as E. rewrite H in E.
  unfold in_use. by rewrite <-E.
Qed.

Lemma stream_error_result_in_use retry e w r retry' w1 :
  stream_error_result retry e w = (r, retry', w1) -> in_use w1 = in_use w.
Proof.
  intros H. pose proof (stream_error_result_slots retry e w) as E. rewrite H in E.
  unfold in_use. by rewrite <-E.
Qed.

Ltac slots_facts :=
  repeat match goal with
         | H : HandleSSLErrors _ _ = (_, _) |- _ => apply HandleSSLErrors_in_use in H
         | H : stream_error_result _ _ _ = (_, _, _) |- _ =>
             apply stream_error_result_in_use in H
         end.

Lemma get_ReadStreamRec_in_use w o w' :
  get_ReadStreamRec w = (o, w') ->
  match o with
  | Some slot =>
      in_use w !! slot = Some false
      /\ in_use w' = alter (fun _ => true) slot (in_use w)
  | None => w' = w
  end.
Proof.
  unfold get_ReadStreamRec.
  pose proof (get_ReadStreamRec_scan_spec (gReadStreams w) 0 None) as Hscan.
  destruct (get_ReadStreamRec_scan (gReadStreams w) 0 None) as [i|];
    intros [= <- <-]; [|done].
  split; [|apply in_use_alter_inUse].
  unfold in_use. rewrite list_lookup_fmap.
  destruct Hscan as [(k & r & -> & Hk & Hfree & _)
                    |(_ & [?|(_ & k & r & -> & Hk & Hfree & _)])]; [|done|].
  all: simpl; by rewrite Hk; simpl; rewrite Hfree.
Qed.

Lemma in_use_same w w' : gReadStreams w' = gReadStreams w -> in_use w' = in_use w.
Proof. unfold in_use. by intros ->. Qed.

(** Opening the stream takes one slot that was free when it succeeds, and
    none when it fails. *)
Lemma open_stream_for_transaction_in_use request fdStream auto_redirect retry w
    o retry' w' :
  open_stream_for_transaction request fdStream auto_redirect retry w
  = (o, retry', w') ->
  match o with
  | Success (slot, _) =>
      in_use w !! slot = Some false
      /\ in_use w' = alter (fun _ => true) slot (in_use w)
  | Failure _ => in_use w' = in_use w
  end.
Proof.
  unfold open_stream_for_transaction, CFReadStreamCreate.
  intros H.
  destruct (incoming w) as [|[s0|] more] eqn:Hin; simplify_eq/=; [done| |done].
  set (w0 := record (StreamCreated request) (with_incoming w more)) in *.
  assert (Hw0 : in_use w0 = in_use w) by done.
  rewrite <-Hw0. clear Hw0. clearbody w0.
  repeat (case_match; simplify_eq/=); try done.
  all: match goal with
       | H : get_ReadStreamRec _ = (Some _, _) |- _ =>
           apply get_ReadStreamRec_in_use in H as [Hfree Hlease]
       | H : get_ReadStreamRec _ = (None, _) |- _ =>
           apply get_ReadStreamRec_in_use in H as ->
       end; try done.
  all: slots_facts.
  all: unfold close_stream.
  all: rewrite ?in_use_release, ?in_use_set_slot_stream, ?in_use_record.
  all: repeat match goal with
         | H : in_use ?a = _ |- context [in_use ?a] =>
             rewrite H; rewrite ?in_use_release, ?in_use_set_slot_stream,
                          ?in_use_record
         end.
  all: by rewrite ?alter_false_true by done.
Qed.


Lemma fchflags_slots fd fl w : gReadStreams (fchflags fd fl w).2 = gReadStreams w.
Proof. unfold fchflags. by repeat case_match. Qed.

Lemma ftruncate_slots fd len w : gReadStreams (ftruncate fd len w).2 = gReadStreams w.
Proof. unfold ftruncate. by repeat case_match. Qed.

Lemma lseek_slots fd offset whence w :
  gReadStreams (lseek fd offset whence w).2 = gReadStreams w.
Proof. unfold lseek. by repeat case_match. Qed.

Lemma write_slots fd buffer nbyte w :
  gReadStreams (write fd buffer nbyte w).2 = gReadStreams w.
Proof. unfold write. by repeat case_match. Qed.

Lemma fchflags_in_use fd fl w r w1 : fchflags fd fl w = (r, w1) -> in_use w1 = in_use w.
Proof.
  intros H. pose proof (fchflags_slots fd fl w) as E. rewrite H in E.
  unfold in_use. by rewrite <-E.
Qed.

Lemma ftruncate_in_use fd len w r w1 :
  ftruncate fd len w = (r, w1) -> in_use w1 = in_use w.
Proof.
  intros H. pose proof (ftruncate_slots fd len w) as E. rewrite H in E.
  unfold in_use. by rewrite <-E.
Qed.

Lemma lseek_in_use fd offset whence w r w1 :
  lseek fd offset whence w = (r, w1) -> in_use w1 = in_use w.
Proof.
  intros H. pose proof (lseek_slots fd offset whence w) as E. rewrite H in E.
  unfold in_use. by rewrite <-E.
Qed.

Lemma write_in_use fd buffer nbyte w r w1 :
  write fd buffer nbyte w = (r, w1) -> in_use w1 = in_use w.
Proof.
  intros H. pose proof (write_slots fd buffer nbyte w) as E. rewrite H in E.
  unfold in_use. by rewrite <-E.
Qed.

Ltac file_facts :=
  repeat match goal with
         | H : fchflags _ _ _ = (_, _) |- _ => apply fchflags_in_use in H
         | H : ftruncate _ _ _ = (_, _) |- _ => apply ftruncate_in_use in H
         | H : lseek _ _ _ _ = (_, _) |- _ => apply lseek_in_use in H
         | H : write _ _ _ _ = (_, _) |- _ => apply write_in_use in H
         end.

Lemma write_first_bytes_in_use code node buffer totalRead background_load w ok bg w' :
  write_first_bytes code node buffer totalRead background_load w = (ok, bg, w') ->
  in_use w' = in_use w.
Proof.
  unfold write_first_bytes. intros H.
  repeat (case_match; simplify_eq/=); file_facts; congruence.
Qed.

Lemma requestqueue_enqueue_download_in_use node slot w r w1 :
  requestqueue_enqueue_download node slot w = (r, w1) -> in_use w1 = in_use w.
Proof. by intros [= _ <-]. Qed.

Ltac in_use_rewrite :=
  repeat (progress
            rewrite ?in_use_close_and_release, ?in_use_release,
              ?in_use_set_slot_stream, ?in_use_set_slot_connectionClose,
              ?in_use_record, ?in_use_set_connectionstate).

Ltac in_use_tac :=
  slots_facts; file_facts;
  repeat match goal with
         | H : write_first_bytes _ _ _ _ _ _ = _ |- _ =>
             apply write_first_bytes_in_use in H
         | H : requestqueue_enqueue_download _ _ _ = _ |- _ =>
             apply requestqueue_enqueue_download_in_use in H
         end;
  unfold close_stream in *;
  in_use_rewrite;
  repeat match goal with
         | H : in_use ?a = _ |- context [in_use ?a] => rewrite H; in_use_rewrite
         end.

Lemma stream_transaction_in_use request auto_redirect retry w o retry' w' :
  stream_transaction request auto_redirect retry w = (o, retry', w') ->
  in_use w' = in_use w.
Proof.
  unfold stream_transaction. intros H.
  case_match; [by simplify_eq/=|].
  destruct (open_stream_for_transaction _ _ _ _ _) as [[op retry1] w1] eqn:Hopen.
  apply open_stream_for_transaction_in_use in Hopen.
  destruct op as [[slot s]|r]; [|by simplify_eq/=].
  destruct Hopen as [Hfree Hlease].
  repeat (case_match; simplify_eq/=).
  all: in_use_tac.
  all: by rewrite ?alter_false_true by done.
Qed.

Lemma stream_transaction_from_file_in_use request file_fd retry w o retry' w' :
  stream_transaction_from_file request file_fd retry w = (o, retry', w') ->
  in_use w' = in_use w.
Proof.
  unfold stream_transaction_from_file. intros H.
  case_match; [by simplify_eq/=|].
  destruct (lseek file_fd 0 SEEK_END w) as [contentLength w0] eqn:Hend.
  pose proof (lseek_slots file_fd 0 SEEK_END w) as Hs0. rewrite Hend in Hs0.
  simpl in Hs0. apply in_use_same in Hs0. rewrite <-Hs0. clear Hs0 Hend.
  case_match; [by simplify_eq/=|].
  destruct (lseek file_fd 0 SEEK_SET w0) as [pos w00] eqn:Hset.
  pose proof (lseek_slots file_fd 0 SEEK_SET w0) as Hs0. rewrite Hset in Hs0.
  simpl in Hs0. apply in_use_same in Hs0. rewrite <-Hs0. clear Hs0 Hset.
  case_match; [by simplify_eq/=|].
  destruct (open_stream_for_transaction _ _ _ _ _) as [[op retry1] w1] eqn:Hopen.
  apply open_stream_for_transaction_in_use in Hopen.
  destruct op as [[slot s]|r]; [|by simplify_eq/=].
  destruct Hopen as [Hfree Hlease].
  repeat (case_match; simplify_eq/=).
  all: in_use_tac.
  all: by rewrite ?alter_false_true by done.
Qed.


Lemma stream_get_transaction_in_use request retry node w o retry' node' w' :
  stream_get_transaction request retry node w = (o, retry', node', w') ->
  in_use w' = in_use w
  \/ exists response slot,
      o = Success response
      /\ file_status node' = WEBDAV_DOWNLOAD_IN_PROGRESS
      /\ in_use w !! slot = Some false
      /\ in_use w' = alter (fun _ => true) slot (in_use w)
      /\ last (log w') = Some (DownloadEnqueued (fileid node) slot).
Proof.
  unfold stream_get_transaction. intros H.
  case_match; [left; by simplify_eq/=|].
  destruct (open_stream_for_transaction _ _ _ _ _) as [[op retry1] w1] eqn:Hopen.
  apply open_stream_for_transaction_in_use in Hopen.
  destruct op as [[slot s]|r]; [|left; by simplify_eq/=].
  destruct Hopen as [Hfree Hlease].
  repeat (case_match; simplify_eq/=).
  all: try (left; in_use_tac; by rewrite ?alter_false_true by done).
  right. eexists _, slot. split; [reflexivity|]. split; [reflexivity|].
  split; [done|]. split.
  - by in_use_tac.
  - unfold requestqueue_enqueue_download in *. simplify_eq/=.
    by rewrite last_snoc.
Qed.

Lemma send_transaction_body_in_use uid url method bodyData headerCount headers
    auto_redirect l again l' :
  send_transaction_body uid url method bodyData headerCount headers auto_redirect l
  = (again, l') ->
  in_use (l_world l') = in_use (l_world l).
Proof.
  unfold send_transaction_body, CFHTTPMessageCreateRequest, authcache_apply.
  intros H.
  repeat (case_match; simplify_eq/=); try done.
  all: match goal with
       | H : stream_transaction _ _ _ _ = _ |- _ =>
           apply stream_transaction_in_use in H
       end; done.
Qed.

Lemma send_transaction_loop_in_use uid url method bodyData headerCount headers
    auto_redirect l :
  in_use (l_world (send_transaction_loop uid url method bodyData headerCount
                     headers auto_redirect l))
  = in_use (l_world l).
Proof.
  funelim (send_transaction_loop uid url method bodyData headerCount headers
             auto_redirect l).
  - rewrite H. by eapply send_transaction_body_in_use.
  - match goal with
    | E : send_transaction_body _ _ _ _ _ _ _ _ = _ |- _ =>
        exact (send_transaction_body_in_use _ _ _ _ _ _ _ _ _ _ E)
    end.
Qed.

Lemma send_transaction_in_use uid url method bodyData headerCount headers
    auto_redirect w :
  in_use (send_transaction uid url method bodyData headerCount headers
            auto_redirect w).2
  = in_use w.
Proof.
  unfold send_transaction, authcache_valid.
  match goal with
  | |- context [send_transaction_loop ?a ?b ?c ?d ?e ?f ?g ?l0] =>
      pose proof (send_transaction_loop_in_use a b c d e f g l0) as Hloop;
      destruct (send_transaction_loop a b c d e f g l0)
        as [le lm lr ls lb ln lt lw]
  end.
  simpl in *. repeat (case_match; simplify_eq/=); exact Hloop.
Qed.

End Slots.

Lemma alter_const_insert {A : Type} (x : A) i (l : list A) :
  alter (fun _ => x) i l = <[i := x]> l.
Proof.
  apply list_eq. intros j. destruct (decide (i = j)) as [<-|Hne].
  - rewrite list_lookup_alter_eq.
    destruct (l !! i) eqn:Hi; simpl.
    + rewrite list_lookup_insert_eq; [done|]. by eapply lookup_lt_Some.
    + symmetry. apply lookup_ge_None. rewrite length_insert.
      by apply lookup_ge_None.
  - by rewrite list_lookup_alter_ne, list_lookup_insert_ne.
Qed.

(** X9.  No transaction keeps a slot it does not need.  After
    [stream_transaction], [stream_transaction_from_file] and
    [send_transaction], whatever they return, the slots that are marked in
    use are those that were before the call.  After [stream_get_transaction]
    they are too, except when the rest of the body is handed off to the
    download queue: then the call has succeeded, the node is IN_PROGRESS, the
    last thing done was to queue the download with a slot that was free
    before the call, and this one slot is marked in use besides. *)
Theorem transactions_return_their_slot {codes : SecureTransport}
    (request : CFHTTPMessage) (retry : bool) (w : World) :
  (forall auto_redirect,
      in_use (stream_transaction request auto_redirect retry w).2 = in_use w)
  /\ (forall file_fd,
        in_use (stream_transaction_from_file request file_fd retry w).2 = in_use w)
  /\ (forall uid url method bodyData headerCount headers auto_redirect,
        in_use (send_transaction uid url method bodyData headerCount headers
                  auto_redirect w).2 = in_use w)
  /\ (forall node,
        let '(o, _, node', w') := stream_get_transaction request retry node w in
        in_use w' = in_use w
        \/ exists response slot,
            o = Success response
            /\ file_status node' = WEBDAV_DOWNLOAD_IN_PROGRESS
            /\ in_use w !! slot = Some false
            /\ in_use w' = <[slot := true]> (in_use w)
            /\ last (log w') = Some (DownloadEnqueued (fileid node) slot)).
Proof.
  split; [|split; [|split]].
  - intros auto_redirect.
    destruct (stream_transaction _ _ _ _) as [[o retry'] w'] eqn:H.
    by eapply stream_transaction_in_use.
  - intros file_fd.
    destruct (stream_transaction_from_file _ _ _ _) as [[o retry'] w'] eqn:H.
    by eapply stream_transaction_from_file_in_use.
  - intros. apply send_transaction_in_use.
  - intros node.
    destruct (stream_get_transaction _ _ _ _) as [[[o retry'] node'] w'] eqn:H.
    apply stream_get_transaction_in_use in H as [?|(response & slot & H)];
      [by left|right].
    exists response, slot. by rewrite <-alter_const_insert.
Qed.

(** ** What a transaction returns *)

Lemma translate_status_to_error_success statusCode :
  translate_status_to_error statusCode = 0 <-> 200 <= statusCode <= 299.
Proof.
  split.
  - status_range statusCode.
    repeat match goal with
           | |- context [?a =? ?b] => destruct (Z.eqb_spec a b); simpl
           | |- context [?a || ?b] => destruct a; simpl
           end; try discriminate; intros _; lia.
  - intros H. status_range statusCode.
    assert (q = 2) as -> by lia. reflexivity.
Qed.

Lemma translate_status_to_error_EAUTH statusCode :
  statusCode <> 401 -> statusCode <> 407 ->
  translate_status_to_error statusCode <> EAUTH.
Proof.
  intros H401 H407. unfold translate_status_to_error.
  destruct (Z.eqb_spec statusCode 401); [done|].
  destruct (Z.eqb_spec statusCode 407); [done|]. simpl.
  repeat match goal with
         | |- context [if ?c then _ else _] => destruct c
         end; discriminate.
Qed.

Lemma translate_status_to_error_range statusCode :
  translate_status_to_error statusCode = 0
  \/ translate_status_to_error statusCode ∈ status_errors.
Proof.
  unfold translate_status_to_error, status_errors.
  repeat match goal with
         | |- context [if ?c then _ else _] => destruct c
         end; rewrite ?elem_of_cons; auto 10.
Qed.

(** X10.  [translate_status_to_error] gives 0 for the 2xx statuses and for
    no other; whatever the status, the error is one of ENOENT, EAUTH, EPERM,
    EBUSY, EINVAL, ENOSPC and EIO, and so never ENAMETOOLONG; a status below
    100 or above 599 gives EIO. *)
Theorem translate_status_to_error_results (statusCode : Z) :
  (translate_status_to_error statusCode = 0 <-> 200 <= statusCode <= 299)
  /\ (translate_status_to_error statusCode = 0
      \/ translate_status_to_error statusCode ∈ status_errors)
  /\ translate_status_to_error statusCode <> ENAMETOOLONG
  /\ (statusCode < 100 \/ 600 <= statusCode ->
      translate_status_to_error statusCode = EIO).
Proof.
  split; [apply translate_status_to_error_success|].
  split; [apply translate_status_to_error_range|].
  split.
  - destruct (translate_status_to_error_range statusCode) as [->|H]; [done|].
    unfold status_errors in H. rewrite !elem_of_cons, elem_of_nil in H.
    intros Heq. rewrite Heq in H. unfold ENAMETOOLONG, ENOENT, EAUTH, EPERM,
      EBUSY, EINVAL, ENOSPC, EIO in H. lia.
  - intros H. status_range statusCode.
    repeat match goal with
           | |- context [?a =? ?b] => destruct (Z.eqb_spec a b); [lia|]
           end.
    reflexivity.
Qed.

Lemma translate_status_to_error_results_witness :
  translate_status_to_error 99 = EIO /\ translate_status_to_error 600 = EIO.
Proof.
  split.
  - apply (proj2 (proj2 (proj2 (translate_status_to_error_results 99)))). lia.
  - apply (proj2 (proj2 (proj2 (translate_status_to_error_results 600)))). lia.
Defined.

Lemma HandleSSLErrors_result {codes : SecureTransport} s w :
  (HandleSSLErrors s w).1 = EIO \/ (HandleSSLErrors s w).1 = EAGAIN
  \/ (HandleSSLErrors s w).1 = ECANCELED.
Proof.
  unfold HandleSSLErrors, ConfirmCertificate.
  repeat case_match; simplify_eq/=; auto.
Qed.

Lemma HandleSSLErrors_auth_results {codes : SecureTransport} s w :
  auth_results (HandleSSLErrors s w).2 = auth_results w.
Proof.
  unfold HandleSSLErrors, ConfirmCertificate.
  repeat case_match; simplify_eq/=; reflexivity.
Qed.

Lemma stream_error_result_auth_results retry e w :
  auth_results (stream_error_result retry e w).2 = auth_results w.
Proof. unfold stream_error_result. by case_match. Qed.

Lemma stream_error_result_result retry e w :
  (stream_error_result retry e w).1.1 = EAGAIN
  \/ (stream_error_result retry e w).1.1 = ENXIO.
Proof. unfold stream_error_result. case_match; auto. Qed.

Ltac result_cases :=
  repeat match goal with
         | H : _ \/ _ |- _ => destruct H as [H|H]
         end; subst;
  unfold error_exit, EIO, EAGAIN, ENXIO, ECANCELED in *; simpl in *;
  try discriminate; auto.

Ltac result_facts :=
  repeat match goal with
         | H : HandleSSLErrors ?s ?w = (?r, ?w1) |- _ =>
             let E := fresh "Hr" in
             let F := fresh "Ha" in
             pose proof (HandleSSLErrors_result s w) as E;
             pose proof (HandleSSLErrors_auth_results s w) as F;
             rewrite H in E, F; cbn [fst snd] in E, F; clear H
         | H : stream_error_result ?b ?e ?w = (?r, ?b1, ?w1) |- _ =>
             let E := fresh "Hr" in
             let F := fresh "Ha" in
             pose proof (stream_error_result_result b e w) as E;
             pose proof (stream_error_result_auth_results b e w) as F;
             rewrite H in E, F; cbn [fst snd] in E, F; clear H
         end.

Lemma open_stream_for_transaction_result {codes : SecureTransport} request fdStream auto_redirect retry w
    o retry' w' :
  open_stream_for_transaction request fdStream auto_redirect retry w
  = (o, retry', w') ->
  auth_results w' = auth_results w
  /\ match o with
     | Success _ => True
     | Failure r => r = EIO \/ r = EAGAIN \/ r = ENXIO
     end.
Proof.
  unfold open_stream_for_transaction, CFReadStreamCreate, get_ReadStreamRec.
  intros H.
  repeat (case_match; simplify_eq/=); result_facts.
  all: split; [simpl in *; congruence|]; try done.
  all: repeat match goal with
         | H : _ \/ _ |- _ => destruct H as [H|H]
         end; subst.
  all: unfold error_exit, EIO, EAGAIN, ENXIO, ECANCELED in *; simpl in *;
    try discriminate; auto.
Qed.

Lemma stream_transaction_result {codes : SecureTransport} request auto_redirect retry w o retry' w' :
  stream_transaction request auto_redirect retry w = (o, retry', w') ->
  auth_results w' = auth_results w
  /\ match o with
     | Success _ => True
     | Failure r => r = EIO \/ r = EAGAIN \/ r = ENXIO \/ r = ECANCELED
     end.
Proof.
  unfold stream_transaction. intros H.
  case_match; [simplify_eq/=; split; [done|by left]|].
  destruct (open_stream_for_transaction _ _ _ _ _) as [[op retry1] w1] eqn:Hopen.
  apply open_stream_for_transaction_result in Hopen as [Hauth Hop].
  destruct op as [[slot s]|r].
  2: { simplify_eq/=. split; [done|].
       destruct Hop as [Hop|[Hop|Hop]]; rewrite Hop; unfold error_exit; simpl;
         auto. }
  repeat (case_match; simplify_eq/=); result_facts.
  all: split; [simpl in *; congruence|]; try done.
  all: repeat match goal with
         | H : _ \/ _ |- _ => destruct H as [H|H]
         end; subst.
  all: unfold error_exit, EIO, EAGAIN, ENXIO, ECANCELED in *; simpl in *;
    try discriminate; auto.
Qed.


Lemma stream_event_not_valid request e : stream_event request e -> not_valid e.
Proof. intros [He| ->]; [by destruct e|done]. Qed.

Lemma send_transaction_body_result {codes : SecureTransport} uid url method bodyData headerCount headers
    auto_redirect l again l' :
  send_transaction_body uid url method bodyData headerCount headers auto_redirect l
  = (again, l') ->
  auth_results (l_world l') `suffix_of` auth_results (l_world l)
  /\ log_grows not_valid (l_world l) (l_world l')
  /\ (l_error l' = 0 ->
      got_response l'
      /\ (again = false -> l_statusCode l' <> 401 /\ l_statusCode l' <> 407))
  /\ (l_error l' <> 0 -> again = false ->
      l_error l' ∈ auth_results (l_world l) \/ l_error l' ∈ transport_errors).
Proof.
  unfold send_transaction_body, CFHTTPMessageCreateRequest. intros H.
  destruct (message_create_fails (plan (config (l_world l)))).
  { simplify_eq/=. split; [done|]. split; [apply log_grows_refl|].
    split; [done|]. intros _ _. right. unfold transport_errors. left. }
  destruct (authcache_apply _ _ _ _ _) as [[error message] w1] eqn:Happly.
  assert (Hauth : auth_results w1 `suffix_of` auth_results (l_world l)
                  /\ (error <> 0 -> error ∈ auth_results (l_world l))).
  { unfold authcache_apply in Happly. simpl in Happly.
    destruct (auth_results (l_world l)) as [|e rest] eqn:Ha; simplify_eq/=;
      rewrite ?Ha.
    - split; [done|]. intros Hn. by destruct Hn.
    - split; [by apply suffix_cons_r|]. intros _. left. }
  destruct Hauth as [Hsuffix Herror].
  apply authcache_apply_log in Happly as (Hlog1 & _ & _).
  assert (Hfirst : log_grows not_valid (l_world l) w1).
  { exists [AuthcacheApply uid (l_statusCode l)]. split; [done|].
    by repeat constructor. }
  destruct (Z.eqb_spec error 0) as [->|Hne]; simpl in H.
  2: { simplify_eq/=. split; [done|]. split; [done|]. split; [done|].
       intros _ _. left. by apply Herror. }
  destruct (stream_transaction _ _ _ _) as [[o retry1] w2] eqn:Hstream.
  pose proof (stream_transaction_result _ _ _ _ _ _ _ Hstream) as [Hauth2 Ho].
  apply stream_transaction_log in Hstream as [Hlog2 _].
  assert (Hsecond : log_grows not_valid (l_world l) w2).
  { eapply log_grows_trans; [exact Hfirst|].
    eapply log_grows_weaken; [|exact Hlog2]. apply stream_event_not_valid. }
  destruct o as [[[buffer count] responseRef]|r].
  - simplify_eq/=. split; [by rewrite Hauth2|]. split; [done|]. split; [|done].
    intros _. split; [by eexists _, _, _|].
    intros [Hn1 Hn2]%orb_false_iff. split; by apply Z.eqb_neq.
  - destruct (Z.eqb_spec r EAGAIN) as [->|Hne]; simplify_eq/=.
    + split; [by rewrite Hauth2|]. split; [done|]. split; [done|]. done.
    + split; [by rewrite Hauth2|]. split; [done|]. split.
      * intros ->. destruct Ho as [?|[?|[?|?]]]; discriminate.
      * intros _ _. right. unfold transport_errors.
        rewrite !elem_of_cons. destruct Ho as [?|[?|[?|?]]]; auto. done.
Qed.

Lemma send_transaction_loop_result {codes : SecureTransport} uid url method bodyData headerCount headers
    auto_redirect l :
  let l' := send_transaction_loop uid url method bodyData headerCount headers
              auto_redirect l in
  log_grows not_valid (l_world l) (l_world l')
  /\ auth_results (l_world l') `suffix_of` auth_results (l_world l)
  /\ (l_error l' = 0 ->
      got_response l' /\ l_statusCode l' <> 401 /\ l_statusCode l' <> 407)
  /\ (l_error l' <> 0 ->
      l_error l' ∈ auth_results (l_world l) \/ l_error l' ∈ transport_errors).
Proof.
  funelim (send_transaction_loop uid url method bodyData headerCount headers
             auto_redirect l); cbv zeta.
  - destruct (send_transaction_body_result _ _ _ _ _ _ _ _ _ _ Hbody)
      as (Hsuffix & Hlog & _ & _).
    cbv zeta in H. destruct H as (Hlog' & Hsuffix' & Hok & Herr).
    split; [by eapply log_grows_trans|]. split; [by etrans|].
    split; [done|]. intros Hne. destruct (Herr Hne) as [Hin|?]; [left|by right].
    destruct Hsuffix as [k ->]. apply elem_of_app. by right.
  - match goal with
    | E : send_transaction_body _ _ _ _ _ _ _ _ = _ |- _ =>
        destruct (send_transaction_body_result _ _ _ _ _ _ _ _ _ _ E)
          as (Hsuffix & Hlog & Hok & Herr)
    end.
    split; [done|]. split; [done|]. split.
    + intros Hz. destruct (Hok Hz) as [? Hst]. by destruct (Hst eq_refl).
    + intros Hne. by apply Herr.
Qed.

(** X11.  What [send_transaction] returns.  It returns 0 only with a
    response whose status is 2xx and with the body read, and the last thing
    it has done then is to tell the authentication cache that the
    credentials of [uid] are good; it tells the cache so in no other case.
    An error is one that [authcache_apply] has returned, or EIO, ENXIO or
    ECANCELED from the transport, or the error that stands for the status
    of the response: ENOENT, EPERM, EBUSY, EINVAL, ENOSPC or EIO.  So
    EAGAIN, EAUTH and ENAMETOOLONG are returned only if the authentication
    cache returns them: the status codes 401 and 407 and the retries never
    surface. *)
Theorem send_transaction_results {codes : SecureTransport} (uid : Z) (url : CFURL)
    (method : string) (bodyData : option (list ascii)) (headerCount : Z)
    (headers : list (string * CFString)) (auto_redirect : bool) (w : World) :
  let '(error, buffer, count, response, w') :=
    send_transaction uid url method bodyData headerCount headers auto_redirect w in
  exists evs,
    log w' = log w ++ evs
    /\ if error =? 0 then
         (exists r b, response = Some r /\ buffer = Some b
                      /\ 200 <= statusCode r <= 299)
         /\ exists evs', evs = evs' ++ [AuthcacheValid uid] /\ Forall not_valid evs'
       else
         Forall not_valid evs
         /\ (error ∈ auth_results w
             \/ error ∈ transport_errors
             \/ error ∈ surfaced_status_errors).
Proof.
  unfold send_transaction, authcache_valid.
  match goal with
  | |- context [send_transaction_loop ?a ?b ?c ?d ?e ?f ?g ?l0] =>
      pose proof (send_transaction_loop_result a b c d e f g l0) as Hloop;
      destruct (send_transaction_loop a b c d e f g l0)
        as [le lm lr ls lb ln lt lw]
  end.
  cbv zeta in Hloop. unfold got_response in Hloop. simpl in Hloop.
  destruct Hloop as ((evs & Hlog & Hevs) & _ & Hok & Herr). simpl.
  destruct (Z.eqb_spec le 0) as [->|Hne].
  - destruct (Hok eq_refl) as ((m & r & b & -> & -> & -> & ->) & H401 & H407).
    destruct (Z.eqb_spec (translate_status_to_error (statusCode r)) 0)
      as [Hzero|Hnz].
    + rewrite Hzero. simpl. exists (evs ++ [AuthcacheValid uid]).
      split; [by rewrite Hlog, app_assoc|]. split; [|by eexists].
      eexists _, _. split; [done|]. split; [done|].
      by apply translate_status_to_error_success.
    + exists evs. split; [done|].
      destruct (Z.eqb_spec (translate_status_to_error (statusCode r)) 0); [done|].
      split; [done|]. right. right.
      destruct (translate_status_to_error_range (statusCode r)) as [?|Hin];
        [done|].
      assert (Hnot : translate_status_to_error (statusCode r) <> EAUTH)
        by by apply translate_status_to_error_EAUTH.
      unfold status_errors in Hin. unfold surfaced_status_errors.
      rewrite !elem_of_cons in Hin. rewrite !elem_of_cons.
      destruct Hin as [?|[?|[?|[?|[?|[?|[?|?]]]]]]]; auto 10; done.
  - exists evs. split; [done|].
    destruct (Z.eqb_spec le 0); [done|]. split; [done|].
    destruct (Herr Hne) as [?|?]; auto.
Qed.

Lemma stream_get_transaction_result {codes : SecureTransport} request retry node w o retry' node' w' :
  stream_get_transaction request retry node w = (o, retry', node', w') ->
  match o with
  | Success _ => True
  | Failure r => r = EIO \/ r = EAGAIN \/ r = ENXIO
  end.
Proof.
  unfold stream_get_transaction. intros H.
  case_match; [simplify_eq/=; by left|].
  destruct (open_stream_for_transaction _ _ _ _ _) as [[op retry1] w1] eqn:Hopen.
  apply open_stream_for_transaction_result in Hopen as [_ Hop].
  destruct op as [[slot s]|r].
  2: { simplify_eq/=.
       destruct Hop as [Hop|[Hop|Hop]]; rewrite Hop; unfold error_exit; simpl;
         auto. }
  repeat (case_match; simplify_eq/=); result_facts; try done.
  all: result_cases.
Qed.

Lemma stream_transaction_from_file_result {codes : SecureTransport} request file_fd retry w o retry' w' :
  stream_transaction_from_file request file_fd retry w = (o, retry', w') ->
  match o with
  | Success _ => True
  | Failure r => r = EIO \/ r = EAGAIN \/ r = ENXIO
  end.
Proof.
  unfold stream_transaction_from_file. intros H.
  case_match; [simplify_eq/=; by left|].
  destruct (lseek file_fd 0 SEEK_END w) as [contentLength w0].
  case_match; [simplify_eq/=; by left|].
  destruct (lseek file_fd 0 SEEK_SET w0) as [pos w00].
  case_match; [simplify_eq/=; by left|].
  destruct (open_stream_for_transaction _ _ _ _ _) as [[op retry1] w1] eqn:Hopen.
  apply open_stream_for_transaction_result in Hopen as [_ Hop].
  destruct op as [[slot s]|r].
  2: { simplify_eq/=.
       destruct Hop as [Hop|[Hop|Hop]]; rewrite Hop; unfold error_exit; simpl;
         auto. }
  repeat (case_match; simplify_eq/=); result_facts; try done.
  all: result_cases.
Qed.

Lemma send_transaction_loop_unroll {codes : SecureTransport} uid url method bodyData headerCount headers
    auto_redirect l :
  send_transaction_loop uid url method bodyData headerCount headers auto_redirect l
  = let '(again, l') :=
      send_transaction_body uid url method bodyData headerCount headers
        auto_redirect l in
    if again
    then send_transaction_loop uid url method bodyData headerCount headers
           auto_redirect l'
    else l'.
Proof.
  funelim (send_transaction_loop uid url method bodyData headerCount headers
             auto_redirect l).
  - by rewrite Hbody.
  - match goal with
    | E : send_transaction_body _ _ _ _ _ _ _ _ = _ |- _ => by rewrite E
    end.
Qed.

(** X12.  The errors of the engine.  A function of the engine that fails
    returns an error, never 0.  [open_stream_for_transaction],
    [stream_get_transaction] and [stream_transaction_from_file] fail with
    EIO, EAGAIN or ENXIO only; [stream_transaction] can fail with ECANCELED
    besides: it is the only one of the four that reports the refusal of a
    certificate as ECANCELED. *)
Theorem engine_errors {codes : SecureTransport} (request : CFHTTPMessage)
    (retry : bool) (w : World) :
  (forall fdStream auto_redirect,
      match (open_stream_for_transaction request fdStream auto_redirect retry w).1.1
      with
      | Success _ => True
      | Failure r => r ∈ [EIO; EAGAIN; ENXIO]
      end)
  /\ (forall node,
        match (stream_get_transaction request retry node w).1.1.1 with
        | Success _ => True
        | Failure r => r ∈ [EIO; EAGAIN; ENXIO]
        end)
  /\ (forall file_fd,
        match (stream_transaction_from_file request file_fd retry w).1.1 with
        | Success _ => True
        | Failure r => r ∈ [EIO; EAGAIN; ENXIO]
        end)
  /\ (forall auto_redirect,
        match (stream_transaction request auto_redirect retry w).1.1 with
        | Success _ => True
        | Failure r => r ∈ [EIO; EAGAIN; ENXIO; ECANCELED]
        end).
Proof.
  split; [|split; [|split]].
  - intros fdStream auto_redirect.
    destruct (open_stream_for_transaction _ _ _ _ _) as [[o retry'] w'] eqn:H.
    apply open_stream_for_transaction_result in H as [_ H]. simpl.
    destruct o; [done|]. rewrite !elem_of_cons. tauto.
  - intros node.
    destruct (stream_get_transaction _ _ _ _) as [[[o retry'] node'] w'] eqn:H.
    apply stream_get_transaction_result in H. simpl.
    destruct o; [done|]. rewrite !elem_of_cons. tauto.
  - intros file_fd.
    destruct (stream_transaction_from_file _ _ _ _) as [[o retry'] w'] eqn:H.
    apply stream_transaction_from_file_result in H. simpl.
    destruct o; [done|]. rewrite !elem_of_cons. tauto.
  - intros auto_redirect.
    destruct (stream_transaction _ _ _ _) as [[o retry'] w'] eqn:H.
    apply stream_transaction_result in H as [_ H]. simpl.
    destruct o; [done|]. rewrite !elem_of_cons. tauto.
Qed.

Lemma streams_created_apply events uid st :
  streams_created (events ++ [AuthcacheApply uid st]) = streams_created events.
Proof.
  unfold streams_created. rewrite List.filter_app, length_app. simpl. lia.
Qed.

(** X13.  With the UI suppressed and the connection down nothing is sent.
    Each variant returns EIO at once and leaves the world as it is; so
    [send_transaction] fails without a response, creates no stream, takes
    none from the network and leaves the connection down. *)
Theorem suppressed_and_down_fails_fast {codes : SecureTransport}
    (request : CFHTTPMessage) (retry : bool) (w : World) :
  gSuppressAllUI (config w) = true ->
  connectionstate w = WEBDAV_CONNECTION_DOWN ->
  (forall node,
      stream_get_transaction request retry node w = (Failure EIO, retry, node, w))
  /\ (forall file_fd,
        stream_transaction_from_file request file_fd retry w
        = (Failure EIO, retry, w))
  /\ (forall auto_redirect,
        stream_transaction request auto_redirect retry w = (Failure EIO, retry, w))
  /\ (forall uid url method bodyData headerCount headers auto_redirect,
        let '(error, _, _, response, w') :=
          send_transaction uid url method bodyData headerCount headers
            auto_redirect w in
        error <> 0 /\ response = None
        /\ incoming w' = incoming w
        /\ streams_created (log w') = streams_created (log w)
        /\ connectionstate w' = WEBDAV_CONNECTION_DOWN).
Proof.
  intros Hui Hdown.
  assert (Hfast : gSuppressAllUI (config w) && negb (is_up (get_connectionstate w))
                  = true).
  { unfold get_connectionstate. by rewrite Hui, Hdown. }
  split; [|split; [|split]].
  - intros node. unfold stream_get_transaction. by rewrite Hfast.
  - intros file_fd. unfold stream_transaction_from_file. by rewrite Hfast.
  - intros auto_redirect. unfold stream_transaction. by rewrite Hfast.
  - intros uid url method bodyData headerCount headers auto_redirect.
    unfold send_transaction. rewrite send_transaction_loop_unroll.
    unfold send_transaction_body, CFHTTPMessageCreateRequest, authcache_apply.
    cbn [l_world l_statusCode l_responseRef l_retryTransaction].
    destruct (message_create_fails (plan (config w))); [by simpl|].
    assert (Hstream : forall m st rest,
               stream_transaction m auto_redirect true
                 (with_auth_results (record (AuthcacheApply uid st) w) rest)
               = (Failure EIO, true,
                  with_auth_results (record (AuthcacheApply uid st) w) rest)).
    { intros. unfold stream_transaction. simpl.
      unfold get_connectionstate. simpl. by rewrite Hui, Hdown. }
    assert (Hstream' : forall m st,
               stream_transaction m auto_redirect true
                 (record (AuthcacheApply uid st) w)
               = (Failure EIO, true, record (AuthcacheApply uid st) w)).
    { intros. unfold stream_transaction. simpl.
      unfold get_connectionstate. simpl. by rewrite Hui, Hdown. }
    cbn [auth_results record].
    destruct (auth_results w) as [|e rest].
    + cbn [negb Z.eqb]. rewrite Hstream'. simpl.
      repeat split; try done. apply streams_created_apply.
    + destruct (Z.eqb_spec e 0) as [->|Hne]; cbn [negb].
      * rewrite Hstream. simpl.
        repeat split; try done. apply streams_created_apply.
      * apply Z.eqb_neq in Hne as Hneb. simpl. rewrite ?Hneb.
        split; [done|]. split; [done|]. split; [done|].
        split; [apply streams_created_apply|done].
Qed.

Lemma suppressed_and_down_fails_fast_witness :
  let w :=
    set_connectionstate WEBDAV_CONNECTION_DOWN
      (with_config_quiet (test_world None [Some multistatus] [])) in
  @stream_transaction SecureTransport_h test_request true true w
  = (Failure EIO, true, w).
Proof.
  pose proof (@suppressed_and_down_fails_fast SecureTransport_h test_request true
                (set_connectionstate WEBDAV_CONNECTION_DOWN
                   (with_config_quiet (test_world None [Some multistatus] [])))
                eq_refl eq_refl) as (_ & _ & H & _).
  apply H.
Defined.

(** ** The DAV level of any header *)

Lemma ParseDAVLevel_body_level field_value dav_level :
  match ParseDAVLevel_body field_value dav_level with
  | Break level | Continue _ level => dav_level <= level <= Z.max dav_level 2
  end.
Proof.
  unfold ParseDAVLevel_body.
  repeat match goal with
         | |- context [if ?c then _ else _] => destruct c eqn:?
         | |- context [let '(_, _) := ?p in _] => destruct p eqn:?
         end; simplify_eq/=; try lia.
  all: repeat match goal with
         | H : _ && _ = true |- _ => apply andb_true_iff in H as [? ?]
         | H : (_ <? _) = true |- _ => apply Z.ltb_lt in H
         end; lia.
Qed.

Lemma ParseDAVLevel_loop_level field_value dav_level :
  dav_level <= ParseDAVLevel_loop field_value dav_level <= Z.max dav_level 2.
Proof.
  funelim (ParseDAVLevel_loop field_value dav_level).
  - lia.
  - pose proof (ParseDAVLevel_body_level field_value dav_level) as Hbody.
    match goal with
    | E : ParseDAVLevel_body _ _ = _ |- _ => rewrite E in Hbody
    end.
    exact Hbody.
  - pose proof (ParseDAVLevel_body_level field_value dav_level) as Hlevel.
    rewrite Hbody in Hlevel. lia.
Qed.

Lemma ParseDAVLevel_body_level_in field_value dav_level :
  match ParseDAVLevel_body field_value dav_level with
  | Break level | Continue _ level => level ∈ [dav_level; 1; 2]
  end.
Proof.
  unfold ParseDAVLevel_body.
  repeat match goal with
         | |- context [if ?c then _ else _] => destruct c eqn:?
         | |- context [let '(_, _) := ?p in _] => destruct p eqn:?
         end; simplify_eq/=; rewrite !elem_of_cons; auto.
Qed.

Lemma ParseDAVLevel_loop_level_in field_value dav_level :
  ParseDAVLevel_loop field_value dav_level ∈ [dav_level; 1; 2].
Proof.
  funelim (ParseDAVLevel_loop field_value dav_level).
  - left.
  - pose proof (ParseDAVLevel_body_level_in field_value dav_level) as Hlevel.
    match goal with
    | E : ParseDAVLevel_body _ _ = _ |- _ => rewrite E in Hlevel
    end.
    exact Hlevel.
  - pose proof (ParseDAVLevel_body_level_in field_value dav_level) as Hlevel.
    rewrite Hbody in Hlevel.
    rewrite !elem_of_cons in H, Hlevel |- *.
    destruct H as [->|[->|[->|?]]]; auto.
Qed.

(** X14.  Whatever bytes the DAV header holds, well formed or not,
    [ParseDAVLevel] gives 0, 1 or 2; and the loop never lowers the level it
    starts from, nor raises it above 2. *)
Theorem dav_level_is_0_1_or_2 (responsePropertyRef : CFHTTPMessage)
    (field_value : cstring) (dav_level : Z) :
  ParseDAVLevel responsePropertyRef ∈ [0; 1; 2]
  /\ dav_level <= ParseDAVLevel_loop field_value dav_level <= Z.max dav_level 2
  /\ ParseDAVLevel_loop field_value dav_level ∈ [dav_level; 1; 2].
Proof.
  split; [|split; [apply ParseDAVLevel_loop_level
                  |apply ParseDAVLevel_loop_level_in]].
  unfold ParseDAVLevel.
  repeat case_match; try (rewrite !elem_of_cons; by auto);
    apply ParseDAVLevel_loop_level_in.
Qed.

(** ** The operations *)

(** Membership in a list that is written out, and inclusion of such lists. *)
Ltac in_list := rewrite !elem_of_cons; auto 10.
Ltac subset_list := intros ?; rewrite !elem_of_cons, ?elem_of_nil; tauto.

Lemma read_body_length realloc_fails s currentbuffer bufferSize totalRead
    buffer count s' :
  read_body realloc_fails s currentbuffer bufferSize totalRead
  = BodyRead buffer count s' ->
  count - Z.of_nat (length buffer) = totalRead - Z.of_nat (length currentbuffer).
Proof.
  funelim (read_body realloc_fails s currentbuffer bufferSize totalRead);
    intros Hbody.
  all: try (apply Z.ltb_lt in Hpos).
  all: try match goal with
         | E : CFReadStreamRead _ _ = _ |- _ =>
             pose proof (CFReadStreamRead_count _ _ _ _ _ E) as Hlen
         end.
  all: repeat (case_match; simplify_eq/=); try lia.
  all: match goal with
       | IH : forall _ _ _, _ -> _ |- _ => rewrite (IH _ _ _ Hbody)
       end.
  all: rewrite length_app, Hlen by lia; lia.
Qed.

Section OperationFacts.
Context {codes : SecureTransport}.

Lemma stream_transaction_length request auto_redirect retry w buffer count
    response retry' w' :
  stream_transaction request auto_redirect retry w
  = (Success (buffer, count, response), retry', w') ->
  count = Z.of_nat (length buffer).
Proof.
  unfold stream_transaction. intros H.
  repeat (case_match; simplify_eq/=).
  match goal with
  | E : read_body _ _ _ _ _ = BodyRead _ _ _ |- _ =>
      apply read_body_length in E; simpl in E; lia
  end.
Qed.

Lemma send_transaction_body_length uid url method bodyData headerCount headers
    auto_redirect l again l' :
  send_transaction_body uid url method bodyData headerCount headers auto_redirect l
  = (again, l') ->
  buffer_measured l'.
Proof.
  unfold send_transaction_body, CFHTTPMessageCreateRequest, buffer_measured.
  intros H.
  destruct (message_create_fails (plan (config (l_world l))));
    [by simplify_eq/=|].
  destruct (authcache_apply _ _ _ _ _) as [[error message] w1].
  destruct (Z.eqb_spec error 0) as [->|Hne]; simpl in H;
    [|by simplify_eq/=].
  destruct (stream_transaction _ _ _ _) as [[o retry1] w2] eqn:Hstream.
  destruct o as [[[buffer count] responseRef]|r].
  - apply stream_transaction_length in Hstream. simplify_eq/=. by eexists.
  - pose proof (stream_transaction_result _ _ _ _ _ _ _ Hstream) as [_ Ho].
    destruct (r =? EAGAIN); simplify_eq/=; intros ->;
      destruct Ho as [?|[?|[?|?]]]; discriminate.
Qed.

Lemma send_transaction_loop_length uid url method bodyData headerCount headers
    auto_redirect l :
  buffer_measured
    (send_transaction_loop uid url method bodyData headerCount headers
       auto_redirect l).
Proof.
  funelim (send_transaction_loop uid url method bodyData headerCount headers
             auto_redirect l); [done|].
  match goal with
  | E : send_transaction_body _ _ _ _ _ _ _ _ = _ |- _ =>
      exact (send_transaction_body_length _ _ _ _ _ _ _ _ _ _ E)
  end.
Qed.

Lemma send_transaction_loop_config uid url method bodyData headerCount headers
    auto_redirect l :
  config (l_world (send_transaction_loop uid url method bodyData headerCount
                     headers auto_redirect l))
  = config (l_world l).
Proof.
  funelim (send_transaction_loop uid url method bodyData headerCount headers
             auto_redirect l).
  - destruct (send_transaction_body_log _ _ _ _ _ _ _ _ _ _ Hbody) as [_ Hconfig].
    congruence.
  - match goal with
    | E : send_transaction_body _ _ _ _ _ _ _ _ = _ |- _ =>
        by destruct (send_transaction_body_log _ _ _ _ _ _ _ _ _ _ E)
    end.
Qed.

(** What the operations rely on when they call [send_transaction]. *)
Lemma send_transaction_effect uid url method bodyData headerCount headers
    auto_redirect w error buffer count response w' :
  send_transaction uid url method bodyData headerCount headers auto_redirect w
  = (error, buffer, count, response, w') ->
  log_grows
    (transaction_event
       (request_sent (config w) uid url method bodyData headerCount headers) uid)
    w w'
  /\ config w' = config w
  /\ in_use w' = in_use w
  /\ (error = 0 ->
      exists b, buffer = Some b /\ count = Z.of_nat (length b)
                /\ exists r, response = Some r).
Proof.
  intros H.
  split; [by eapply send_transaction_log|].
  pose proof (send_transaction_in_use uid url method bodyData headerCount headers
                auto_redirect w) as Hslots.
  rewrite H in Hslots. simpl in Hslots.
  revert H. unfold send_transaction, authcache_valid.
  match goal with
  | |- context [send_transaction_loop ?a ?b ?c ?d ?e ?f ?g ?l0] =>
      pose proof (send_transaction_loop_config a b c d e f g l0) as Hconfig;
      pose proof (send_transaction_loop_length a b c d e f g l0) as Hlength;
      pose proof (send_transaction_loop_result a b c d e f g l0) as Hloop;
      destruct (send_transaction_loop a b c d e f g l0)
        as [le lm lr ls lb ln lt lw]
  end.
  cbv zeta in Hloop. unfold got_response, buffer_measured in *. simpl in *.
  destruct Hloop as (_ & _ & Hok & _).
  intros H. split; [|split; [done|]].
  - repeat (case_match; simplify_eq/=); done.
  - intros ->.
    destruct (Z.eqb_spec le 0) as [->|Hne]; simpl in H.
    + destruct (Hlength eq_refl) as (b & -> & ->).
      destruct (Hok eq_refl) as ((m & r & b' & -> & -> & _) & _).
      destruct (Z.eqb_spec (translate_status_to_error ls) 0);
        simplify_eq/=; eauto.
    + by simplify_eq/=.
Qed.

End OperationFacts.

Lemma set_headers_request (m : CFHTTPMessage) (headers : list (string * CFString)) :
  let m' := foldl (fun m h => CFHTTPMessageSetHeaderFieldValue m h.1 h.2) m headers in
  requestMethod m' = requestMethod m /\ requestURL m' = requestURL m
  /\ messageBody m' = messageBody m.
Proof.
  revert m. induction headers as [|h headers IH]; intros m; [done|].
  simpl. destruct (IH (CFHTTPMessageSetHeaderFieldValue m h.1 h.2))
    as (-> & -> & ->). done.
Qed.

Lemma request_sent_request cfg uid url method bodyData headerCount headers :
  let r := request_sent cfg uid url method bodyData headerCount headers in
  requestMethod r = method /\ requestURL r = Some url
  /\ credentials r = Some uid /\ messageBody r = bodyData.
Proof.
  unfold request_sent. simpl.
  match goal with
  | |- context [foldl ?f ?m ?hs] =>
      destruct (set_headers_request m hs) as (-> & -> & ->)
  end.
  destruct (X_Source_Id_HeaderValue cfg), bodyData; done.
Qed.

Lemma request_sent_for cfg uid url method bodyData headerCount headers methods :
  method ∈ methods ->
  request_for url uid methods
    (request_sent cfg uid url method bodyData headerCount headers).
Proof.
  intros Hin.
  destruct (request_sent_request cfg uid url method bodyData headerCount headers)
    as (Hm & Hu & Hc & _).
  unfold request_for. by rewrite Hm, Hu, Hc.
Qed.

Lemma transaction_request_event request uid (allowed : CFHTTPMessage -> Prop) e :
  allowed request -> transaction_event request uid e -> request_event allowed uid e.
Proof. intros Hr. destruct e; simpl; try done. by intros ->. Qed.

Lemma request_event_weaken (P Q : CFHTTPMessage -> Prop) uid e :
  (forall r, P r -> Q r) -> request_event P uid e -> request_event Q uid e.
Proof. intros HPQ. destruct e; simpl; auto. Qed.

Lemma request_for_weaken url uid methods methods' r :
  methods ⊆ methods' -> request_for url uid methods r ->
  request_for url uid methods' r.
Proof. intros Hsub (? & ? & ?). unfold request_for. auto. Qed.

(** The last header of a request that sets them all. *)
Lemma request_sent_last_header cfg uid url method bodyData headers field value :
  headerFields
    (request_sent cfg uid url method bodyData
       (Z.of_nat (length (headers ++ [(field, value)]))) (headers ++ [(field, value)]))
  !! field = Some value.
Proof.
  unfold request_sent. rewrite Nat2Z.id, firstn_all. simpl.
  rewrite foldl_app. simpl. by rewrite lookup_insert_eq.
Qed.

(** X15.  The count that a transaction returns with the body is the number
    of bytes of the buffer it returns, for [stream_transaction] and for
    [send_transaction] whenever they succeed: the parsers are never given a
    count that reaches past the buffer. *)
Theorem count_is_length_of_buffer {codes : SecureTransport}
    (request : CFHTTPMessage) (auto_redirect retry : bool) (uid : Z) (url : CFURL)
    (method : string) (bodyData : option (list ascii)) (headerCount : Z)
    (headers : list (string * CFString)) (w : World) :
  (let '(o, _, _) := stream_transaction request auto_redirect retry w in
   match o with
   | Success (buffer, count, _) => count = Z.of_nat (length buffer)
   | Failure _ => True
   end)
  /\ (let '(error, buffer, count, _, _) :=
        send_transaction uid url method bodyData headerCount headers
          auto_redirect w in
      if error =? 0
      then exists b, buffer = Some b /\ count = Z.of_nat (length b)
      else True).
Proof.
  split.
  - destruct (stream_transaction _ _ _ _) as [[[[[buffer count] r]|e] retry'] w']
      eqn:H; [|done].
    by eapply stream_transaction_length.
  - destruct (send_transaction _ _ _ _ _ _ _ _)
      as [[[[error buffer] count] response] w'] eqn:H.
    apply send_transaction_effect in H as (_ & _ & _ & Hok).
    destruct (Z.eqb_spec error 0) as [->|]; [|done].
    destruct (Hok eq_refl) as (b & ? & ? & _). eauto.
Qed.

Section OperationProperties.
Context {codes : SecureTransport} {services : URLServices} {outside : Outside}.

(** X16.  [network_read] never returns more than it was asked for.  With
    [count] at least 0: on success there is a buffer, and [*actual_count] is
    between 0 and [count] and no more than the bytes of the buffer; on an
    error the buffer is NULL and [*actual_count] is 0.  Every request sent
    is a GET under the credentials of [uid] with the Range header
    [bytes=offset-(offset+count-1)], and every slot is given back. *)
Theorem network_read_is_clipped (uid : Z) (node : node_entry) (offset count : Z)
    (w : World) :
  0 <= count ->
  let '(error, buffer, actual_count, w') := network_read uid node offset count w in
  (if error =? 0
   then exists b, buffer = Some b /\ 0 <= actual_count <= count
                  /\ actual_count <= Z.of_nat (length b)
   else buffer = None /\ actual_count = 0)
  /\ log_grows
       (request_event
          (fun r => requestMethod r = "GET"%string /\ credentials r = Some uid
                    /\ headerFields r !! "Range"%string
                       = Some (byte_range offset count))
          uid) w w'
  /\ in_use w' = in_use w.
Proof.
  intros Hcount. unfold network_read.
  destruct (create_cfurl_from_node node None 0 w) as [urlRef|].
  2: { split; [done|]. split; [apply log_grows_refl|done]. }
  destruct (string_create_fails (plan (config w))).
  { split; [done|]. split; [apply log_grows_refl|done]. }
  destruct (send_transaction _ _ _ _ _ _ _ _)
    as [[[[error buffer] responseCount] response] w'] eqn:Hsend.
  apply send_transaction_effect in Hsend as (Hlog & _ & Hslots & Hok).
  assert (Hsent : log_grows
            (request_event
               (fun r => requestMethod r = "GET"%string /\ credentials r = Some uid
                         /\ headerFields r !! "Range"%string
                            = Some (byte_range offset count))
               uid) w w').
  { eapply log_grows_weaken; [|exact Hlog].
    intros e. apply transaction_request_event.
    match goal with
    | |- context [request_sent ?c ?u ?l ?m ?b ?n ?h] =>
        destruct (request_sent_request c u l m b n h) as (-> & _ & -> & _)
    end.
    split; [done|]. split; [done|].
    exact (request_sent_last_header _ _ _ _ _ [Accept_all] _ _). }
  destruct (Z.eqb_spec error 0) as [->|Hne]; simpl.
  - split; [|done].
    destruct (Hok eq_refl) as (b & -> & -> & _). exists b. split; [done|].
    destruct (Z.ltb_spec count (Z.of_nat (length b))); lia.
  - apply Z.eqb_neq in Hne. rewrite ?Hne. done.
Qed.

End OperationProperties.

Lemma network_read_is_clipped_witness :
  0 <= 4
  /\ let '(error, buffer, actual_count, w') :=
       network_read (codes := SecureTransport_h) (services := test_services)
         501 test_node 0 4 (test_world None [Some ten_bytes] []) in
     (if error =? 0
      then exists b, buffer = Some b /\ 0 <= actual_count <= 4
                     /\ actual_count <= Z.of_nat (length b)
      else buffer = None /\ actual_count = 0)
     /\ log_grows
          (request_event
             (fun r => requestMethod r = "GET"%string /\ credentials r = Some 501
                       /\ headerFields r !! "Range"%string
                          = Some (byte_range 0 4))
             501) (test_world None [Some ten_bytes] []) w'
     /\ in_use w' = in_use (test_world None [Some ten_bytes] []).
Proof.
  split; [lia|].
  apply (network_read_is_clipped (codes := SecureTransport_h)
           (services := test_services) 501 test_node 0 4
           (test_world None [Some ten_bytes] [])).
  lia.
Defined.

Lemma ParseDAVLevel_in (responsePropertyRef : CFHTTPMessage) :
  ParseDAVLevel responsePropertyRef ∈ [0; 1; 2].
Proof.
  unfold ParseDAVLevel.
  repeat case_match; try (rewrite !elem_of_cons; by auto);
    apply ParseDAVLevel_loop_level_in.
Qed.

Section OperationEffects.
Context {codes : SecureTransport} {services : URLServices} {outside : Outside}.

(** The events of one operation are events of any operation that may send
    its requests too. *)
Lemma log_grows_requests url uid methods request w w' :
  request_for url uid methods request ->
  log_grows (transaction_event request uid) w w' ->
  log_grows (request_event (request_for url uid methods) uid) w w'.
Proof.
  intros Hr. apply log_grows_weaken. intros e.
  by apply transaction_request_event.
Qed.

Lemma network_getDAVLevel_effect uid urlRef w error dav_level w' :
  network_getDAVLevel uid urlRef w = (error, dav_level, w') ->
  log_grows (request_event (request_for urlRef uid ["OPTIONS"%string]) uid) w w'
  /\ config w' = config w /\ in_use w' = in_use w
  /\ dav_level ∈ [0; 1; 2].
Proof.
  unfold network_getDAVLevel. intros H.
  destruct (send_transaction _ _ _ _ _ _ _ _)
    as [[[[e buffer] count] response] w1] eqn:Hsend.
  apply send_transaction_effect in Hsend as (Hlog & Hconfig & Hslots & _).
  assert (w1 = w') as -> by (by destruct (e =? 0); simplify_eq/=).
  split.
  { eapply log_grows_requests; [|exact Hlog].
    apply request_sent_for. in_list. }
  split; [done|]. split; [done|].
  destruct (e =? 0), response; simplify_eq/=;
    first [apply ParseDAVLevel_in | in_list].
Qed.

Lemma network_stat_effect uid urlRef statbuf w error statbuf' w' :
  network_stat uid urlRef statbuf w = (error, statbuf', w') ->
  log_grows (request_event (request_for urlRef uid ["PROPFIND"%string]) uid) w w'
  /\ config w' = config w /\ in_use w' = in_use w.
Proof.
  unfold network_stat. intros H.
  destruct (CFDataCreateWithBytesNoCopy _) as [bodyData|].
  2: { simplify_eq/=. split; [apply log_grows_refl|done]. }
  destruct (send_transaction _ _ _ _ _ _ _ _)
    as [[[[e buffer] count] response] w1] eqn:Hsend.
  apply send_transaction_effect in Hsend as (Hlog & Hconfig & Hslots & _).
  assert (w1 = w') as ->.
  { destruct (e =? 0); [|by simplify_eq/=].
    destruct (parse_stat _ _ _). by simplify_eq/=. }
  split; [|done].
  eapply log_grows_requests; [|exact Hlog].
  apply request_sent_for. in_list.
Qed.

Lemma network_dir_is_empty_effect uid urlRef w error w' :
  network_dir_is_empty uid urlRef w = (error, w') ->
  log_grows (request_event (request_for urlRef uid ["PROPFIND"%string]) uid) w w'
  /\ config w' = config w /\ in_use w' = in_use w.
Proof.
  unfold network_dir_is_empty. intros H.
  destruct (CFDataCreateWithBytesNoCopy _) as [bodyData|].
  2: { simplify_eq/=. split; [apply log_grows_refl|done]. }
  destruct (send_transaction _ _ _ _ _ _ _ _)
    as [[[[e buffer] count] response] w1] eqn:Hsend.
  apply send_transaction_effect in Hsend as (Hlog & Hconfig & Hslots & _).
  assert (w1 = w') as ->.
  { destruct (e =? 0); [|by simplify_eq/=].
    destruct (parse_file_count _ _) as [e2 n].
    destruct (e2 =? 0), (1 <? n); by simplify_eq/=. }
  split; [|done].
  eapply log_grows_requests; [|exact Hlog].
  apply request_sent_for. in_list.
Qed.

Lemma network_delete_effect uid urlRef node w error remove_date w' :
  network_delete uid urlRef node w = (error, remove_date, w') ->
  log_grows (request_event (request_for urlRef uid ["DELETE"%string]) uid) w w'
  /\ config w' = config w /\ in_use w' = in_use w.
Proof.
  unfold network_delete. intros H.
  match type of H with
  | context [let '(_, _) := ?p in _] => destruct p as [headerCount headers]
  end.
  destruct (send_transaction _ _ _ _ _ _ _ _)
    as [[[[e buffer] count] response] w1] eqn:Hsend.
  apply send_transaction_effect in Hsend as (Hlog & Hconfig & Hslots & _).
  assert (w1 = w') as -> by (by destruct (e =? 0); simplify_eq/=).
  split; [|done].
  eapply log_grows_requests; [|exact Hlog].
  apply request_sent_for. in_list.
Qed.

Lemma log_grows_more_methods url uid methods methods' w w' :
  methods ⊆ methods' ->
  log_grows (request_event (request_for url uid methods) uid) w w' ->
  log_grows (request_event (request_for url uid methods') uid) w w'.
Proof.
  intros Hsub. apply log_grows_weaken. intros e.
  apply request_event_weaken. intros r. by apply request_for_weaken.
Qed.

(** X17.  Mounting only reads.  [network_mount] returns 0, ENODEV or
    ECANCELED; it leaves the mount flags as they are or sets MNT_RDONLY in
    them; every request it sends is an OPTIONS or a PROPFIND for the base
    URL under the credentials of [uid]; and every slot is given back. *)
Theorem network_mount_only_reads (uid server_mount_flags : Z) (statbuf : stat)
    (w : World) :
  let '(error, flags, w') := network_mount uid server_mount_flags statbuf w in
  error ∈ [0; ENODEV; ECANCELED]
  /\ (flags = server_mount_flags \/ flags = Z.lor server_mount_flags MNT_RDONLY)
  /\ log_grows
       (request_event
          (request_for (gBaseURL (config w)) uid ["OPTIONS"; "PROPFIND"]%string)
          uid)
       w w'
  /\ in_use w' = in_use w.
Proof.
  unfold network_mount.
  destruct (network_getDAVLevel _ _ _) as [[e1 level] w1] eqn:Hlevel.
  apply network_getDAVLevel_effect in Hlevel
    as (Hlog1 & Hconfig1 & Hslots1 & _).
  apply (log_grows_more_methods _ _ _ ["OPTIONS"; "PROPFIND"]%string) in Hlog1;
    [|subset_list].
  destruct (Z.eqb_spec e1 0) as [->|Hne1].
  2: { destruct (e1 =? EACCES); simpl;
         (split; [in_list|]); auto. }
  destruct (network_stat uid (gBaseURL (config w)) statbuf w1)
    as [[e2 st] w2] eqn:Hstat.
  apply network_stat_effect in Hstat as (Hlog2 & _ & Hslots2).
  assert (Hlog : log_grows
                   (request_event
                      (request_for (gBaseURL (config w)) uid
                         ["OPTIONS"; "PROPFIND"]%string) uid) w w2).
  { eapply log_grows_trans; [exact Hlog1|].
    eapply log_grows_more_methods; [|exact Hlog2]. subset_list. }
  assert (Hslots : in_use w2 = in_use w) by congruence.
  destruct (Z.eqb_spec e2 0) as [->|Hne2].
  all: repeat case_match; simplify_eq/=.
  all: split; [in_list|]; auto.
Qed.

(** X18.  What the DAV class of the server decides at mount time.  Given
    that the OPTIONS succeeds with DAV level [level] (which is 0, 1 or 2):
    with level 0 the mount fails with ENODEV and nothing more is sent; with
    level 1 MNT_RDONLY is set in the mount flags; with level 2 the flags are
    left alone.  In both cases the base URL is then looked at with
    [network_stat], and the mount succeeds only if that succeeds and finds a
    directory. *)
Theorem network_mount_by_DAV_class (uid server_mount_flags : Z) (statbuf : stat)
    (w : World) (level : Z) (w1 : World) :
  network_getDAVLevel uid (gBaseURL (config w)) w = (0, level, w1) ->
  level ∈ [0; 1; 2]
  /\ let '(error, flags, w') := network_mount uid server_mount_flags statbuf w in
     if level =? 0 then (error, flags, w') = (ENODEV, server_mount_flags, w1)
     else
       flags = (if level =? 1 then Z.lor server_mount_flags MNT_RDONLY
                else server_mount_flags)
       /\ (level = 1 -> Z.testbit flags 0 = true)
       /\ exists e st,
           network_stat uid (gBaseURL (config w)) statbuf w1 = (e, st, w')
           /\ (error = 0 <-> e = 0 /\ S_ISDIR (st_mode st) = true).
Proof.
  intros Hlevel. unfold network_mount. rewrite Hlevel.
  apply network_getDAVLevel_effect in Hlevel as (_ & Hconfig & _ & Hin).
  split; [done|]. simpl.
  assert (Hcases : level = 0 \/ level = 1 \/ level = 2).
  { rewrite !elem_of_cons, elem_of_nil in Hin. tauto. }
  destruct Hcases as [->|[->| ->]]; simpl; [done| |].
  all: destruct (network_stat _ _ _ _) as [[e st] w2] eqn:Hstat.
  all: assert (Hresult : forall flags : Z,
           exists error,
             (if negb (e =? 0)
              then if negb (e =? EACCES) then (ENODEV, flags, w2)
                   else (ECANCELED, flags, w2)
              else if negb (S_ISDIR (st_mode st)) then (ENODEV, flags, w2)
                   else (e, flags, w2))
             = (error, flags, w2)
             /\ (error = 0 <-> e = 0 /\ S_ISDIR (st_mode st) = true)).
  1,3: intros flags; destruct (Z.eqb_spec e 0) as [->|Hne]; simpl;
         [destruct (S_ISDIR (st_mode st)); simpl; eexists;
            (split; [done|]); split; intros; try done;
            destruct_and?; done
         |destruct (e =? EACCES); simpl; eexists; (split; [done|]);
            split; intros; destruct_and?; done].
  - destruct (Hresult (Z.lor server_mount_flags MNT_RDONLY))
      as (error & -> & Hiff).
    split; [done|]. split.
    + intros _.
      change (Z.testbit (Z.lor server_mount_flags MNT_RDONLY) 0 = true).
      rewrite Z.lor_spec. apply orb_true_r.
    + by exists e, st.
  - destruct (Hresult server_mount_flags) as (error & -> & Hiff).
    split; [done|]. split; [done|]. by exists e, st.
Qed.

End OperationEffects.

Lemma network_mount_by_DAV_class_witness :
  let w := test_world None [Some (class_1_server); Some multistatus] [] in
  let w1 :=
    (network_getDAVLevel (codes := SecureTransport_h) 501 (gBaseURL (config w)) w).2 in
  network_getDAVLevel (codes := SecureTransport_h) 501 (gBaseURL (config w)) w
  = (0, 1, w1)
  /\ 1 ∈ [0; 1; 2]
  /\ let '(error, flags, w') :=
       network_mount (codes := SecureTransport_h) (outside := test_outside)
         501 0 {| st_mode := 0; st_ino := 0 |} w in
     if 1 =? 0 then (error, flags, w') = (ENODEV, 0, w1)
     else
       flags = (if 1 =? 1 then Z.lor 0 MNT_RDONLY else 0)
       /\ (1 = 1 -> Z.testbit flags 0 = true)
       /\ exists e st,
           network_stat (codes := SecureTransport_h) (outside := test_outside)
             501 (gBaseURL (config w)) {| st_mode := 0; st_ino := 0 |} w1
           = (e, st, w')
           /\ (error = 0 <-> e = 0 /\ S_ISDIR (st_mode st) = true).
Proof.
  assert (H : network_getDAVLevel (codes := SecureTransport_h) 501
                (gBaseURL test_config)
                (test_world None [Some (class_1_server); Some multistatus] [])
              = (0, 1,
                 (network_getDAVLevel (codes := SecureTransport_h) 501
                    (gBaseURL test_config)
                    (test_world None [Some (class_1_server); Some multistatus]
                       [])).2))
    by (vm_compute; reflexivity).
  split; [exact H|].
  exact (network_mount_by_DAV_class (codes := SecureTransport_h)
           (outside := test_outside) 501 0 {| st_mode := 0; st_ino := 0 |}
           (test_world None [Some (class_1_server); Some multistatus] []) 1 _ H).
Defined.

Lemma sent_method url uid methods method w w' :
  log_grows (request_event (request_for url uid methods) uid) w w' ->
  sent method w w' -> method ∈ methods.
Proof.
  intros (evs & Hlog & Hall) (evs' & r & Hlog' & Hin & <-).
  rewrite Hlog in Hlog'. apply app_inv_head in Hlog' as <-.
  rewrite Forall_forall in Hall. by destruct (Hall _ Hin) as (_ & _ & ?).
Qed.

Lemma sent_after method w w1 w' :
  log w1 = log w -> sent method w w' -> sent method w1 w'.
Proof. intros Hlog (evs & r & H). exists evs, r. by rewrite Hlog. Qed.

(** A request sent between [w] and [w'] was sent before or after any world
    in between. *)
Lemma sent_split (Q Q' : Event -> Prop) method w w1 w' :
  log_grows Q w w1 -> log_grows Q' w1 w' ->
  sent method w w' -> sent method w w1 \/ sent method w1 w'.
Proof.
  intros (evs1 & Hlog1 & _) (evs2 & Hlog2 & _) (evs & r & Hlog & Hin & Hm).
  rewrite Hlog2, Hlog1, <-app_assoc in Hlog. apply app_inv_head in Hlog as <-.
  apply elem_of_app in Hin as [Hin|Hin];
    [left; by exists evs1, r|right; by exists evs2, r].
Qed.

Lemma not_sent_same method w : ~ sent method w w.
Proof.
  intros (evs & r & Hlog & Hin & _).
  rewrite <-(app_nil_r (log w)) in Hlog at 1.
  apply app_inv_head in Hlog as <-. by apply not_elem_of_nil in Hin.
Qed.

Section Removal.
Context {codes : SecureTransport} {services : URLServices} {outside : Outside}.

(** [network_dir_is_empty] returns 0 only when the PROPFIND has succeeded
    and the parser has counted no more than the directory itself. *)
Lemma network_dir_is_empty_0 uid urlRef w w1 :
  network_dir_is_empty uid urlRef w = (0, w1) ->
  exists bodyData b response n,
    CFDataCreateWithBytesNoCopy (propfind_xml ["<D:resourcetype/>"%string])
    = Some bodyData
    /\ send_transaction uid urlRef "PROPFIND" (Some bodyData) 3 depth_1_headers
         true w
       = (0, Some b, Z.of_nat (length b), response, w1)
    /\ parse_file_count b (Z.of_nat (length b)) = (0, n)
    /\ n <= 1.
Proof.
  unfold network_dir_is_empty, depth_1_headers. intros H.
  destruct (CFDataCreateWithBytesNoCopy _) as [bodyData|]; [|done].
  destruct (send_transaction _ _ _ _ _ _ _ _)
    as [[[[e buffer] count] response] w2] eqn:Hsend.
  pose proof (send_transaction_effect _ _ _ _ _ _ _ _ _ _ _ _ _ Hsend)
    as (_ & _ & _ & Hok).
  destruct (Z.eqb_spec e 0) as [->|Hne]; [|by simplify_eq/=].
  destruct (Hok eq_refl) as (b & -> & -> & _). simpl in H.
  destruct (parse_file_count _ _) as [e2 n] eqn:Hparse.
  destruct (Z.eqb_spec e2 0) as [->|Hne]; [|by simplify_eq/=].
  destruct (Z.ltb_spec 1 n); simplify_eq/=.
  exists bodyData, b, response, n. split; [done|]. split; [done|].
  split; [done|lia].
Qed.

(** X19.  [network_rmdir] deletes only what it has found empty.  If it
    returns 0, or if a DELETE went out at all, then before that the
    PROPFIND with Depth 1 for the directory had succeeded and
    [parse_file_count] had counted at most one entry in its body, the
    directory itself; and the rest of the call was [network_delete] for the
    same URL.  Every request of the call is a PROPFIND or a DELETE for the
    URL of the node under the credentials of [uid].  When the URL cannot be
    built or the directory is not found empty, [*remove_date] is left as
    the caller had it. *)
Theorem network_rmdir_checks_first (uid : Z) (node : node_entry)
    (remove_date : Z) (w : World) :
  let '(error, remove_date', w') := network_rmdir uid node remove_date w in
  (forall urlRef,
      create_cfurl_from_node node None 0 w = Some urlRef ->
      log_grows
        (request_event (request_for urlRef uid ["PROPFIND"; "DELETE"]%string) uid)
        w w')
  /\ (error = 0 \/ sent "DELETE" w w' ->
      exists urlRef bodyData b response n w1,
        create_cfurl_from_node node None 0 w = Some urlRef
        /\ send_transaction uid urlRef "PROPFIND" (Some bodyData) 3
             depth_1_headers true w
           = (0, Some b, Z.of_nat (length b), response, w1)
        /\ parse_file_count b (Z.of_nat (length b)) = (0, n)
        /\ n <= 1
        /\ network_delete uid urlRef node w1 = (error, remove_date', w'))
  /\ (match create_cfurl_from_node node None 0 w with
      | None => True
      | Some urlRef => (network_dir_is_empty uid urlRef w).1 <> 0
      end ->
      remove_date' = remove_date).
Proof.
  unfold network_rmdir.
  destruct (create_cfurl_from_node node None 0 w) as [urlRef|].
  2: { split; [done|]. split; [|done]. intros [?|Hsent]; [done|].
       by apply not_sent_same in Hsent. }
  destruct (network_dir_is_empty uid urlRef w) as [e w1] eqn:Hempty.
  pose proof (network_dir_is_empty_effect _ _ _ _ _ Hempty) as (Hlog1 & _ & _).
  destruct (Z.eqb_spec e 0) as [->|Hne].
  - destruct (network_delete uid urlRef node w1) as [[error date] w'] eqn:Hdelete.
    pose proof (network_delete_effect _ _ _ _ _ _ _ Hdelete) as (Hlog2 & _ & _).
    split; [|split; [|done]].
    + intros ? [= <-]. eapply log_grows_trans.
      * eapply log_grows_more_methods; [|exact Hlog1]. subset_list.
      * eapply log_grows_more_methods; [|exact Hlog2]. subset_list.
    + intros _.
      destruct (network_dir_is_empty_0 _ _ _ _ Hempty)
        as (bodyData & b & response & n & _ & Hsend & Hparse & Hn).
      by exists urlRef, bodyData, b, response, n, w1.
  - split; [|split; [|done]].
    + intros ? [= <-].
      eapply log_grows_more_methods; [|exact Hlog1]. subset_list.
    + intros [?|Hsent]; [done|].
      apply (sent_method _ _ _ _ _ _ Hlog1) in Hsent.
      rewrite !elem_of_cons, elem_of_nil in Hsent.
      destruct Hsent as [?|?]; done.
Qed.

End Removal.

Section Rename.
Context {codes : SecureTransport} {services : URLServices} {outside : Outside}.

Lemma CFEqual_refl (url : CFURL) : CFEqual url url = true.
Proof. unfold CFEqual. by apply bool_decide_eq_true. Qed.

(** The source and the destination are not the same URL: [Hequal] says
    that [CFEqual] has found them different. *)
Ltac same_url Hequal :=
  let Hfrom := fresh in
  let Hdest := fresh in
  intros ? Hfrom Hdest; simplify_eq/=; by rewrite CFEqual_refl in Hequal.

(** The facts about a MOVE that has gone out, [Hmove] being what the
    transaction left in the log. *)
Ltac moved Hmove :=
  (split; [done|]); (split; [done|]); (split; [done|]); (split; [done|]);
  (split; [done|]); eapply Hmove; reflexivity.

(** X20.  What [network_rename] sends.  When the source and the
    destination are the same URL it returns 0 and has sent nothing.  A MOVE
    goes out only for a destination that differs from the source, with the
    string of the destination URL in the Destination header, under the
    credentials of [uid]; and when the rename goes over a directory, only
    after [network_dir_is_empty] has returned 0 for that directory. *)
Theorem network_rename_moves (uid : Z) (from_node : node_entry)
    (to_node : option (node_entry * webdav_filetype)) (to_dir_node : node_entry)
    (to_name : option cstring) (to_name_length : Z) (w : World) :
  let '(error, rename_date, w') :=
    network_rename uid from_node to_node to_dir_node to_name to_name_length w in
  let destination :=
    rename_destination to_node to_dir_node to_name to_name_length w in
  (forall urlRef,
      create_cfurl_from_node from_node None 0 w = Some urlRef ->
      destination = Some urlRef ->
      (error, rename_date, w') = (0, -1, w))
  /\ (sent "MOVE" w w' ->
      exists urlRef destinationUrlRef destinationRef w1,
        create_cfurl_from_node from_node None 0 w = Some urlRef
        /\ destination = Some destinationUrlRef
        /\ CFEqual urlRef destinationUrlRef = false
        /\ CFURLGetString destinationUrlRef = Some destinationRef
        /\ (if is_directory to_node
            then network_dir_is_empty uid destinationUrlRef w = (0, w1)
            else w1 = w)
        /\ log_grows
             (request_event
                (fun r => request_for urlRef uid ["MOVE"%string] r
                          /\ headerFields r !! "Destination"%string
                             = Some destinationRef)
                uid)
             w1 w').
Proof.
  unfold network_rename, rename_destination.
  destruct (create_cfurl_from_node from_node None 0 w) as [urlRef|].
  2: { split; [done|]. intros Hsent. by apply not_sent_same in Hsent. }
  (* the MOVE itself, from any world [w1] *)
  assert (Hmove : forall destinationRef w1 error date w',
             (let '(error, _, _, response, w) :=
                send_transaction uid urlRef "MOVE" None 2
                  [Accept_all; ("Destination"%string, destinationRef)] false w1 in
              if error =? 0
              then (error,
                    match response ≫=
                            (fun r => CFHTTPMessageCopyHeaderFieldValue r "Date") with
                    | Some dateHeaderRef => DateStringToTime dateHeaderRef
                    | None => -1
                    end, w)
              else (error, -1, w)) = (error, date, w') ->
             log_grows
               (request_event
                  (fun r => request_for urlRef uid ["MOVE"%string] r
                            /\ headerFields r !! "Destination"%string
                               = Some destinationRef)
                  uid)
               w1 w').
  { intros destinationRef w1 error date w' H.
    destruct (send_transaction _ _ _ _ _ _ _ _)
      as [[[[e buffer] count] response] w2] eqn:Hsend.
    apply send_transaction_effect in Hsend as (Hlog & _).
    assert (w2 = w') as -> by (by destruct (e =? 0); simplify_eq/=).
    eapply log_grows_weaken; [|exact Hlog].
    intros ev. apply transaction_request_event. split.
    - apply request_sent_for. in_list.
    - exact (request_sent_last_header _ _ _ _ _ [Accept_all] _ _). }
  destruct to_node as [[to_node to_node_type]|]; simpl.
  - destruct (create_cfurl_from_node to_node None 0 w) as [dest|].
    2: { split; [done|]. intros Hsent. by apply not_sent_same in Hsent. }
    destruct (CFEqual urlRef dest) eqn:Hequal.
    { split; [done|]. intros Hsent. by apply not_sent_same in Hsent. }
    destruct to_node_type.
    + destruct (CFURLGetString dest) as [destinationRef|] eqn:Hstring.
      2: { split; [same_url Hequal|]. intros Hsent.
           by apply not_sent_same in Hsent. }
      destruct (send_transaction _ _ _ _ _ _ _ _)
        as [[[[e buffer] count] response] w2] eqn:Hsend.
      specialize (Hmove destinationRef w). rewrite Hsend in Hmove.
      destruct (e =? 0); (split; [same_url Hequal|]); intros _;
        exists urlRef, dest, destinationRef, w; moved Hmove.
    + destruct (network_dir_is_empty uid dest w) as [e1 w1] eqn:Hempty.
      pose proof (network_dir_is_empty_effect _ _ _ _ _ Hempty)
        as (Hlog1 & _ & _).
      destruct (Z.eqb_spec e1 0) as [->|Hne]; simpl.
      2: { split; [same_url Hequal|]. intros Hsent.
           apply (sent_method _ _ _ _ _ _ Hlog1) in Hsent.
           rewrite !elem_of_cons, elem_of_nil in Hsent.
           destruct Hsent as [?|?]; done. }
      destruct (CFURLGetString dest) as [destinationRef|] eqn:Hstring.
      2: { split; [same_url Hequal|]. intros Hsent.
           apply (sent_method _ _ _ _ _ _ Hlog1) in Hsent.
           rewrite !elem_of_cons, elem_of_nil in Hsent.
           destruct Hsent as [?|?]; done. }
      destruct (send_transaction _ _ _ _ _ _ _ _)
        as [[[[e buffer] count] response] w2] eqn:Hsend.
      specialize (Hmove destinationRef w1). rewrite Hsend in Hmove.
      destruct (e =? 0); (split; [same_url Hequal|]); intros _;
        exists urlRef, dest, destinationRef, w1; moved Hmove.
  - destruct (create_cfurl_from_node to_dir_node to_name to_name_length w)
      as [dest|].
    2: { split; [done|]. intros Hsent. by apply not_sent_same in Hsent. }
    destruct (CFEqual urlRef dest) eqn:Hequal.
    { split; [done|]. intros Hsent. by apply not_sent_same in Hsent. }
    destruct (CFURLGetString dest) as [destinationRef|] eqn:Hstring.
    2: { split; [same_url Hequal|]. intros Hsent.
         by apply not_sent_same in Hsent. }
    destruct (send_transaction _ _ _ _ _ _ _ _)
      as [[[[e buffer] count] response] w2] eqn:Hsend.
    specialize (Hmove destinationRef w). rewrite Hsend in Hmove.
    destruct (e =? 0); (split; [same_url Hequal|]); intros _;
      exists urlRef, dest, destinationRef, w; moved Hmove.
Qed.

End Rename.

Lemma set_headers_lookup (m : CFHTTPMessage) (headers : list (string * CFString))
    field value :
  NoDup headers.*1 -> (field, value) ∈ headers ->
  headerFields (foldl (fun m h => CFHTTPMessageSetHeaderFieldValue m h.1 h.2) m headers)
  !! field = Some value.
Proof.
  induction headers as [|h headers IH] using rev_ind; intros Hnodup Hin.
  { by apply not_elem_of_nil in Hin. }
  rewrite fmap_app in Hnodup. apply NoDup_app in Hnodup as (Hnodup & Hnot & _).
  rewrite foldl_app. simpl.
  apply elem_of_app in Hin as [Hin|Hin].
  - rewrite lookup_insert_ne; [by apply IH|].
    intros <-. apply (Hnot h.1); [|simpl; left].
    apply list_elem_of_fmap. by exists (h.1, value).
  - apply list_elem_of_singleton in Hin as <-. simpl. by rewrite lookup_insert_eq.
Qed.

Lemma set_headers_lookup_None (m : CFHTTPMessage)
    (headers : list (string * CFString)) field :
  field ∉ headers.*1 -> headerFields m !! field = None ->
  headerFields (foldl (fun m h => CFHTTPMessageSetHeaderFieldValue m h.1 h.2) m headers)
  !! field = None.
Proof.
  revert m. induction headers as [|h headers IH]; intros m Hnot Hnone; [done|].
  simpl in *. apply not_elem_of_cons in Hnot as [Hne Hnot].
  apply IH; [done|]. simpl. by rewrite lookup_insert_ne.
Qed.

(** A header of a request that sets all of [headers], whose fields are all
    different and none of the two that [send_transaction] sets itself. *)
Lemma request_sent_header cfg uid url method bodyData headers field value :
  NoDup headers.*1 -> (field, value) ∈ headers ->
  headerFields
    (request_sent cfg uid url method bodyData (Z.of_nat (length headers)) headers)
  !! field = Some value.
Proof.
  intros Hnodup Hin. unfold request_sent. rewrite Nat2Z.id, firstn_all. simpl.
  by apply set_headers_lookup.
Qed.

Lemma request_sent_no_header cfg uid url method bodyData headers field :
  field ∉ "User-Agent"%string :: "X-Source-Id"%string :: headers.*1 ->
  headerFields
    (request_sent cfg uid url method bodyData (Z.of_nat (length headers)) headers)
  !! field = None.
Proof.
  intros Hnot. unfold request_sent. rewrite Nat2Z.id, firstn_all. simpl.
  apply not_elem_of_cons in Hnot as [Hagent Hnot].
  apply not_elem_of_cons in Hnot as [Hsource Hnot].
  apply set_headers_lookup_None; [done|].
  destruct (X_Source_Id_HeaderValue cfg), bodyData; simpl;
    rewrite ?lookup_insert_ne by done; done.
Qed.

Section Locks.
Context {codes : SecureTransport} {services : URLServices} {outside : Outside}.

Lemma format_if_locktoken_header node w token :
  format_if_locktoken (file_locktoken node) w = Some token ->
  token = if_header node.
Proof. unfold format_if_locktoken. by case_match; intros [= <-]. Qed.

(** What [network_lock] sends and what it does to the node. *)
Lemma network_lock_effect (uid : Z) (refresh : bool) (node : node_entry)
    (w : World) :
  let '(error, node', w') := network_lock uid refresh node w in
  log_grows
    (request_event (lock_request uid refresh node) (lock_owner uid refresh node))
    w w'
  /\ in_use w' = in_use w
  /\ if error =? 0
     then exists body,
         node' = with_locktoken node (parse_lock body (Z.of_nat (length body))).2
                   (lock_owner uid refresh node)
         /\ (parse_lock body (Z.of_nat (length body))).1 = 0
     else node' = node.
Proof.
  unfold network_lock.
  destruct (create_cfurl_from_node node None 0 w) as [urlRef|].
  2: { split; [apply log_grows_refl|done]. }
  destruct (string_create_fails (plan (config w))) eqn:Hstring.
  { split; [apply log_grows_refl|done]. }
  assert (Hsent : forall owner bodyData headers error buffer count response w',
             send_transaction owner urlRef "LOCK" bodyData
               (Z.of_nat (length headers)) headers false w
             = (error, buffer, count, response, w') ->
             lock_request uid refresh node
               (request_sent (config w) owner urlRef "LOCK" bodyData
                  (Z.of_nat (length headers)) headers) ->
             owner = lock_owner uid refresh node ->
             let '(error, node', w') :=
               if error =? 0
               then let '(error, locktoken) :=
                      parse_lock (default [] buffer) count in
                    if error =? 0
                    then (error, with_locktoken node locktoken owner, w')
                    else (error, node, w')
               else (error, node, w') in
             log_grows
               (request_event (lock_request uid refresh node)
                  (lock_owner uid refresh node)) w w'
             /\ in_use w' = in_use w
             /\ if error =? 0
                then exists body,
                    node' = with_locktoken node
                              (parse_lock body (Z.of_nat (length body))).2
                              (lock_owner uid refresh node)
                    /\ (parse_lock body (Z.of_nat (length body))).1 = 0
                else node' = node).
  { intros owner bodyData headers error buffer count response w' Hsend Hreq ->.
    apply send_transaction_effect in Hsend as (Hlog & _ & Hslots & Hok).
    assert (Hlog' : log_grows
                      (request_event (lock_request uid refresh node)
                         (lock_owner uid refresh node)) w w').
    { eapply log_grows_weaken; [|exact Hlog].
      intros e. by apply transaction_request_event. }
    destruct (Z.eqb_spec error 0) as [->|Hne].
    - destruct (Hok eq_refl) as (b & -> & -> & _). simpl.
      destruct (parse_lock b (Z.of_nat (length b))) as [e2 locktoken] eqn:Hparse.
      destruct (Z.eqb_spec e2 0) as [->|Hne2].
      + split; [done|]. split; [done|]. simpl. exists b. by rewrite Hparse.
      + split; [done|]. split; [done|]. apply Z.eqb_neq in Hne2.
        by rewrite Hne2.
    - split; [done|]. split; [done|]. apply Z.eqb_neq in Hne. by rewrite Hne. }
  destruct refresh.
  - destruct (format_if_locktoken (file_locktoken node) w) as [lockTokenRef|]
      eqn:Htoken.
    2: { split; [apply log_grows_refl|done]. }
    apply format_if_locktoken_header in Htoken as ->.
    destruct (send_transaction _ _ _ _ _ _ _ _)
      as [[[[error buffer] count] response] w'] eqn:Hsend.
    refine (Hsent _ _ [_; _; _; _; _] _ _ _ _ _ Hsend _ eq_refl).
    match goal with
    | |- context [request_sent ?c ?u ?l ?m ?b ?n ?h] =>
        destruct (request_sent_request c u l m b n h) as (Hm & _ & Hc & Hb)
    end.
    split; [done|]. split; [done|]. split; [|split; [done|]].
    all: apply request_sent_header;
      [compute_done|in_list].
  - destruct (CFDataCreateWithBytesNoCopy lockinfo_xml) as [bodyData|] eqn:Hdata.
    2: { split; [apply log_grows_refl|done]. }
    destruct (send_transaction _ _ _ _ _ _ _ _)
      as [[[[error buffer] count] response] w'] eqn:Hsend.
    refine (Hsent _ _ [_; _; _; _] _ _ _ _ _ Hsend _ eq_refl).
    match goal with
    | |- context [request_sent ?c ?u ?l ?m ?b ?n ?h] =>
        destruct (request_sent_request c u l m b n h) as (Hm & _ & Hc & Hb)
    end.
    split; [done|]. split; [done|]. split; [|split; [congruence|]].
    + apply request_sent_header;
        [compute_done|in_list].
    + apply request_sent_no_header. compute_done.
Qed.

(** X21.  What [network_lock] sends and what it does to the node.  Every
    request it sends is a LOCK with the Timeout header
    [Second-<gtimeout_string>], under the credentials of the caller when the
    lock is taken, and under those of the user that took the lock when it is
    refreshed, whoever calls: then it has no body and carries the lock token
    in its If header.  A call that fails leaves the node as it was.  A call
    that succeeds stores the token that [parse_lock] has found in the body
    of the response, and the caller as the owner only when the lock is
    taken: a refresh never changes the owner.  Every slot is given back. *)
Theorem network_lock_owner (uid : Z) (refresh : bool) (node : node_entry)
    (w : World) :
  let '(error, node', w') := network_lock uid refresh node w in
  log_grows
    (request_event (lock_request uid refresh node) (lock_owner uid refresh node))
    w w'
  /\ in_use w' = in_use w
  /\ if error =? 0
     then exists body,
         node' = with_locktoken node (parse_lock body (Z.of_nat (length body))).2
                   (lock_owner uid refresh node)
         /\ (parse_lock body (Z.of_nat (length body))).1 = 0
     else node' = node.
Proof. apply network_lock_effect. Qed.

End Locks.

Section LockLifecycle.
Context {codes : SecureTransport} {services : URLServices} {outside : Outside}.

Lemma network_unlock_effect (node : node_entry) (w : World) :
  let '(error, node', w') := network_unlock node w in
  log_grows
    (request_event
       (unlock_request (file_locktoken_uid node) (file_locktoken node))
       (file_locktoken_uid node))
    w w'
  /\ file_locktoken node' = None /\ file_locktoken_uid node' = 0.
Proof.
  unfold network_unlock.
  destruct (create_cfurl_from_node node None 0 w) as [urlRef|].
  2: { split; [apply log_grows_refl|done]. }
  destruct (format_locktoken (file_locktoken node) w) as [lockTokenRef|] eqn:Htoken.
  2: { split; [apply log_grows_refl|done]. }
  apply format_locktoken_header in Htoken as ->.
  destruct (send_transaction _ _ _ _ _ _ _ _) as [[[[sent buffer] count] response] w']
    eqn:Hsend.
  split; [|done].
  apply send_transaction_log in Hsend.
  eapply log_grows_weaken; [|exact Hsend].
  intros e. apply transaction_request_event.
  exact (request_sent_UNLOCK _ node urlRef).
Qed.

(** X22.  A lock stays with the user that took it.  After [network_lock]
    has taken a lock for [uid], the node records [uid] as its owner; from
    then on a refresh asked for by any user goes out under the credentials
    of [uid], with the token in its If header, and leaves [uid] the owner
    whether it succeeds or not; and [network_unlock] sends its UNLOCK under
    the credentials of [uid] with that token in the Lock-Token header, and
    leaves the node without token and owner. *)
Theorem lock_stays_with_its_owner (uid : Z) (node : node_entry) (w : World)
    (node1 : node_entry) (w1 : World) :
  network_lock uid false node w = (0, node1, w1) ->
  file_locktoken_uid node1 = uid
  /\ (forall uid2 w2,
        let '(_, node2, w3) := network_lock uid2 true node1 w2 in
        file_locktoken_uid node2 = uid
        /\ log_grows (request_event (lock_request uid2 true node1) uid) w2 w3)
  /\ (forall w2,
        let '(_, node2, w3) := network_unlock node1 w2 in
        log_grows
          (request_event (unlock_request uid (file_locktoken node1)) uid) w2 w3
        /\ file_locktoken node2 = None /\ file_locktoken_uid node2 = 0).
Proof.
  intros Hlock.
  pose proof (network_lock_effect uid false node w) as Htaken.
  rewrite Hlock in Htaken. destruct Htaken as (_ & _ & body & -> & _).
  split; [done|]. split.
  - intros uid2 w2.
    pose proof (network_lock_effect uid2 true
                  (with_locktoken node
                     (parse_lock body (Z.of_nat (length body))).2
                     (lock_owner uid false node)) w2) as Hrefresh.
    destruct (network_lock uid2 true _ w2) as [[error node2] w3].
    destruct Hrefresh as (Hlog & _ & Hnode). split; [|exact Hlog].
    destruct (error =? 0); [|by subst].
    by destruct Hnode as (b & -> & _).
  - intros w2.
    exact (network_unlock_effect
             (with_locktoken node (parse_lock body (Z.of_nat (length body))).2
                (lock_owner uid false node)) w2).
Qed.

End LockLifecycle.

Lemma lock_stays_with_its_owner_witness :
  let w := test_world None [Some lock_granted] [] in
  let taken :=
    network_lock (codes := SecureTransport_h) (services := test_services)
      (outside := test_outside) 502 false root_node w in
  let node1 := taken.1.2 in
  taken = (0, node1, taken.2)
  /\ file_locktoken node1 = Some (cstr "opaquelocktoken:2")
  /\ file_locktoken_uid node1 = 502
  /\ (forall uid2 w2,
        let '(_, node2, w3) :=
          network_lock (codes := SecureTransport_h) (services := test_services)
            (outside := test_outside) uid2 true node1 w2 in
        file_locktoken_uid node2 = 502
        /\ log_grows
             (request_event (lock_request (outside := test_outside) uid2 true node1)
                502) w2 w3)
  /\ (forall w2,
        let '(_, node2, w3) :=
          network_unlock (codes := SecureTransport_h) (services := test_services)
            node1 w2 in
        log_grows
          (request_event (unlock_request 502 (file_locktoken node1)) 502) w2 w3
        /\ file_locktoken node2 = None /\ file_locktoken_uid node2 = 0).
Proof.
  assert (H : network_lock (codes := SecureTransport_h)
                (services := test_services) (outside := test_outside) 502 false
                root_node (test_world None [Some lock_granted] [])
              = (0,
                 (network_lock (codes := SecureTransport_h)
                    (services := test_services) (outside := test_outside) 502
                    false root_node
                    (test_world None [Some lock_granted] [])).1.2,
                 (network_lock (codes := SecureTransport_h)
                    (services := test_services) (outside := test_outside) 502
                    false root_node
                    (test_world None [Some lock_granted] [])).2))
    by (vm_compute; reflexivity).
  split; [exact H|]. split; [by vm_compute|].
  exact (lock_stays_with_its_owner (codes := SecureTransport_h)
           (services := test_services) (outside := test_outside) 502 root_node
           (test_world None [Some lock_granted] []) _ _ H).
Defined.

(** ** The rest of a download *)

Lemma finish_download_loop_unroll file_fd terminated s w :
  finish_download_loop file_fd terminated s w
  = if hd false terminated then
      let r := CFReadStreamRead s 1 in
      (if r.1.1 =? 0 then DownloadComplete else DownloadTerminated, r.2, w)
    else
      let '(bytesRead, bytes, s') := CFReadStreamRead s BODY_BUFFER_SIZE in
      if 0 <? bytesRead then
        let written := write file_fd bytes bytesRead w in
        if written.1 =? bytesRead
        then finish_download_loop file_fd (tl terminated) s' written.2
        else (DownloadWriteFailed, s', written.2)
      else if bytesRead =? 0 then (DownloadComplete, s', w)
           else (DownloadReadFailed, s', w).
Proof.
  funelim (finish_download_loop file_fd terminated s w).
  all: try match goal with E : hd false _ = _ |- _ => rewrite E end;
    try match goal with E : CFReadStreamRead _ _ = _ |- _ => rewrite E end;
    try match goal with E : (0 <? _) = _ |- _ => rewrite E end;
    reflexivity.
Qed.

Lemma with_files_same (w : World) : with_files w (files w) = w.
Proof. by destruct w. Qed.

Lemma write_world fd buffer nbyte w :
  exists fs, (write fd buffer nbyte w).2 = with_files w fs
             /\ forall fd', fd' <> fd -> fs !! fd' = files w !! fd'.
Proof.
  unfold write.
  destruct (files w !! fd) as [f|];
    [destruct (write_count _ _ <? 0)|]; simpl.
  1,3: exists (files w); by rewrite with_files_same.
  eexists. split; [done|]. intros fd' Hne. by rewrite lookup_insert_ne.
Qed.

(** The loop writes to the cache file of the node and touches nothing else;
    once asked to terminate it does not write either. *)
Lemma finish_download_loop_world file_fd terminated s w ending s' w' :
  finish_download_loop file_fd terminated s w = (ending, s', w') ->
  exists fs,
    w' = with_files w fs
    /\ (forall fd', fd' <> file_fd -> fs !! fd' = files w !! fd')
    /\ (hd false terminated = true -> fs = files w).
Proof.
  revert terminated w.
  induction s as [s IH] using (induction_ltof1 _ stream_weight).
  intros terminated w. rewrite finish_download_loop_unroll.
  destruct (hd false terminated) eqn:Hflag.
  { intros [= <- <- <-]. exists (files w). by rewrite with_files_same. }
  destruct (CFReadStreamRead s BODY_BUFFER_SIZE) as [[bytesRead bytes] s1]
    eqn:Hread.
  destruct (Z.ltb_spec 0 bytesRead) as [Hpos|Hneg].
  2: { destruct (bytesRead =? 0); intros [= <- <- <-];
         exists (files w); by rewrite with_files_same. }
  destruct (write_world file_fd bytes bytesRead w) as (fs & Hw & Hother).
  cbv zeta. rewrite Hw.
  destruct (_ =? bytesRead).
  - intros Hloop. apply IH in Hloop as (fs' & -> & Hother' & _).
    2: { unfold ltof. by eapply CFReadStreamRead_weight. }
    exists fs'. split; [done|]. split; [|done].
    intros fd' Hne. rewrite Hother' by done. by apply Hother.
  - intros [= <- <- <-]. by exists fs.
Qed.

Lemma CFReadStreamRead_delivered s bufferLength bytesRead bytes s' :
  CFReadStreamRead s bufferLength = (bytesRead, bytes, s') ->
  if 0 <? bytesRead
  then delivered (events s) = bytes ++ delivered (events s')
       /\ breaks_off (events s) = breaks_off (events s')
  else 0 < bufferLength ->
       delivered (events s) = []
       /\ breaks_off (events s) = negb (bytesRead =? 0).
Proof.
  unfold CFReadStreamRead. intros H.
  destruct (events s) as [|[chunk|e] rest].
  - by injection H as <- <- <-.
  - destruct (Nat.leb_spec (length chunk) (Z.to_nat bufferLength)) as [Hle|Hgt];
      injection H as <- <- <-.
    + destruct chunk as [|c chunk]; [done|].
      destruct (Z.ltb_spec 0 (Z.of_nat (length (c :: chunk))));
        [done|simpl in *; lia].
    + destruct (Z.ltb_spec 0 (Z.of_nat (Z.to_nat bufferLength))); [|lia].
      destruct chunk as [|c chunk]; [simpl in Hgt; lia|].
      destruct (drop (Z.to_nat bufferLength) (c :: chunk)) as [|d rest'] eqn:Hdrop.
      { apply (f_equal length) in Hdrop. rewrite length_drop in Hdrop.
        simpl in *. lia. }
      cbn [events with_events delivered breaks_off]. split; [|done].
      rewrite app_assoc, <-Hdrop, take_drop. done.
  - by injection H as <- <- <-.
Qed.

(** With the cache file ready and no request to terminate, the loop puts
    all that the stream delivers at the end of the file, and ends by
    [break] unless the stream fails. *)
Lemma finish_download_loop_appends file_fd terminated s w f :
  Forall (fun flag => flag = false) terminated ->
  ready_to_append w file_fd f ->
  exists s',
    finish_download_loop file_fd terminated s w
    = (if breaks_off (events s) then DownloadReadFailed else DownloadComplete,
       s',
       with_files w
         (<[file_fd := appended f (delivered (events s))]> (files w))).
Proof.
  revert terminated w f.
  induction s as [s IH] using (induction_ltof1 _ stream_weight).
  intros terminated w f Hflags (Hf & Hpos & Hwrite).
  rewrite finish_download_loop_unroll.
  assert (Hflag : hd false terminated = false)
    by (destruct Hflags; [done|by subst]).
  rewrite Hflag.
  destruct (CFReadStreamRead s BODY_BUFFER_SIZE) as [[bytesRead bytes] s1]
    eqn:Hread.
  pose proof (CFReadStreamRead_delivered _ _ _ _ _ Hread) as Hdelivered.
  assert (Hsame : with_files w (<[file_fd := appended f []]> (files w)) = w).
  { unfold appended. rewrite app_nil_r. simpl. rewrite Z.add_0_r.
    replace {| data := data f; position := position f; flags := flags f |} with f
      by (by destruct f).
    by rewrite insert_id, with_files_same. }
  destruct (Z.ltb_spec 0 bytesRead) as [Hlt|Hge].
  2: { destruct (Hdelivered eq_refl) as [-> ->]. rewrite Hsame.
       destruct (bytesRead =? 0); by eexists. }
  destruct Hdelivered as [-> ->].
  pose proof (CFReadStreamRead_count _ _ _ _ _ Hread ltac:(lia)) as ->.
  unfold write. cbv zeta. rewrite Hf, Hwrite.
  destruct (Z.ltb_spec (Z.of_nat (length bytes)) 0); [lia|].
  rewrite Nat2Z.id, !firstn_all. simpl. rewrite Z.eqb_refl.
  assert (Hwritten : write_at f bytes = appended f bytes).
  { unfold write_at, appended. rewrite Hpos, Nat2Z.id, firstn_all.
    rewrite Nat.sub_diag, drop_ge by lia. simpl. by rewrite app_nil_r. }
  rewrite Hwritten.
  set (w2 := with_files w (<[file_fd := appended f bytes]> (files w))).
  destruct (IH s1 ltac:(unfold ltof; by eapply CFReadStreamRead_weight)
              (tl terminated) w2 (appended f bytes)) as (s' & ->).
  - destruct Hflags; [done|]. done.
  - split; [subst w2; simpl; by rewrite lookup_insert_eq|].
    split; [|done]. simpl. rewrite length_app. lia.
  - exists s'. f_equal. subst w2. unfold with_files. simpl.
    rewrite insert_insert_eq. unfold appended. simpl.
    rewrite <-app_assoc, length_app, Nat2Z.inj_add, Z.add_assoc. done.
Qed.

Lemma slot_stream_close_and_release slot w :
  slot_stream (close_and_release slot w) slot = None.
Proof.
  unfold slot_stream, close_and_release, release_ReadStreamRec, set_slot_stream.
  simpl. rewrite !list_lookup_alter_eq.
  by destruct (gReadStreams w !! slot).
Qed.

Lemma in_use_with_files w fs : in_use (with_files w fs) = in_use w.
Proof. done. Qed.

Lemma in_use_close_stream w : in_use (close_stream w) = in_use w.
Proof. done. Qed.

(** The slots in use after the stream of one was set, closed or released. *)
Ltac in_use_after :=
  rewrite ?in_use_close_and_release, ?in_use_release;
  repeat first [rewrite in_use_set_slot_stream | rewrite in_use_close_stream
               | rewrite in_use_with_files];
  rewrite ?alter_const_insert.

(** X23.  [network_finish_download] always gives the slot back.  Called
    with a slot that holds a stream, it returns 0 or EIO; the slot is free
    afterwards and the other slots are in use or free as before; when it
    returns EIO the stream has been closed and taken out of the slot; it
    sends nothing, and all it leaves in the log is the closing of the
    stream; it writes to no file but the cache file of the node; and once
    it finds the download terminated it does not write at all. *)
Theorem network_finish_download_frees_the_slot (node : node_entry)
    (terminated : list bool) (slot : nat) (w : World) (s : CFReadStream) :
  slot_stream w slot = Some s ->
  exists error w',
    network_finish_download node terminated slot w = Some (error, w')
    /\ error ∈ [0; EIO]
    /\ in_use w' = <[slot := false]> (in_use w)
    /\ (error = EIO -> slot_stream w' slot = None)
    /\ log_grows (fun e => e = StreamClosed) w w'
    /\ (forall fd, fd <> file_fd node -> files w' !! fd = files w !! fd)
    /\ (hd false terminated = true -> files w' = files w).
Proof.
  intros Hs. unfold network_finish_download. rewrite Hs. simpl.
  assert (Hclosed : forall w0 : World,
             log_grows (fun e => e = StreamClosed) w w0 ->
             log_grows (fun e => e = StreamClosed) w (close_and_release slot w0)).
  { intros w0 Hlog. eapply log_grows_trans; [exact Hlog|].
    exists [StreamClosed]. split; [done|]. by repeat constructor. }
  destruct (malloc_fails (plan (config w))).
  { eexists _, _. split; [done|]. split; [in_list|].
    split; [by in_use_after|].
    split; [intros _; apply slot_stream_close_and_release|].
    split; [apply Hclosed, log_grows_refl|]. done. }
  destruct (finish_download_loop _ _ _ _) as [[ending s'] w1] eqn:Hloop.
  apply finish_download_loop_world in Hloop as (fs & -> & Hother & Hflag).
  assert (Hlog : log_grows (fun e => e = StreamClosed) w
                   (set_slot_stream slot (Some s') (with_files w fs)))
    by (by apply log_grows_same).
  assert (Hfailed : exists error w',
             Some (EIO,
                   close_and_release slot
                     (set_slot_stream slot (Some s') (with_files w fs)))
             = Some (error, w')
             /\ error ∈ [0; EIO]
             /\ in_use w' = <[slot := false]> (in_use w)
             /\ (error = EIO -> slot_stream w' slot = None)
             /\ log_grows (fun e => e = StreamClosed) w w'
             /\ (forall fd, fd <> file_fd node -> files w' !! fd = files w !! fd)
             /\ (hd false terminated = true -> files w' = files w)).
  { eexists _, _. split; [done|]. split; [in_list|].
    split.
    { by in_use_after. }
    split; [intros _; apply slot_stream_close_and_release|].
    split; [by apply Hclosed|]. done. }
  destruct ending; try exact Hfailed.
  eexists _, _. split; [done|]. split; [in_list|].
  split.
  { destruct (slot_connectionClose _ _); by in_use_after. }
  split; [done|].
  split.
  { destruct (slot_connectionClose _ _); [|done].
    eapply log_grows_trans; [exact Hlog|].
    exists [StreamClosed]. split; [done|]. by repeat constructor. }
  destruct (slot_connectionClose _ _); done.
Qed.

Lemma network_finish_download_frees_the_slot_witness :
  slot_stream download_in_progress 1 = Some two_chunks
  /\ exists error w',
      network_finish_download test_node [] 1 download_in_progress
      = Some (error, w')
      /\ error ∈ [0; EIO]
      /\ in_use w' = <[1%nat := false]> (in_use download_in_progress)
      /\ (error = EIO -> slot_stream w' 1 = None)
      /\ log_grows (fun e => e = StreamClosed) download_in_progress w'
      /\ (forall fd, fd <> file_fd test_node ->
          files w' !! fd = files download_in_progress !! fd)
      /\ (hd false [] = true -> files w' = files download_in_progress).
Proof.
  split; [reflexivity|].
  apply (network_finish_download_frees_the_slot test_node [] 1
           download_in_progress two_chunks).
  reflexivity.
Defined.

(** With the cache file ready and no request to terminate,
    [network_finish_download] puts what the stream delivers at the end of
    the cache file. *)
Lemma network_finish_download_effect node terminated slot w s f :
  slot_stream w slot = Some s ->
  malloc_fails (plan (config w)) = false ->
  Forall (fun flag => flag = false) terminated ->
  ready_to_append w (file_fd node) f ->
  exists w',
    network_finish_download node terminated slot w
    = Some (if breaks_off (events s) then EIO else 0, w')
    /\ files w'
       = <[file_fd node := appended f (delivered (events s))]> (files w)
    /\ in_use w' = <[slot := false]> (in_use w).
Proof.
  intros Hs Hmalloc Hflags Hready.
  unfold network_finish_download. rewrite Hs. simpl. rewrite Hmalloc.
  destruct (finish_download_loop_appends (file_fd node) terminated s w f Hflags
              Hready) as (s' & ->).
  destruct (breaks_off (events s)).
  - eexists. split; [done|]. split; [done|].
    by in_use_after.
  - eexists. split; [done|]. split.
    + by destruct (slot_connectionClose _ _).
    + destruct (slot_connectionClose _ _); by in_use_after.
Qed.

(** X24.  What the background download leaves in the cache file.  When
    the slot holds a stream, the buffer can be allocated, the cache file of
    the node is open with its position at its end, [write] takes all it is
    given, and the download is never found terminated, then
    [network_finish_download] returns EIO if the stream fails before its
    body has ended and 0 otherwise, and in both cases the cache file is
    what it was followed by every byte the stream has delivered, its
    position at the new end; no other file has changed. *)
Theorem network_finish_download_appends (node : node_entry)
    (terminated : list bool) (slot : nat) (w : World) (s : CFReadStream)
    (f : CacheFile) :
  slot_stream w slot = Some s ->
  malloc_fails (plan (config w)) = false ->
  Forall (fun flag => flag = false) terminated ->
  ready_to_append w (file_fd node) f ->
  exists w',
    network_finish_download node terminated slot w
    = Some (if breaks_off (events s) then EIO else 0, w')
    /\ files w'
       = <[file_fd node := appended f (delivered (events s))]> (files w).
Proof.
  intros Hs Hmalloc Hflags Hready.
  destruct (network_finish_download_effect node terminated slot w s f Hs Hmalloc
              Hflags Hready) as (w' & H & Hfiles & _).
  by exists w'.
Qed.

Lemma network_finish_download_appends_witness :
  exists w',
    network_finish_download test_node [false; false] 1 download_in_progress
    = Some (0, w')
    /\ files w'
       = <[3 := {| data := cstr ">> Hello, world"; position := 15;
                   flags := UF_NODUMP |}]> (files download_in_progress).
Proof.
  apply (network_finish_download_appends test_node [false; false] 1
           download_in_progress two_chunks
           {| data := cstr ">> "; position := 3; flags := UF_NODUMP |}).
  - reflexivity.
  - reflexivity.
  - by repeat constructor.
  - by repeat split.
Defined.

(** What the first read has taken and what it has left make up what the
    stream delivers. *)
Lemma read_first_delivered len s buffer totalRead buffer' totalRead' s' :
  read_first len s buffer totalRead = FirstRead buffer' totalRead' true s' ->
  buffer ++ delivered (events s) = buffer' ++ delivered (events s')
  /\ breaks_off (events s) = breaks_off (events s').
Proof.
  revert buffer totalRead.
  induction s as [s IH] using (induction_ltof1 _ stream_weight).
  intros buffer totalRead. rewrite read_first_unroll.
  destruct (CFReadStreamRead s (len - totalRead)) as [[bytesRead bytes] s1]
    eqn:Hread.
  pose proof (CFReadStreamRead_delivered _ _ _ _ _ Hread) as Hdelivered.
  destruct (Z.ltb_spec 0 bytesRead) as [Hpos|Hneg].
  2: { by destruct (bytesRead =? 0). }
  destruct Hdelivered as [-> ->].
  destruct (len <=? totalRead + bytesRead).
  - intros [= <- <- _ <-]. by rewrite app_assoc.
  - intros Hrest. apply IH in Hrest as [<- <-].
    + by rewrite app_assoc.
    + unfold ltof. by eapply CFReadStreamRead_weight.
Qed.

Lemma inUse_alter (f : ReadStreamRec -> ReadStreamRec) slot
    (slots : list ReadStreamRec) :
  (forall r, inUse (f r) = inUse r) ->
  inUse <$> alter f slot slots = inUse <$> slots.
Proof.
  intros Hf. apply list_eq. intros j. rewrite !list_lookup_fmap.
  destruct (decide (slot = j)) as [<-|Hne].
  - rewrite list_lookup_alter_eq. destruct (slots !! slot); simpl; [|done].
    by rewrite Hf.
  - by rewrite list_lookup_alter_ne.
Qed.

Section Download.
Context {codes : SecureTransport}.

(** X25.  A download that is handed off ends up whole in the cache file.
    Take a GET whose stream [s] opens on [slot], whose first read leaves
    bytes to come, and whose status is 200 or 206, in a world where no call
    on the cache file fails, [write] takes all it is given and the request
    queue accepts the download.  Then [stream_get_transaction] succeeds
    with the node IN_PROGRESS, and [network_finish_download], called with
    that node and slot and not asked to terminate, returns 0, or EIO if the
    stream fails before its body has ended; after it the cache file holds
    every byte that [s] delivers, from the start of the file for a 200 and
    after what the file held for a 206; and the slots in use are those
    that were in use before the GET. *)
Theorem download_is_completed (request : CFHTTPMessage) (retry : bool)
    (node : node_entry) (w : World) (slot : nat) (s : CFReadStream) (w1 : World)
    (buffer : list ascii) (totalRead : Z) (s' : CFReadStream)
    (response : CFHTTPMessage) (f : CacheFile) (terminated : list bool) :
  may_transact w ->
  open_stream_for_transaction request None true retry w
  = (Success (slot, s), retry, w1) ->
  malloc_fails (plan (config w)) = false ->
  read_first (first_read_len (config w)) s [] 0
  = FirstRead buffer totalRead true s' ->
  responseHeader s' = Some response ->
  statusCode response = 200 \/ statusCode response = 206 ->
  files w !! file_fd node = Some f ->
  cache_file_writable w totalRead ->
  hand_off_accepted w ->
  (forall n, write_count (plan (config w)) n = n) ->
  Forall (fun flag => flag = false) terminated ->
  exists w' w'',
    stream_get_transaction request retry node w
    = (Success response, retry,
       with_file_status node WEBDAV_DOWNLOAD_IN_PROGRESS, w')
    /\ network_finish_download
         (with_file_status node WEBDAV_DOWNLOAD_IN_PROGRESS) terminated slot w'
       = Some (if breaks_off (events s) then EIO else 0, w'')
    /\ (exists f'',
          files w'' !! file_fd node = Some f''
          /\ data f''
             = (if statusCode response =? 200 then [] else data f)
               ++ delivered (events s)
          /\ position f'' = Z.of_nat (length (data f'')))
    /\ in_use w'' = in_use w.
Proof.
  intros Hmay Hopen Hmalloc Hread Hresponse Hstatus Hf Hok (Hnodump & Henqueue)
    Hwrite Hflags.
  destruct (open_stream_for_transaction_world _ _ _ _ _ _ _ _ Hopen)
    as (Hfiles & Hconfig & _).
  pose proof (open_stream_for_transaction_in_use _ _ _ _ _ _ _ _ Hopen)
    as [Hfree Hlease].
  pose proof (read_first_length _ _ [] 0 _ _ _ _ eq_refl Hread) as Hlen.
  destruct (read_first_delivered _ _ _ _ _ _ _ Hread) as [Hall Hbreaks].
  simpl in Hall.
  unfold stream_get_transaction.
  rewrite (may_transact_check w Hmay), Hopen, Hconfig, Hmalloc, Hread.
  unfold CFReadStreamCopyProperty_ResponseHeader,
    CFHTTPMessageGetResponseStatusCode. rewrite Hresponse.
  set (w2 := set_slot_stream slot (Some s') w1).
  assert (Hf2 : files w2 !! file_fd node = Some f) by (by rewrite <-Hfiles in Hf).
  assert (Hok2 : cache_file_writable w2 totalRead).
  { unfold cache_file_writable. change (config w2) with (config w1).
    by rewrite Hconfig. }
  assert (Hwritten : exists f3,
    write_first_bytes (statusCode response) node buffer totalRead true w2
    = (true, true, with_files w2 (<[file_fd node := f3]> (files w2)))
    /\ data f3 = (if statusCode response =? 200 then [] else data f) ++ buffer
    /\ position f3 = Z.of_nat (length (data f3))).
  { destruct Hstatus as [-> | ->].
    - rewrite (write_first_bytes_200 _ _ _ _ _ f Hf2 Hok2 Hlen).
      eexists. split; [done|]. by split.
    - rewrite (write_first_bytes_206 _ _ _ _ _ f Hf2 Hok2 Hlen).
      eexists. split; [done|]. split; [done|]. simpl.
      rewrite length_app. lia. }
  destruct Hwritten as (f3 & -> & Hdata3 & Hposition3). subst w2.
  unfold fchflags, requestqueue_enqueue_download. simpl.
  rewrite lookup_insert_eq, Hconfig, Hnodump. simpl. rewrite Hconfig, Henqueue.
  simpl.
  eexists. 
  match goal with
  | |- exists w'', (_, _, _, ?w') = _ /\ _ =>
      destruct (network_finish_download_effect
                  (with_file_status node WEBDAV_DOWNLOAD_IN_PROGRESS) terminated
                  slot w' s'
                  {| data := data f3; position := position f3;
                     flags := UF_NODUMP |})
        as (w'' & Hfinish & Hfiles'' & Hslots)
  end.
  - unfold slot_stream. simpl.
    rewrite !list_lookup_alter_eq.
    destruct (lookup_lt_is_Some_2 (gReadStreams w1) slot) as [r Hr].
    { apply lookup_lt_Some in Hfree. unfold in_use in Hfree.
      rewrite length_fmap in Hfree.
      apply (f_equal length) in Hlease. unfold in_use in Hlease.
      rewrite length_alter, !length_fmap in Hlease. lia. }
    by rewrite Hr.
  - simpl. by rewrite Hconfig.
  - done.
  - split; [simpl; by rewrite insert_insert_eq, lookup_insert_eq|].
    split; [done|]. simpl. by rewrite Hconfig.
  - exists w''. split; [reflexivity|]. rewrite Hbreaks. split; [exact Hfinish|].
    split.
    + eexists. rewrite Hfiles''. simpl. rewrite lookup_insert_eq.
      split; [done|]. simpl. split.
      * by rewrite Hdata3, <-app_assoc, <-Hall.
      * rewrite Hposition3, length_app. lia.
    + rewrite Hslots. unfold in_use at 1. simpl.
      rewrite !inUse_alter by done. fold (in_use w1).
      rewrite <-alter_const_insert, Hlease. by apply alter_false_true.
Qed.

End Download.

Lemma download_is_completed_witness :
  exists s w' w'',
    @stream_get_transaction SecureTransport_h test_request true test_node
      (test_world None [Some (long_response 200)] [])
    = (Success (response_with_status 200), true,
       with_file_status test_node WEBDAV_DOWNLOAD_IN_PROGRESS, w')
    /\ network_finish_download
         (with_file_status test_node WEBDAV_DOWNLOAD_IN_PROGRESS) [] 0 w'
       = Some (if breaks_off (events s) then EIO else 0, w'')
    /\ (exists f'',
          files w'' !! file_fd test_node = Some f''
          /\ data f''
             = (if statusCode (response_with_status 200) =? 200 then []
                else data stale_file)
               ++ delivered (events s)
          /\ position f'' = Z.of_nat (length (data f'')))
    /\ in_use w'' = in_use (test_world None [Some (long_response 200)] []).
Proof.
  eexists.
  eapply (@download_is_completed SecureTransport_h test_request true
            test_node (test_world None [Some (long_response 200)] [])
            0 _ _ (replicate 4096 "x"%char) 4096 _ (response_with_status 200)
            stale_file []).
  - by left.
  - vm_compute. reflexivity.
  - reflexivity.
  - vm_compute. reflexivity.
  - reflexivity.
  - by left.
  - reflexivity.
  - by repeat split.
  - by split.
  - done.
  - constructor.
Defined.

(** On the scripted transport: the page and the rest of a 200 end up in the
    cache file in place of what it held; a directory with one entry besides
    itself is not deleted, and no DELETE goes out; a rename onto the same
    URL sends nothing. *)
Example operations_on_the_scripted_transport :
  (exists w' w'' f'',
      @stream_get_transaction SecureTransport_h test_request true test_node
        (test_world None [Some (long_response 200)] [])
      = (Success (response_with_status 200), true,
         with_file_status test_node WEBDAV_DOWNLOAD_IN_PROGRESS, w')
      /\ network_finish_download
           (with_file_status test_node WEBDAV_DOWNLOAD_IN_PROGRESS) [] 0 w'
         = Some (0, w'')
      /\ files w'' !! 3 = Some f''
      /\ data f'' = replicate 4096 "x"%char ++ cstr "more")
  /\ (let '(error, _, w') :=
        network_rmdir (codes := SecureTransport_h) (services := test_services)
          (outside := test_outside) 501 test_node 7
          (test_world None [Some multistatus; Some no_content] []) in
      error = 0 /\ streams_created (log w') = 2%nat)
  /\ (let '(error, remove_date, w') :=
        network_rmdir (codes := SecureTransport_h) (services := test_services)
          (outside := test_outside) 501 test_node 7
          (test_world None [Some two_entries; Some no_content] []) in
      error = ENOTEMPTY /\ remove_date = 7
      /\ streams_created (log w') = 1%nat)
  /\ (let w := test_world None [Some no_content] [] in
      network_rename (codes := SecureTransport_h) (services := test_services)
        (outside := test_outside) 501 test_node
        (Some (test_node, WEBDAV_FILE_TYPE)) root_node None 0 w
      = (0, -1, w))
  /\ (let '(error, buffer, actual_count, _) :=
        network_read (codes := SecureTransport_h) (services := test_services)
          501 test_node 0 4 (test_world None [Some ten_bytes] []) in
      error = 0 /\ buffer = Some (cstr "0123456789") /\ actual_count = 4).
Proof.
  split; [|by vm_compute].
  eexists _, _, _. split; [vm_compute; reflexivity|].
  split; [vm_compute; reflexivity|]. split; [vm_compute; reflexivity|].
  by vm_compute.
Qed.
